(** * geom_visualizer: a shallow embedding of the three viewer scripts

    The repository holds three batch scripts that turn calculation logs
    ([ts_viewer.py], [structure_viewer.py]) and coordinate files
    ([xyz_viewer.py]) into one HTML gallery.  This development embeds the
    parts that decide what ends up in the gallery: the tail-window
    termination test, the extraction of the final geometry and of the
    imaginary modes, the XYZ encoder, the script synthesis and its
    escaping, the natural ordering of file names and the batch loops.

    Python values are modelled as follows.
    - [str] is [string]; its characters are 8-bit, so the model covers
      text whose code points are below 256.  On these, [str.isdigit],
      [str.lower] and the pattern [\d] are embedded as Python defines
      them: [\d] matches ['0'..'9'] only, [isdigit] accepts the
      superscript digits as well.  Decoded log text is a list of code
      points ([list N]).
    - [bytes] is [list byte].
    - [int] is [Z]; [len] is [Z.of_nat (length _)].
    - [float] is a type parameter that comes with its [< 0] test and its
      [.Nf] formatters (class [PyFloat]).
    - A call that can raise returns a [Py.result]; [try]/[except] is an
      explicit combinator.
    - Calls into cclib, ASE and the file system are inputs of the model:
      an environment gives, for every path, what the call returns or
      raises. *)

From Stdlib Require Import List String Ascii Strings.Byte NArith ZArith Lia Bool.
From Stdlib Require Import DecimalString DecimalZ Permutation Sorted.
From Stdlib Require OrderedTypeEx.
Import ListNotations.
Open Scope string_scope.

(** ** Python runtime fragments *)
Module Py.

(** The exception classes the scripts meet.  [SystemExit] derives from
    [BaseException] only, so [except Exception] lets it through. *)
Inductive exn : Type :=
| FileNotFoundError
| PermissionError
| IsADirectoryError
| OSError
| AttributeError
| IndexError
| ValueError
| TypeError
| SystemExit (msg : string).

Definition is_Exception (e : exn) : bool :=
  match e with
  | SystemExit _ => false
  | _ => true
  end.

Inductive result (A : Type) : Type :=
| Ok (a : A)
| Raise (e : exn).
Arguments Ok {A} a.
Arguments Raise {A} e.

Definition bind {A B : Type} (m : result A) (k : A -> result B) : result B :=
  match m with
  | Ok a => k a
  | Raise e => Raise e
  end.

Notation "x <- m ;; k" := (bind m (fun x => k))
  (at level 61, m at next level, right associativity).
Notation "' pat <- m ;; k" := (bind m (fun x => match x with pat => k end))
  (at level 61, pat pattern, m at next level, right associativity).

(** [try: body except Exception: handler] *)
Definition try_except_Exception {A : Type}
    (body : result A) (handler : exn -> result A) : result A :=
  match body with
  | Ok a => Ok a
  | Raise e => if is_Exception e then handler e else Raise e
  end.

(** [try: body except: handler] (a bare [except] catches everything) *)
Definition try_except_all {A : Type}
    (body : result A) (handler : result A) : result A :=
  match body with
  | Ok a => Ok a
  | Raise _ => handler
  end.

(** *** Characters and strings *)

Definition newline : ascii := "010"%char.
Definition dquote : ascii := "034"%char.
Definition apostrophe : ascii := "039"%char.
Definition backslash : ascii := "092"%char.
Definition pipe : ascii := "|"%char.

Definition char (c : ascii) : string := String c EmptyString.

(** [str(n)] and [f"{n}"] for an [int] *)
Definition str (n : Z) : string := NilEmpty.string_of_int (Z.to_int n).

(** [len(xs)] *)
Definition len {A : Type} (xs : list A) : Z := Z.of_nat (List.length xs).

(** [sep.join(parts)] *)
Fixpoint join (sep : string) (parts : list string) : string :=
  match parts with
  | [] => EmptyString
  | [p] => p
  | p :: rest => p ++ sep ++ join sep rest
  end.

(** [s.replace(old, new)] for a one-character [old] *)
Fixpoint replace (old : ascii) (new : string) (s : string) : string :=
  match s with
  | EmptyString => EmptyString
  | String c rest =>
      (if Ascii.eqb c old then new else char c) ++ replace old new rest
  end.

(** [s.split(sep)] for a one-character [sep]: never empty, one more piece
    than there are separators. *)
Fixpoint split (sep : ascii) (s : string) : list string :=
  match s with
  | EmptyString => [EmptyString]
  | String c rest =>
      if Ascii.eqb c sep then EmptyString :: split sep rest
      else match split sep rest with
           | [] => [char c]
           | p :: ps => String c p :: ps
           end
  end.

(** [c in s] for a character *)
Fixpoint has_char (c : ascii) (s : string) : bool :=
  match s with
  | EmptyString => false
  | String d rest => Ascii.eqb d c || has_char c rest
  end.

(** [s.startswith(needle)] and [needle in s] on strings *)
Fixpoint str_startswith (needle s : string) : bool :=
  match needle, s with
  | EmptyString, _ => true
  | String _ _, EmptyString => false
  | String a needle', String b s' => Ascii.eqb a b && str_startswith needle' s'
  end.

Fixpoint str_in (needle s : string) : bool :=
  str_startswith needle s ||
  match s with
  | EmptyString => false
  | String _ rest => str_in needle rest
  end.

(** [s.replace(old, new)] for strings: the occurrences of [old] are
    replaced from left to right, and an occurrence that has been replaced
    is not looked at again.  [skip] counts the characters of the current
    occurrence that are still to be passed over. *)
Fixpoint replace_from (old new : string) (skip : nat) (s : string) : string :=
  match s with
  | EmptyString => EmptyString
  | String c rest =>
      match skip with
      | S k => replace_from old new k rest
      | O =>
          if str_startswith old s
          then new ++ replace_from old new (String.length old - 1) rest
          else String c (replace_from old new 0 rest)
      end
  end.

(** With an empty [old], [new] is put before every character and at the
    end. *)
Fixpoint intersperse (new s : string) : string :=
  match s with
  | EmptyString => new
  | String c rest => new ++ String c (intersperse new rest)
  end.

Definition replace_all (old new s : string) : string :=
  match old with
  | EmptyString => intersperse new s
  | String _ _ => replace_from old new 0 s
  end.

(** *** Decoded text: sequences of code points *)

Definition text : Type := list N.

Definition codepoints (s : string) : text :=
  map (fun b => Byte.to_N b) (list_byte_of_string s).

Fixpoint startswith (needle t : text) : bool :=
  match needle, t with
  | [], _ => true
  | _ :: _, [] => false
  | n :: ns, c :: cs => N.eqb n c && startswith ns cs
  end.

(** [needle in t] *)
Fixpoint contains (needle t : text) : bool :=
  startswith needle t ||
  match t with
  | [] => false
  | _ :: cs => contains needle cs
  end.

(** *** [bytes.decode(errors='ignore')]

    The default codec is UTF-8.  With the [ignore] handler every
    malformed range is dropped and decoding resumes behind it: one byte
    for an invalid start byte, the bytes read so far for an invalid
    continuation, and everything that is left for a sequence cut off by
    the end of the data. *)

Definition is_continuation (b : N) : bool := (128 <=? b)%N && (b <? 192)%N.

Definition bad_second_3 (b0 b1 : N) : bool :=
  negb (is_continuation b1)
  || (if (b1 <? 160)%N then (b0 =? 224)%N else (b0 =? 237)%N).

Definition bad_second_4 (b0 b1 : N) : bool :=
  negb (is_continuation b1)
  || (if (b1 <? 144)%N then (b0 =? 240)%N else (b0 =? 244)%N).

Definition low6 (b : N) : N := N.land b 63.

Fixpoint utf8_ignore (s : list N) : text :=
  match s with
  | [] => []
  | b0 :: r1 =>
      if (b0 <? 128)%N then b0 :: utf8_ignore r1
      else if (b0 <? 194)%N then utf8_ignore r1
      else if (b0 <? 224)%N then
        match r1 with
        | [] => []
        | b1 :: r2 =>
            if is_continuation b1
            then (N.shiftl (N.land b0 31) 6 + low6 b1)%N :: utf8_ignore r2
            else utf8_ignore r1
        end
      else if (b0 <? 240)%N then
        match r1 with
        | [] => []
        | b1 :: r2 =>
            if bad_second_3 b0 b1 then utf8_ignore r1
            else match r2 with
                 | [] => []
                 | b2 :: r3 =>
                     if is_continuation b2
                     then (N.shiftl (N.land b0 15) 12
                           + N.shiftl (low6 b1) 6 + low6 b2)%N
                          :: utf8_ignore r3
                     else utf8_ignore r2
                 end
        end
      else if (b0 <? 245)%N then
        match r1 with
        | [] => []
        | b1 :: r2 =>
            if bad_second_4 b0 b1 then utf8_ignore r1
            else match r2 with
                 | [] => []
                 | b2 :: r3 =>
                     if is_continuation b2
                     then match r3 with
                          | [] => []
                          | b3 :: r4 =>
                              if is_continuation b3
                              then (N.shiftl (N.land b0 7) 18
                                    + N.shiftl (low6 b1) 12
                                    + N.shiftl (low6 b2) 6 + low6 b3)%N
                                   :: utf8_ignore r4
                              else utf8_ignore r3
                          end
                     else utf8_ignore r2
                 end
        end
      else utf8_ignore r1
  end.

Definition decode_ignore (data : list byte) : text :=
  utf8_ignore (map Byte.to_N data).

End Py.
Import Py.

(** [html.escape(s)] with its default [quote=True] *)
Definition html_escape (s : string) : string :=
  replace apostrophe "&#x27;"
    (replace dquote "&quot;"
      (replace ">" "&gt;" (replace "<" "&lt;" (replace "&" "&amp;" s)))).

(** [os.path.basename(p)]: what follows the last slash *)
Fixpoint basename (p : string) : string :=
  match p with
  | EmptyString => EmptyString
  | String c rest =>
      if has_char "/" rest then basename rest
      else if Ascii.eqb c "/" then rest
      else String c rest
  end.

(** [sorted(xs)] for a comparison that cannot raise: Python's sort is
    stable and only asks [<]. *)
Fixpoint insert_sorted {A : Type} (lt : A -> A -> bool) (x : A) (l : list A)
    : list A :=
  match l with
  | [] => [x]
  | y :: rest => if lt y x then y :: insert_sorted lt x rest else x :: l
  end.

Definition sorted {A : Type} (lt : A -> A -> bool) (xs : list A) : list A :=
  fold_right (insert_sorted lt) [] xs.

(** [enumerate(xs)] *)
Definition enumerate {A : Type} (xs : list A) : list (nat * A) :=
  combine (seq 0 (List.length xs)) xs.

(** A list comprehension whose body can raise *)
Fixpoint mapM {A B : Type} (f : A -> result B) (xs : list A) : result (list B) :=
  match xs with
  | [] => Ok []
  | x :: rest => y <- f x ;; ys <- mapM f rest ;; Ok (y :: ys)
  end.

(** What the scripts ask of a Python [float]: the test [x < 0] and the
    format specs [.2f] and [.6f]. *)
Class PyFloat (float : Type) : Type := {
  lt0 : float -> bool;
  format_2f : float -> string;
  format_6f : float -> string
}.

(** The ASCII digits *)
Definition is_digit (c : ascii) : bool :=
  (48 <=? nat_of_ascii c)%nat && (nat_of_ascii c <=? 57)%nat.

Fixpoint all_digits (s : string) : bool :=
  match s with
  | EmptyString => true
  | String c rest => is_digit c && all_digits rest
  end.

(** The shape that [.6f] gives a finite float: an optional minus sign, at
    least one digit, a point and the given number of decimals. *)
Fixpoint fixed_unsigned (decimals : nat) (seen_digit : bool) (s : string) : bool :=
  match s with
  | EmptyString => false
  | String c rest =>
      if Ascii.eqb c "." then
        seen_digit && all_digits rest && Nat.eqb (String.length rest) decimals
      else is_digit c && fixed_unsigned decimals true rest
  end.

Definition is_fixed (decimals : nat) (s : string) : bool :=
  match s with
  | String "-" rest => fixed_unsigned decimals false rest
  | _ => fixed_unsigned decimals false s
  end.

(** The floats of a structure are finite: [.6f] gives them that shape
    (it gives [nan] and [inf] for the others). *)
Class PyFloatFinite (float : Type) `{PyFloat float} : Prop := {
  format_6f_fixed : forall x : float, is_fixed 6 (format_6f x) = true
}.

(** ** The structures the libraries hand over *)

Section Structures.
Context {float : Type}.

Definition vec3 : Type := (float * float * float)%type.

(** An ASE atom as the scripts read it: [atom.symbol], [atom.position] *)
Record atom : Type := { symbol : string; position : vec3 }.

(** An ASE [Atoms] object, iterated atom by atom *)
Definition Atoms : Type := list atom.

(** One displacement table: a row per atom *)
Definition mode : Type := list vec3.

(** The attributes of cclib's parsed data that [parse_gaussian_output]
    looks at; an attribute the parser did not set is [None]. *)
Record ccData : Type := {
  atomcoords : option (list (list vec3));
  atomnos : option (list Z);
  vibfreqs : option (list float);
  vibdisps : option (list mode)
}.

(** What a file can be when it is opened for reading *)
Inductive file_state : Type :=
| Missing
| Forbidden
| IsDirectory
| ReadFails (size : Z)
| Regular (content : list byte).

(** The world outside the scripts: [glob.glob], the file system, cclib's
    [ccopen(path).parse()], the frames ASE's [read] finds in a log or in a
    coordinate file, ASE's table of element symbols, its
    [get_chemical_formula] and the text its [write(..., format="xyz")]
    produces for a structure and a comment. *)
Record environment : Type := {
  glob : string -> list string;
  files : string -> file_state;
  cclib_parse : string -> result ccData;
  ase_frames : string -> result (list Atoms);
  chemical_symbols : Z -> string;
  get_chemical_formula : Atoms -> string;
  write_xyz : Atoms -> string -> string
}.

(** [getattr]: a missing attribute raises [AttributeError] *)
Definition getattr {A : Type} (field : option A) : result A :=
  match field with
  | Some a => Ok a
  | None => Raise AttributeError
  end.

(** [xs[-1]] *)
Definition last_item {A : Type} (xs : list A) : result A :=
  match xs with
  | [] => Raise IndexError
  | x :: rest => Ok (last rest x)
  end.

(** [Atoms(numbers=..., positions=...)]: ASE rejects a position array
    whose length differs from the number of atoms. *)
Definition Atoms_new (E : environment) (numbers : list Z)
    (positions : list vec3) : result Atoms :=
  if Nat.eqb (List.length numbers) (List.length positions)
  then Ok (map (fun np => {| symbol := chemical_symbols E (fst np);
                             position := snd np |})
               (combine numbers positions))
  else Raise ValueError.

(** [read(path, format=..., index=-1)]: the last frame *)
Definition read_last (E : environment) (path : string) : result Atoms :=
  frames <- ase_frames E path ;; last_item frames.

End Structures.
Arguments atom : clear implicits.
Arguments Atoms : clear implicits.
Arguments vec3 : clear implicits.
Arguments mode : clear implicits.
Arguments ccData : clear implicits.
Arguments environment : clear implicits.

(** ** ts_viewer.py *)
Module ts_viewer.
Section Defs.
Context {float : Type} `{PyFloat float}.
#[local] Abbreviation Atoms := (Atoms float).
#[local] Abbreviation mode := (mode float).
#[local] Abbreviation environment := (environment float).

Definition atom_line (a : atom float) : string :=
  let '(x, y, z) := position a in
  symbol a ++ " " ++ format_6f x ++ " " ++ format_6f y ++ " " ++ format_6f z.

Definition atoms_to_xyz (atoms : Atoms) (comment : string) : string :=
  let lines := ([str (len atoms)] ++ [comment])%list in
  let lines := (lines ++ map atom_line atoms)%list in
  join (char newline) lines.

(** The inner loop of [create_jsmol_vibration_script]: [mode[j]] raises
    [IndexError] when the table has no row [j]. *)
Definition vibration_rows (coords : list string) (m : mode) : result (list string) :=
  mapM (fun jc =>
          match nth_error m (fst jc) with
          | Some (dx, dy, dz) =>
              Ok (snd jc ++ " 0 " ++ format_6f dx ++ " " ++ format_6f dy
                         ++ " " ++ format_6f dz)
          | None => Raise IndexError
          end)
       (enumerate coords).

Definition vibration_frame (natoms : Z) (coords : list string)
    (fm : float * mode) : result (list string) :=
  rows <- vibration_rows coords (snd fm) ;;
  let label := "freq = " ++ format_2f (fst fm) ++ " cm-1" in
  Ok ([str natoms] ++ [label] ++ rows)%list.

Definition create_jsmol_vibration_script (atoms : Atoms)
    (frequencies : list float) (normal_modes : list mode)
    : result (option string) :=
  match frequencies, normal_modes with
  | [], _ | _, [] => Ok None
  | _, _ =>
      let coords := map atom_line atoms in
      let natoms := len atoms in
      frames <- mapM (vibration_frame natoms coords)
                     (combine frequencies normal_modes) ;;
      let script_lines :=
        (["load data 'model VIBRATIONS'"] ++ List.concat frames
         ++ ["end 'model VIBRATIONS'"])%list in
      Ok (Some (replace newline (char pipe) (join (char newline) script_lines)))
  end.

Definition xyz_to_jsmol_data_script (xyz_text : string) : string :=
  let xyz_oneline := replace newline (char pipe) xyz_text in
  "data 'model X'|" ++ xyz_oneline ++ "|end 'model X';".

(** The loop over [enumerate(data.vibfreqs)]: a negative frequency is
    appended, and its displacement table too when [data.vibdisps] has
    one at that index. *)
Definition imaginary_step (vibdisps : list mode)
    (acc : list float * list mode) (ifreq : nat * float)
    : list float * list mode :=
  let '(imaginary_frequencies, imaginary_modes) := acc in
  let '(i, freq) := ifreq in
  if lt0 freq then
    ((imaginary_frequencies ++ [freq])%list,
     match nth_error vibdisps i with
     | Some d => (imaginary_modes ++ [d])%list
     | None => imaginary_modes
     end)
  else acc.

Definition imaginary (vibfreqs : list float) (vibdisps : list mode)
    : list float * list mode :=
  fold_left (imaginary_step vibdisps) (enumerate vibfreqs) ([], []).

(** What is printed: one constructor per [print] call of the script *)
Inductive console_line : Type :=
| Rule
| Processing (log_file : string)
| ErrorParsing (log_file : string) (e : exn)
| SkipErrorTerminated (log_file : string)
| SkipNotTerminated (log_file : string)
| FailedToParse (log_file : string)
| ValidTransitionState (freq : float)
| WarnNoImaginary
| WarnSeveralImaginary (n_imaginary : Z) (frequencies : list float)
| SummaryTitle
| Summary (n_valid_ts n_minimum n_higher_order n_errors n_skipped total : Z)
| OutputPath (output_file : string).

(** The [try] block of [parse_gaussian_output] *)
Definition parse_detailed (E : environment) (log_file : string)
    : result (Atoms * list float * list mode) :=
  data <- cclib_parse E log_file ;;
  '(atoms, data) <-
     match atomcoords data with
     | Some ((_ :: _) as coords) =>
         final_coords <- last_item coords ;;
         atomic_numbers <- getattr (atomnos data) ;;
         atoms <- Atoms_new E atomic_numbers final_coords ;;
         Ok (atoms, Some data)
     | _ =>
         atoms <- read_last E log_file ;;
         Ok (atoms, None)
     end ;;
  let '(imaginary_frequencies, imaginary_modes) :=
    match data with
    | Some d =>
        match vibfreqs d, vibdisps d with
        | Some vf, Some vd => imaginary vf vd
        | _, _ => ([], [])
        end
    | None => ([], [])
    end in
  Ok (atoms, imaginary_frequencies, imaginary_modes).

(** [parse_gaussian_output]: the printed lines and the returned triple.
    An exception that is no [Exception] leaves the function. *)
Definition parse_gaussian_output (E : environment) (log_file : string)
    : list console_line * result (option Atoms * list float * list mode) :=
  match parse_detailed E log_file with
  | Ok (atoms, fs, ms) => ([], Ok (Some atoms, fs, ms))
  | Raise e =>
      if is_Exception e then
        ([ErrorParsing log_file e],
         try_except_all
           (atoms <- read_last E log_file ;; Ok (Some atoms, [], []))
           (Ok (None, [], [])))
      else ([], Raise e)
  end.

(** *** The termination test *)

Definition open_rb (E : environment) (path : string) : result file_state :=
  match files E path with
  | Missing => Raise FileNotFoundError
  | Forbidden => Raise PermissionError
  | IsDirectory => Raise IsADirectoryError
  | f => Ok f
  end.

(** [f.seek(0, os.SEEK_END); f.tell()] *)
Definition size_of (f : file_state) : Z :=
  match f with
  | Regular content => len content
  | ReadFails size => size
  | _ => 0
  end.

(** [f.seek(offset, os.SEEK_SET); f.read()] *)
Definition read_from (f : file_state) (offset : Z) : result (list byte) :=
  match f with
  | Regular content => Ok (skipn (Z.to_nat offset) content)
  | _ => Raise OSError
  end.

Definition _tail_contains (E : environment) (path : string)
    (needle : string) (n_lines : Z) : result bool :=
  try_except_Exception
    (f <- open_rb E path ;;
     let size := size_of f in
     let approx := Z.min size (n_lines * 200) in
     data <- read_from f (Z.max 0 (size - approx)) ;;
     let tail := decode_ignore data in
     Ok (contains (codepoints needle) tail))
    (fun _ => Ok false).

Definition gaussian_normally_terminated (E : environment) (path : string)
    : result bool :=
  has_normal <- _tail_contains E path "Normal termination of Gaussian" 600 ;;
  has_error <- _tail_contains E path "Error termination" 600 ;;
  Ok (has_normal && negb has_error).

(** *** Cards *)

(** The control block of a card: one of the three templates *)
Inductive controls : Type :=
| OneMode (freq : float)
| ModeSelect (options : list (Z * float))
| NoModes.

(** A card is the fixed HTML template with these values interpolated. *)
Record card : Type := {
  idx : Z;
  safe_title : string;
  natoms : Z;
  formula : string;
  n_imaginary : Z;
  warning_text : string;
  vibration_controls : controls;
  esc_base : string;
  esc_vibr : string
}.

(** The names a card defines in the page: its applet and host element,
    the select element and the four toggle functions. *)
Definition control_names (i : Z) : list string :=
  ["app" ++ str i; "freqSelect" ++ str i; "showStructure" ++ str i;
   "showVibration" ++ str i; "showVibrations" ++ str i;
   "changeVibration" ++ str i].

Definition warning_div (message : string) : string :=
  "<div class=" ++ char dquote ++ "warning" ++ char dquote ++ ">⚠ "
  ++ message ++ "</div>".

Definition make_warning_text (n_imaginary : Z) : string :=
  if (n_imaginary =? 0)%Z then
    warning_div "No imaginary frequencies (minimum structure)"
  else if (n_imaginary >? 1)%Z then
    warning_div (str n_imaginary
                 ++ " imaginary frequencies (higher-order saddle point)")
  else EmptyString.

(** The escaping for the script attribute: every double quote becomes
    the entity [&quot;], then every apostrophe gets a backslash in front. *)
Definition js_escape (s : string) : string :=
  replace apostrophe "\'" (replace dquote "&quot;" s).

Definition make_controls (frequencies : list float) : controls :=
  let n_imaginary := len frequencies in
  if (n_imaginary =? 1)%Z then
    match frequencies with
    | freq :: _ => OneMode freq
    | [] => NoModes
    end
  else if (n_imaginary >? 1)%Z then
    ModeSelect (map (fun jf => (Z.of_nat (fst jf) + 1, snd jf)%Z)
                    (enumerate frequencies))
  else NoModes.

Definition make_vibration_card (E : environment) (i : Z) (title : string)
    (atoms : Atoms) (frequencies : list float) (normal_modes : list mode)
    : result card :=
  let n_imaginary := len frequencies in
  let xyz := atoms_to_xyz atoms (basename title) in
  let base_script := xyz_to_jsmol_data_script xyz in
  vibr_script <-
    (if (n_imaginary >? 0)%Z then
       r <- create_jsmol_vibration_script atoms frequencies normal_modes ;;
       Ok (match r with Some v => v | None => EmptyString end)
     else Ok EmptyString) ;;
  Ok {| idx := i;
        safe_title := html_escape title;
        natoms := len atoms;
        formula := get_chemical_formula E atoms;
        n_imaginary := n_imaginary;
        warning_text := make_warning_text n_imaginary;
        vibration_controls := make_controls frequencies;
        esc_base := js_escape base_script;
        esc_vibr := match vibr_script with
                    | EmptyString => EmptyString
                    | _ => js_escape vibr_script
                    end |}.

(** *** The batch loop *)

Record counters : Type := {
  n_valid_ts : Z;
  n_minimum : Z;
  n_higher_order : Z;
  n_errors : Z;
  n_skipped : Z
}.

Record loop_state : Type := {
  cards_html : list card;
  counts : counters;
  console : list console_line
}.

Definition print (line : console_line) (st : loop_state) : loop_state :=
  {| cards_html := cards_html st; counts := counts st;
     console := (console st ++ [line])%list |}.

Definition with_counts (c : counters) (st : loop_state) : loop_state :=
  {| cards_html := cards_html st; counts := c; console := console st |}.

Definition append_card (c : card) (st : loop_state) : loop_state :=
  {| cards_html := (cards_html st ++ [c])%list; counts := counts st;
     console := console st |}.

Definition skip_one (c : counters) : counters :=
  {| n_valid_ts := n_valid_ts c; n_minimum := n_minimum c;
     n_higher_order := n_higher_order c; n_errors := n_errors c;
     n_skipped := n_skipped c + 1 |}.

Definition error_one (c : counters) : counters :=
  {| n_valid_ts := n_valid_ts c; n_minimum := n_minimum c;
     n_higher_order := n_higher_order c; n_errors := n_errors c + 1;
     n_skipped := n_skipped c |}.

(** Lines 290-299 of [main]: the three-way branch on the number of
    imaginary frequencies. *)
Definition tally (frequencies : list float) (st : loop_state) : loop_state :=
  let n_imaginary := len frequencies in
  let c := counts st in
  if (n_imaginary =? 1)%Z then
    match frequencies with
    | freq :: _ =>
        print (ValidTransitionState freq)
          (with_counts
             {| n_valid_ts := n_valid_ts c + 1; n_minimum := n_minimum c;
                n_higher_order := n_higher_order c; n_errors := n_errors c;
                n_skipped := n_skipped c |} st)
    | [] => st
    end
  else if (n_imaginary =? 0)%Z then
    print WarnNoImaginary
      (with_counts
         {| n_valid_ts := n_valid_ts c; n_minimum := n_minimum c + 1;
            n_higher_order := n_higher_order c; n_errors := n_errors c;
            n_skipped := n_skipped c |} st)
  else
    print (WarnSeveralImaginary n_imaginary frequencies)
      (with_counts
         {| n_valid_ts := n_valid_ts c; n_minimum := n_minimum c;
            n_higher_order := n_higher_order c + 1; n_errors := n_errors c;
            n_skipped := n_skipped c |} st).

(** One iteration of the [for] loop.  The state is returned also when the
    iteration raises: what was printed stays printed. *)
Definition process_log (E : environment) (i : nat) (log_file : string)
    (st : loop_state) : loop_state * result unit :=
  let st := print (Processing log_file) st in
  match gaussian_normally_terminated E log_file with
  | Raise e => (st, Raise e)
  | Ok false =>
      match _tail_contains E log_file "Error termination" 600 with
      | Raise e => (st, Raise e)
      | Ok has_error =>
          let st := print (if has_error then SkipErrorTerminated log_file
                           else SkipNotTerminated log_file) st in
          (with_counts (skip_one (counts st)) st, Ok tt)
      end
  | Ok true =>
      let '(lines, parsed) := parse_gaussian_output E log_file in
      let st := fold_left (fun s l => print l s) lines st in
      match parsed with
      | Raise e => (st, Raise e)
      | Ok (None, _, _) =>
          let st := print (FailedToParse log_file) st in
          (with_counts (error_one (counts st)) st, Ok tt)
      | Ok (Some atoms, frequencies, normal_modes) =>
          let st := tally frequencies st in
          match make_vibration_card E (Z.of_nat i - n_skipped (counts st))
                  log_file atoms frequencies normal_modes with
          | Raise e => (st, Raise e)
          | Ok c => (append_card c st, Ok tt)
          end
      end
  end.

Fixpoint process_logs (E : environment) (items : list (nat * string))
    (st : loop_state) : loop_state * result unit :=
  match items with
  | [] => (st, Ok tt)
  | (i, log_file) :: rest =>
      match process_log E i log_file st with
      | (st', Ok _) => process_logs E rest st'
      | (st', Raise e) => (st', Raise e)
      end
  end.

(** What a run leaves behind: the console, the file it wrote (name and
    cards, in document order) if any, and how it ended.  The document is
    the page template around the cards joined by newlines; writing it is
    taken to succeed. *)
Record run : Type := {
  printed : list console_line;
  written : option (string * list card);
  ended : result unit
}.

Definition zero_counts : counters :=
  {| n_valid_ts := 0; n_minimum := 0; n_higher_order := 0; n_errors := 0;
     n_skipped := 0 |}.

Definition main (E : environment) : run :=
  let logs := sorted String.ltb (glob E "*.log") in
  match logs with
  | [] =>
      {| printed := []; written := None;
         ended := Raise (SystemExit "No .log files found in current folder.") |}
  | _ :: _ =>
      let st := {| cards_html := []; counts := zero_counts; console := [Rule] |} in
      match process_logs E (enumerate logs) st with
      | (st, Raise e) =>
          {| printed := console st; written := None; ended := Raise e |}
      | (st, Ok _) =>
          match cards_html st with
          | [] =>
              {| printed := console st; written := None;
                 ended := Raise (SystemExit "No valid structures found in log files.") |}
          | _ :: _ =>
              let output_file := "gaussian_ts_analysis.html" in
              let c := counts st in
              {| printed :=
                   (console st
                    ++ [Rule; SummaryTitle; Rule;
                        Summary (n_valid_ts c) (n_minimum c) (n_higher_order c)
                                (n_errors c) (n_skipped c) (len (cards_html st));
                        OutputPath output_file])%list;
                 written := Some (output_file, cards_html st);
                 ended := Ok tt |}
          end
      end
  end.

End Defs.
End ts_viewer.

(** ** structure_viewer.py *)
Module structure_viewer.
Section Defs.
Context {float : Type} `{PyFloat float}.
#[local] Abbreviation Atoms := (Atoms float).
#[local] Abbreviation environment := (environment float).

(** The encoder of this script is ASE's own XYZ writer. *)
Definition atoms_to_xyz (E : environment) (atoms : Atoms) (comment : string)
    : string :=
  write_xyz E atoms comment.

Definition xyz_to_jsmol_data_script (xyz_text : string) : string :=
  let xyz_oneline := replace newline (char pipe) xyz_text in
  "data 'model X'|" ++ xyz_oneline ++ "|end 'model X';show data;".

Record card : Type := {
  idx : Z;
  safe_title : string;
  natoms : Z;
  formula : string;
  escaped_jscript : string
}.

Definition make_card (i : Z) (title : string) (n : Z) (f : string)
    (jsmol_script : string) : card :=
  {| idx := i;
     safe_title := html_escape title;
     natoms := n;
     formula := f;
     escaped_jscript :=
       replace apostrophe "\'" (replace dquote "&quot;" jsmol_script) |}.

Inductive console_line : Type :=
| WarnSkip (f : string) (e : exn)
| Done (out : string) (n_ok : Z).

Record loop_state : Type := {
  cards_html : list card;
  n_ok : Z;
  console : list console_line
}.

Definition process_log (E : environment) (i : nat) (f : string)
    (st : loop_state) : loop_state * result unit :=
  match read_last E f with
  | Raise e =>
      if is_Exception e then
        ({| cards_html := cards_html st; n_ok := n_ok st;
            console := (console st ++ [WarnSkip f e])%list |}, Ok tt)
      else (st, Raise e)
  | Ok atoms =>
      let xyz := atoms_to_xyz E atoms (basename f) in
      let jsmol_script := xyz_to_jsmol_data_script xyz in
      let c := make_card (Z.of_nat i) f (len atoms)
                         (get_chemical_formula E atoms) jsmol_script in
      ({| cards_html := (cards_html st ++ [c])%list; n_ok := n_ok st + 1;
          console := console st |}, Ok tt)
  end.

Fixpoint process_logs (E : environment) (items : list (nat * string))
    (st : loop_state) : loop_state * result unit :=
  match items with
  | [] => (st, Ok tt)
  | (i, f) :: rest =>
      match process_log E i f st with
      | (st', Ok _) => process_logs E rest st'
      | (st', Raise e) => (st', Raise e)
      end
  end.

Record run : Type := {
  printed : list console_line;
  written : option (string * list card);
  ended : result unit
}.

Definition main (E : environment) : run :=
  let logs := sorted String.ltb (glob E "*.log") in
  match logs with
  | [] =>
      {| printed := []; written := None;
         ended := Raise (SystemExit "No .log files found in current folder.") |}
  | _ :: _ =>
      let st := {| cards_html := []; n_ok := 0; console := [] |} in
      match process_logs E (enumerate logs) st with
      | (st, Raise e) =>
          {| printed := console st; written := None; ended := Raise e |}
      | (st, Ok _) =>
          match cards_html st with
          | [] =>
              {| printed := console st; written := None;
                 ended := Raise (SystemExit "Parsed 0 final structures from .log files.") |}
          | _ :: _ =>
              let out := "gallery_jsmol.html" in
              {| printed := (console st ++ [Done out (n_ok st)])%list;
                 written := Some (out, cards_html st);
                 ended := Ok tt |}
          end
      end
  end.

End Defs.
End structure_viewer.

(** ** json.dumps for a string

    With the default [ensure_ascii=True] the result is a double-quoted
    literal in which the backslash and the double quote get a backslash,
    the control characters their short escape and everything else outside
    [' '..'~'] the form [\u00XX]; the apostrophe is copied. *)
Module Json.

Definition hex_digit (n : nat) : ascii :=
  match n with
  | 0 => "0" | 1 => "1" | 2 => "2" | 3 => "3" | 4 => "4" | 5 => "5"
  | 6 => "6" | 7 => "7" | 8 => "8" | 9 => "9" | 10 => "a" | 11 => "b"
  | 12 => "c" | 13 => "d" | 14 => "e" | _ => "f"
  end%char.

Definition escape_char (c : ascii) : string :=
  let n := nat_of_ascii c in
  if Ascii.eqb c backslash then String backslash (char backslash)
  else if Ascii.eqb c dquote then String backslash (char dquote)
  else if Nat.eqb n 8 then String backslash "b"
  else if Nat.eqb n 9 then String backslash "t"
  else if Nat.eqb n 10 then String backslash "n"
  else if Nat.eqb n 12 then String backslash "f"
  else if Nat.eqb n 13 then String backslash "r"
  else if (32 <=? n)%nat && (n <=? 126)%nat then char c
  else String backslash
         ("u00" ++ String (hex_digit (n / 16)) (char (hex_digit (n mod 16)))).

Fixpoint escape (s : string) : string :=
  match s with
  | EmptyString => EmptyString
  | String c rest => escape_char c ++ escape rest
  end.

Definition dumps (s : string) : string :=
  char dquote ++ escape s ++ char dquote.

End Json.

(** ** xyz_viewer.py

    The optional module [amk_result_viewer] is taken to be absent, so the
    script runs on its own fallback encoder and script builder. *)
Module xyz_viewer.

(** *** Natural ordering of file names *)

(** An element of a sort key: [int(chunk)] or [chunk.lower()] *)
Inductive chunk : Type :=
| Number (n : Z)
| Text (s : string).

Definition starts_with_digit (s : string) : bool :=
  match s with
  | String c _ => is_digit c
  | EmptyString => false
  end.

(** [re.split(r"(\d+)", s)]: the pieces between the maximal digit runs,
    with the runs themselves in between; the first and the last piece are
    text, possibly empty. *)
Fixpoint re_split_digits (s : string) : list string :=
  match s with
  | EmptyString => [EmptyString]
  | String c rest =>
      match re_split_digits rest with
      | [] => [char c]
      | t :: more =>
          if is_digit c then
            if starts_with_digit rest then
              match more with
              | d :: more' => EmptyString :: String c d :: more'
              | [] => [EmptyString; char c; t]
              end
            else EmptyString :: char c :: t :: more
          else String c t :: more
      end
  end.

(** [chunk.isdigit()].  A [str] is taken as a string of code points
    below 256.  Among these, the characters that count as digits for
    [isdigit] are 0 to 9 and the superscripts two, three and one (code
    points 178, 179 and 185); the regular expression [\d] matches 0 to 9
    only. *)
Definition is_superscript_digit (c : ascii) : bool :=
  let n := nat_of_ascii c in
  (n =? 178)%nat || (n =? 179)%nat || (n =? 185)%nat.

Definition isdigit_char (c : ascii) : bool :=
  is_digit c || is_superscript_digit c.

Fixpoint all_isdigit (s : string) : bool :=
  match s with
  | EmptyString => true
  | String c rest => isdigit_char c && all_isdigit rest
  end.

Definition isdigit (s : string) : bool :=
  match s with
  | EmptyString => false
  | _ => all_isdigit s
  end.

(** [int(chunk)] for a chunk that passes [isdigit()]: its value when
    every character is a decimal digit, [ValueError] otherwise, a
    superscript digit being no decimal digit. *)
Definition digit_value (c : ascii) : Z := Z.of_nat (nat_of_ascii c) - 48.

Fixpoint int_digits (acc : Z) (s : string) : Z :=
  match s with
  | EmptyString => acc
  | String c rest => int_digits (10 * acc + digit_value c) rest
  end.

Definition int (s : string) : result Z :=
  match s with
  | EmptyString => Raise ValueError
  | _ => if all_digits s then Ok (int_digits 0 s) else Raise ValueError
  end.

(** [chunk.lower()]: among the code points below 256 the capitals are A
    to Z and 192 to 222 without the multiplication sign 215; each has its
    small letter 32 places further on. *)
Definition lower_char (c : ascii) : ascii :=
  let n := nat_of_ascii c in
  if ((65 <=? n)%nat && (n <=? 90)%nat)
     || ((192 <=? n)%nat && (n <=? 222)%nat && negb (n =? 215)%nat)
  then ascii_of_nat (n + 32) else c.

Fixpoint lower (s : string) : string :=
  match s with
  | EmptyString => EmptyString
  | String c rest => String (lower_char c) (lower rest)
  end.

(** The list comprehension of [_natural_key]: the chunks are taken from
    left to right, and the first [int] that fails ends it. *)
Definition _natural_key (path : string) : result (list chunk) :=
  let basename := basename path in
  mapM (fun chunk => if isdigit chunk
                     then n <- int chunk ;; Ok (Number n)
                     else Ok (Text (lower chunk)))
       (re_split_digits basename).

(** [x == y] on key elements: an [int] never equals a [str] *)
Definition chunk_eqb (x y : chunk) : bool :=
  match x, y with
  | Number a, Number b => (a =? b)%Z
  | Text a, Text b => String.eqb a b
  | _, _ => false
  end.

(** [x < y] on key elements: [int] against [str] raises [TypeError] *)
Definition chunk_lt (x y : chunk) : result bool :=
  match x, y with
  | Number a, Number b => Ok (a <? b)%Z
  | Text a, Text b => Ok (String.ltb a b)
  | _, _ => Raise TypeError
  end.

(** [a < b] on lists: the first pair of unequal elements decides,
    otherwise the shorter list is the smaller one. *)
Fixpoint key_lt (a b : list chunk) : result bool :=
  match a, b with
  | [], [] => Ok false
  | [], _ :: _ => Ok true
  | _ :: _, [] => Ok false
  | x :: a', y :: b' => if chunk_eqb x y then key_lt a' b' else chunk_lt x y
  end.

(** [sorted(xs, key=...)]: the keys are computed first, the comparison of
    two keys can raise. *)
Fixpoint insert_by_key {A : Type} (x : list chunk * A)
    (l : list (list chunk * A)) : result (list (list chunk * A)) :=
  match l with
  | [] => Ok [x]
  | y :: rest =>
      b <- key_lt (fst y) (fst x) ;;
      if b then (r <- insert_by_key x rest ;; Ok (y :: r)) else Ok (x :: l)
  end.

Fixpoint sort_by_key {A : Type} (l : list (list chunk * A))
    : result (list (list chunk * A)) :=
  match l with
  | [] => Ok []
  | x :: rest => r <- sort_by_key rest ;; insert_by_key x r
  end.

Definition sorted_natural (paths : list string) : result (list string) :=
  keyed <- mapM (fun p => k <- _natural_key p ;; Ok (k, p)) paths ;;
  r <- sort_by_key keyed ;;
  Ok (map snd r).

(** *** The page template

    [AMK_HTML_TEMPLATE] is what the optional module provides, if it is
    there; [DEFAULT_HTML_TEMPLATE] is the template of the script. *)
Definition _derive_html_template (AMK_HTML_TEMPLATE : option string)
    (DEFAULT_HTML_TEMPLATE : string) : string :=
  let base := match AMK_HTML_TEMPLATE with
              | Some (String _ _ as template) => template
              | _ => DEFAULT_HTML_TEMPLATE
              end in
  if str_in "Gaussian16 Transition State Visualization" base
  then replace_all "Gaussian16 Transition State Visualization"
                   "XYZ Collection Visualization" base
  else base.

Section Defs.
Context {float : Type} `{PyFloat float}.
#[local] Abbreviation Atoms := (Atoms float).
#[local] Abbreviation environment := (environment float).

Definition _fallback_atoms_to_xyz (atoms : Atoms) (comment : string) : string :=
  let lines := [str (len atoms); comment] in
  let lines := (lines ++ map ts_viewer.atom_line atoms)%list in
  join (char newline) lines.

Definition _fallback_xyz_to_jsmol_data_script (xyz_text : string) : string :=
  let xyz_oneline := replace newline (char pipe) xyz_text in
  "data 'model X'|" ++ xyz_oneline ++ "|end 'model X';".

Definition atoms_to_xyz := _fallback_atoms_to_xyz.
Definition xyz_to_jsmol_data_script := _fallback_xyz_to_jsmol_data_script.

Inductive console_line : Type :=
| Rule
| Discovered (n : Z)
| Progress (position total : Z) (rel : string)
| ErrorParsing (path : string) (e : exn)
| SummaryTitle
| Summary (discovered rendered skipped total_atoms : Z)
| OutputPath (output_file : string)
| OpenInBrowser.

(** [parse_xyz_file]: what it prints and what it returns.  ASE's [read]
    returns the last frame; any [Exception] is reported and gives [None]. *)
Definition parse_xyz_file (E : environment) (path : string)
    : list console_line * result (option Atoms) :=
  match read_last E path with
  | Ok atoms => ([], Ok (Some atoms))
  | Raise exc =>
      if is_Exception exc then ([ErrorParsing path exc], Ok None)
      else ([], Raise exc)
  end.

(** [os.path.relpath(p)] for a path that [glob] returned for a relative
    pattern: such a path is relative and normalised already. *)
Definition relpath (p : string) : string := p.

Record card : Type := {
  idx : Z;
  safe_title : string;
  rel_path : string;
  natoms : Z;
  formula : string;
  script_literal : string
}.

Definition control_names (i : Z) : list string :=
  ["app" ++ str i; "showBallStick" ++ str i; "showStick" ++ str i;
   "showSpacefill" ++ str i; "resetView" ++ str i].

Definition make_structure_card (E : environment) (i : Z)
    (file_path : string) (atoms : Atoms) : card :=
  let rel := html_escape (relpath file_path) in
  let xyz_text := atoms_to_xyz atoms rel in
  let base_script := xyz_to_jsmol_data_script xyz_text in
  {| idx := i;
     safe_title := html_escape (basename file_path);
     rel_path := rel;
     natoms := len atoms;
     formula := get_chemical_formula E atoms;
     script_literal := Json.dumps base_script |}.

Record loop_state : Type := {
  cards : list card;
  total_atoms : Z;
  skipped : Z;
  console : list console_line
}.

Definition process_file (E : environment) (total : Z) (i : nat)
    (file_path : string) (st : loop_state) : loop_state * result unit :=
  let rel := relpath file_path in
  let '(lines, parsed) := parse_xyz_file E file_path in
  let out := (console st ++ [Progress (Z.of_nat i + 1) total rel] ++ lines)%list in
  match parsed with
  | Raise e =>
      ({| cards := cards st; total_atoms := total_atoms st;
          skipped := skipped st; console := out |}, Raise e)
  | Ok None =>
      ({| cards := cards st; total_atoms := total_atoms st;
          skipped := skipped st + 1; console := out |}, Ok tt)
  | Ok (Some atoms) =>
      let c := make_structure_card E (len (cards st)) file_path atoms in
      ({| cards := (cards st ++ [c])%list;
          total_atoms := total_atoms st + len atoms;
          skipped := skipped st; console := out |}, Ok tt)
  end.

Fixpoint process_files (E : environment) (total : Z)
    (items : list (nat * string)) (st : loop_state)
    : loop_state * result unit :=
  match items with
  | [] => (st, Ok tt)
  | (i, file_path) :: rest =>
      match process_file E total i file_path st with
      | (st', Ok _) => process_files E total rest st'
      | (st', Raise e) => (st', Raise e)
      end
  end.

Record run : Type := {
  printed : list console_line;
  written : option (string * list card);
  ended : result unit
}.

Definition main (E : environment) : run :=
  match sorted_natural (glob E "min_xyz/*.xyz") with
  | Raise e => {| printed := []; written := None; ended := Raise e |}
  | Ok [] =>
      {| printed := []; written := None;
         ended := Raise (SystemExit "No XYZ files found under ./min_xyz/") |}
  | Ok xyz_files =>
      let st := {| cards := []; total_atoms := 0; skipped := 0;
                   console := [Rule; Discovered (len xyz_files); Rule] |} in
      match process_files E (len xyz_files) (enumerate xyz_files) st with
      | (st, Raise e) =>
          {| printed := console st; written := None; ended := Raise e |}
      | (st, Ok _) =>
          match cards st with
          | [] =>
              {| printed := console st; written := None;
                 ended := Raise (SystemExit "Unable to parse any XYZ files.") |}
          | _ :: _ =>
              let output_file := "xyz_visualization.html" in
              {| printed :=
                   (console st
                    ++ [Rule; SummaryTitle; Rule;
                        Summary (len xyz_files) (len (cards st)) (skipped st)
                                (total_atoms st);
                        OutputPath output_file; OpenInBrowser])%list;
                 written := Some (output_file, cards st);
                 ended := Ok tt |}
          end
      end
  end.

End Defs.
End xyz_viewer.

(** ** A concrete float: whole numbers of millionths

    A value [n] stands for the finite float [n / 10^6]; its [.6f] rendering
    is exact and its [.2f] rendering rounds half to even, as Python does on
    the exact value. *)
Module Micro.

Definition digit_char (d : Z) : ascii := ascii_of_nat (48 + Z.to_nat d).

(** The [k] low decimal digits of [r], most significant first *)
Fixpoint frac_digits (k : nat) (r : Z) : string :=
  match k with
  | O => EmptyString
  | S k' => frac_digits k' (r / 10) ++ char (digit_char (r mod 10))
  end.

Definition fixed (decimals : nat) (negative : bool) (units : Z) : string :=
  let scale := (10 ^ Z.of_nat decimals)%Z in
  (if negative then "-" else EmptyString)
  ++ str (units / scale) ++ "." ++ frac_digits decimals (units mod scale).

Definition round_half_even (n d : Z) : Z :=
  let q := (n / d)%Z in
  let r := (n mod d)%Z in
  if (2 * r <? d)%Z then q
  else if (d <? 2 * r)%Z then q + 1
  else if Z.even q then q else q + 1.

#[export] Instance micro_float : PyFloat Z := {|
  lt0 := fun x => (x <? 0)%Z;
  format_2f := fun x => fixed 2 (x <? 0)%Z (round_half_even (Z.abs x) 10000);
  format_6f := fun x => fixed 6 (x <? 0)%Z (Z.abs x)
|}.

End Micro.

(** ** The vocabulary of the specification *)

(** [needle] occurs in [t] as a contiguous run *)
Definition Occurs (needle t : text) : Prop :=
  exists before after : text, t = (before ++ needle ++ after)%list.

(** The last [k] items of a list *)
Definition last_n {A : Type} (k : nat) (l : list A) : list A :=
  rev (firstn k (rev l)).


(** A frequency with its displacement table, the frequency negative *)
Definition negative_pair {float : Type} `{PyFloat float}
    (p : float * mode float) : bool :=
  lt0 (fst p).

(** Whether a file can be opened and read to its end *)
Definition readable (f : file_state) : bool :=
  match f with
  | Regular _ => true
  | _ => false
  end.

(** The tail window of a log: the decoded text of its last 600 * 200
    bytes, or of the whole file when it is shorter; nothing when the file
    cannot be read. *)
Definition tail_window {float : Type} (E : environment float) (path : string)
    : text :=
  match files E path with
  | Regular content =>
      decode_ignore
        (last_n (Z.to_nat (Z.min (len content) (600 * 200))) content)
  | _ => []
  end.

Definition normal_marker : text := codepoints "Normal termination of Gaussian".
Definition error_marker : text := codepoints "Error termination".

(** The character [c] occurs in [s] only right behind a backslash. *)
Fixpoint escaped_from (c : ascii) (after_backslash : bool) (s : string) : bool :=
  match s with
  | EmptyString => true
  | String d rest =>
      (if Ascii.eqb d c then after_backslash else true)
      && escaped_from c (Ascii.eqb d backslash) rest
  end.

Definition all_escaped (c : ascii) (s : string) : bool := escaped_from c false s.

(** A string that can sit in the quoted script attribute the way
    ts_viewer and structure_viewer write it: no newline, no double quote,
    every apostrophe right behind a backslash. *)
Definition attribute_safe (s : string) : Prop :=
  has_char newline s = false
  /\ has_char dquote s = false
  /\ all_escaped apostrophe s = true.

(** Line 1 of an XYZ block read back as a number *)
Definition parse_int (s : string) : option Z :=
  option_map Z.of_int (NilEmpty.int_of_string s).

(** The natural order on sort keys as a three-way comparison: numbers by
    value, text by code points, element by element, a proper prefix first.
    A number against a text is given an order here only to make the
    comparison total; keys of file names never meet that case. *)
Definition chunk_compare (x y : xyz_viewer.chunk) : comparison :=
  match x, y with
  | xyz_viewer.Number a, xyz_viewer.Number b => Z.compare a b
  | xyz_viewer.Text a, xyz_viewer.Text b => String.compare a b
  | xyz_viewer.Number _, xyz_viewer.Text _ => Lt
  | xyz_viewer.Text _, xyz_viewer.Number _ => Gt
  end.

Fixpoint key_compare (a b : list xyz_viewer.chunk) : comparison :=
  match a, b with
  | [], [] => Eq
  | [], _ :: _ => Lt
  | _ :: _, [] => Gt
  | x :: a', y :: b' =>
      match chunk_compare x y with
      | Eq => key_compare a' b'
      | c => c
      end
  end.

(** A run of decimal digits *)
Definition decimal_run (s : string) : bool :=
  match s with
  | EmptyString => false
  | _ => all_digits s
  end.

(** A piece of a name on which [int] fails: it passes [isdigit] and is
    no run of decimal digits. *)
Definition odd_piece (piece : string) : bool :=
  xyz_viewer.isdigit piece && negb (decimal_run piece).

(** The key element of a piece of a name on which [int] does not fail *)
Definition chunk_of (piece : string) : xyz_viewer.chunk :=
  if decimal_run piece then xyz_viewer.Number (xyz_viewer.int_digits 0 piece)
  else xyz_viewer.Text (xyz_viewer.lower piece).

(** The name of the path has a piece on which [int] fails. *)
Definition key_fails (path : string) : bool :=
  existsb odd_piece (xyz_viewer.re_split_digits (basename path)).

(** The sort key of a path that has one *)
Definition key_of (path : string) : list xyz_viewer.chunk :=
  match xyz_viewer._natural_key path with
  | Ok k => k
  | Raise _ => []
  end.

(** [p] does not come after [q] in the natural order of file names. *)
Definition natural_le (p q : string) : Prop :=
  key_compare (key_of p) (key_of q) <> Gt.

(** The shape of the key of a file name: text and number in turns *)
Fixpoint alternates (text_next : bool) (k : list xyz_viewer.chunk) : bool :=
  match k with
  | [] => true
  | xyz_viewer.Text _ :: rest => text_next && alternates false rest
  | xyz_viewer.Number _ :: rest => negb text_next && alternates true rest
  end.

(** No character of [s] is a digit. *)
Fixpoint no_digits (s : string) : bool :=
  match s with
  | EmptyString => true
  | String c rest => negb (is_digit c) && no_digits rest
  end.

(** Digit runs and the text behind each of them, in turns *)
Fixpoint digit_runs (pieces : list string) : bool :=
  match pieces with
  | [] => true
  | d :: t :: rest => decimal_run d && no_digits t && digit_runs rest
  | [_] => false
  end.

(** The order of two decorated paths is that of their keys. *)
Definition keyed_le {A : Type} (p q : list xyz_viewer.chunk * A) : Prop :=
  key_compare (fst p) (fst q) <> Gt.

(** A decorated path whose key has the shape of a file-name key *)
Definition shaped {A : Type} (p : list xyz_viewer.chunk * A) : Prop :=
  alternates true (fst p) = true.

(** Whether ASE reads a structure from the file *)
Definition renders {float : Type} (E : environment float) (path : string) : bool :=
  match read_last E path with
  | Ok _ => true
  | Raise _ => false
  end.

(** The outcomes of the data model *)
Inductive Outcome : Type :=
| VALID_TS
| MINIMUM
| HIGHER_ORDER_SADDLE
| PARSE_ERROR
| SKIPPED_UNTERMINATED.

(** The classification in the words of the specification: 0 gives
    MINIMUM, 1 gives VALID_TS, more than 1 gives HIGHER_ORDER_SADDLE. *)
Definition outcome_of_count (n : Z) : Outcome :=
  if (n =? 0)%Z then MINIMUM
  else if (n =? 1)%Z then VALID_TS
  else HIGHER_ORDER_SADDLE.

(** The counter that the run summary reports for an outcome, one up *)
Definition counted (o : Outcome) (c : ts_viewer.counters) : ts_viewer.counters :=
  match o with
  | VALID_TS =>
      {| ts_viewer.n_valid_ts := ts_viewer.n_valid_ts c + 1;
         ts_viewer.n_minimum := ts_viewer.n_minimum c;
         ts_viewer.n_higher_order := ts_viewer.n_higher_order c;
         ts_viewer.n_errors := ts_viewer.n_errors c;
         ts_viewer.n_skipped := ts_viewer.n_skipped c |}
  | MINIMUM =>
      {| ts_viewer.n_valid_ts := ts_viewer.n_valid_ts c;
         ts_viewer.n_minimum := ts_viewer.n_minimum c + 1;
         ts_viewer.n_higher_order := ts_viewer.n_higher_order c;
         ts_viewer.n_errors := ts_viewer.n_errors c;
         ts_viewer.n_skipped := ts_viewer.n_skipped c |}
  | HIGHER_ORDER_SADDLE =>
      {| ts_viewer.n_valid_ts := ts_viewer.n_valid_ts c;
         ts_viewer.n_minimum := ts_viewer.n_minimum c;
         ts_viewer.n_higher_order := ts_viewer.n_higher_order c + 1;
         ts_viewer.n_errors := ts_viewer.n_errors c;
         ts_viewer.n_skipped := ts_viewer.n_skipped c |}
  | PARSE_ERROR => ts_viewer.error_one c
  | SKIPPED_UNTERMINATED => ts_viewer.skip_one c
  end.

(** The logs a state of the loop accounts for: cards, skips and errors *)
Definition processed {float : Type} (st : @ts_viewer.loop_state float) : Z :=
  len (ts_viewer.cards_html st)
  + ts_viewer.n_skipped (ts_viewer.counts st)
  + ts_viewer.n_errors (ts_viewer.counts st).

(** The state in which [main] enters its loop *)
Definition fresh_state {float : Type} : @ts_viewer.loop_state float :=
  {| ts_viewer.cards_html := [];
     ts_viewer.counts := ts_viewer.zero_counts;
     ts_viewer.console := [ts_viewer.Rule] |}.

(** The logs of a run in the order in which [main] takes them *)
Definition discovered_logs {float : Type} (E : environment float) : list string :=
  sorted String.ltb (glob E "*.log").

(** Every card so far has an index below the one the next card would
    get at position [k] of the loop. *)
Definition indices_below {float : Type} (k : nat)
    (st : @ts_viewer.loop_state float) : Prop :=
  Forall (fun c => (ts_viewer.idx c
                    < Z.of_nat k - ts_viewer.n_skipped (ts_viewer.counts st))%Z)
         (ts_viewer.cards_html st).

Definition index_lt {float : Type} (a b : @ts_viewer.card float) : Prop :=
  (ts_viewer.idx a < ts_viewer.idx b)%Z.

(** The libraries fail with ordinary exceptions only. *)
Definition ordinary_failures {float : Type} (E : environment float) : Prop :=
  forall (path : string) (e : exn),
    (cclib_parse E path = Raise e -> is_Exception e = true)
    /\ (ase_frames E path = Raise e -> is_Exception e = true).

(** Each displacement table of cclib has a row for every atomic number. *)
Definition tables_cover_atoms {float : Type} (E : environment float) : Prop :=
  forall (path : string) (d : ccData float) (nos : list Z)
         (vd : list (mode float)),
    cclib_parse E path = Ok d ->
    atomnos d = Some nos -> vibdisps d = Some vd ->
    Forall (fun m => (List.length nos <= List.length m)%nat) vd.

(** Whether a log ends up as a card: the termination test passes and the
    extractor returns a structure. *)
Definition yields_card {float : Type} `{PyFloat float} (E : environment float)
    (log_file : string) : bool :=
  match ts_viewer.gaussian_normally_terminated E log_file with
  | Ok true =>
      match snd (ts_viewer.parse_gaussian_output E log_file) with
      | Ok (Some _, _, _) => true
      | _ => false
      end
  | _ => false
  end.

(** The structures a state of the loop has classified *)
Definition classified (c : ts_viewer.counters) : Z :=
  ts_viewer.n_valid_ts c + ts_viewer.n_minimum c + ts_viewer.n_higher_order c.

(** The atoms of the structures on the cards of xyz_viewer *)
Definition atoms_shown (cards : list xyz_viewer.card) : Z :=
  fold_right Z.add 0%Z (map xyz_viewer.natoms cards).

(** The state in which [main] of xyz_viewer enters its loop *)
Definition xyz_fresh_state (n_files : Z) : xyz_viewer.loop_state :=
  {| xyz_viewer.cards := [];
     xyz_viewer.total_atoms := 0;
     xyz_viewer.skipped := 0;
     xyz_viewer.console :=
       [xyz_viewer.Rule; xyz_viewer.Discovered n_files; xyz_viewer.Rule] |}.

(** The index and the title of a card of structure_viewer *)
Definition sv_label (c : structure_viewer.card) : Z * string :=
  (structure_viewer.idx c, structure_viewer.safe_title c).

(** The label of the card for the log at a position of the sorted list *)
Definition sv_label_of (item : nat * string) : Z * string :=
  (Z.of_nat (fst item), html_escape (snd item)).

(** Two paths have the same sort key. *)
Definition same_key (p q : string) : bool :=
  match key_compare (key_of p) (key_of q) with
  | Eq => true
  | _ => false
  end.

(** The bytes [_tail_contains] reads: the last [n_lines * 200] bytes of
    the file, or all of it when it is shorter; nothing when the file
    cannot be read. *)
Definition window_bytes {float : Type} (E : environment float) (path : string)
    (n_lines : Z) : list N :=
  match files E path with
  | Regular content =>
      map Byte.to_N
        (last_n (Z.to_nat (Z.min (len content) (n_lines * 200))) content)
  | _ => []
  end.

(** Every item is an ASCII code. *)
Definition ascii_only (t : list N) : Prop := Forall (fun b => (b < 128)%N) t.

(** The state after an iteration that skipped [log_file] with [line] *)
Definition skipped_with {float : Type} (line : @ts_viewer.console_line float)
    (log_file : string) (st : @ts_viewer.loop_state float)
    : @ts_viewer.loop_state float :=
  {| ts_viewer.cards_html := ts_viewer.cards_html st;
     ts_viewer.counts := ts_viewer.skip_one (ts_viewer.counts st);
     ts_viewer.console :=
       (ts_viewer.console st ++ [ts_viewer.Processing log_file; line])%list |}.

(** Every card stands at most as many places before its index as there
    were parse errors so far, and never behind it. *)
Definition indices_near_positions {float : Type}
    (st : @ts_viewer.loop_state float) : Prop :=
  forall (k : nat) (c : ts_viewer.card),
    nth_error (ts_viewer.cards_html st) k = Some c ->
    (Z.of_nat k <= ts_viewer.idx c
     <= Z.of_nat k + ts_viewer.n_errors (ts_viewer.counts st))%Z.


(** ** Sample inputs *)
Module Examples.
Import Micro.

Definition water : Atoms Z :=
  [ {| symbol := "O"; position := (0, 0, 119262)%Z |};
    {| symbol := "H"; position := (0, 763239, -477047)%Z |};
    {| symbol := "H"; position := (0, -763239, -477047)%Z |} ].

(** A small world: three element symbols, a formula that lists the
    symbols, no files and libraries that find nothing. *)
Definition symbols_by_number (n : Z) : string :=
  if (n =? 1)%Z then "H" else if (n =? 6)%Z then "C"
  else if (n =? 8)%Z then "O" else "X".

Definition nothing : environment Z :=
  {| glob := fun _ => [];
     files := fun _ => Missing;
     cclib_parse := fun _ => Raise ValueError;
     ase_frames := fun _ => Raise ValueError;
     chemical_symbols := symbols_by_number;
     get_chemical_formula := fun atoms => String.concat EmptyString (map symbol atoms);
     write_xyz := fun _ _ => EmptyString |}.

(** One displacement table for water and one imaginary frequency,
    -450.3 cm-1 *)
Definition water_mode : mode Z :=
  [ (0, 0, 70000)%Z; (0, -430000, -560000)%Z; (0, 430000, -560000)%Z ].

Definition water_freq : Z := (-450300000)%Z.

(** Log tails: a finished run, a run that reported an error after an
    earlier normal step, and a run cut off in the middle. *)
Definition finished_log : list byte :=
  list_byte_of_string " Job cpu time: 0 days. Normal termination of Gaussian 16 at Mon.".

Definition failed_log : list byte :=
  list_byte_of_string " Normal termination of Gaussian 16. Link1: Error termination via Lnk1e.".

Definition cut_off_log : list byte :=
  list_byte_of_string " SCF Done:  E(RB3LYP) =  -76.4".

(** A directory given file by file: what the file holds, what cclib
    makes of it and which frames ASE finds in it. *)
Record sample_file : Type := {
  file_name : string;
  file_bytes : file_state;
  file_data : result (ccData Z);
  file_frames : result (list (Atoms Z))
}.

Fixpoint find_file (path : string) (dir : list sample_file) : option sample_file :=
  match dir with
  | [] => None
  | f :: rest => if String.eqb (file_name f) path then Some f else find_file path rest
  end.

Definition world (pattern : string) (dir : list sample_file) : environment Z :=
  {| glob := fun p => if String.eqb p pattern then map file_name dir else [];
     files := fun p => match find_file p dir with
                       | Some f => file_bytes f
                       | None => Missing
                       end;
     cclib_parse := fun p => match find_file p dir with
                             | Some f => file_data f
                             | None => Raise FileNotFoundError
                             end;
     ase_frames := fun p => match find_file p dir with
                            | Some f => file_frames f
                            | None => Raise FileNotFoundError
                            end;
     chemical_symbols := symbols_by_number;
     get_chemical_formula := fun atoms => String.concat EmptyString (map symbol atoms);
     write_xyz := fun _ _ => EmptyString |}.

Definition water_start : list (vec3 Z) :=
  [ (0, 0, 100000)%Z; (0, 800000, -500000)%Z; (0, -800000, -500000)%Z ].

Definition water_final : list (vec3 Z) :=
  [ (0, 0, 119262)%Z; (0, 763239, -477047)%Z; (0, -763239, -477047)%Z ].

Definition stretch_mode : mode Z :=
  [ (0, 0, 50000)%Z; (0, 580000, -400000)%Z; (0, -580000, -400000)%Z ].

(** A transition state: two optimisation steps, one imaginary mode *)
Definition ts_data : ccData Z :=
  {| atomcoords := Some [water_start; water_final];
     atomnos := Some [8; 1; 1]%Z;
     vibfreqs := Some [water_freq; 1600000000; 3700000000]%Z;
     vibdisps := Some [water_mode; stretch_mode; stretch_mode] |}.

(** A minimum: no negative frequency *)
Definition minimum_data : ccData Z :=
  {| atomcoords := Some [water_final];
     atomnos := Some [8; 1; 1]%Z;
     vibfreqs := Some [1600000000; 3700000000]%Z;
     vibdisps := Some [stretch_mode; stretch_mode] |}.

(** Two negative frequencies, but a displacement table for the first
    mode only *)
Definition short_table_data : ccData Z :=
  {| atomcoords := Some [water_final];
     atomnos := Some [8; 1; 1]%Z;
     vibfreqs := Some [water_freq; -120000000; 3700000000]%Z;
     vibdisps := Some [water_mode] |}.

Definition ts_log : sample_file :=
  {| file_name := "a_ts.log"; file_bytes := Regular finished_log;
     file_data := Ok ts_data; file_frames := Ok [water] |}.

Definition failed_run : sample_file :=
  {| file_name := "b_failed.log"; file_bytes := Regular failed_log;
     file_data := Ok ts_data; file_frames := Ok [water] |}.

Definition cut_off_run : sample_file :=
  {| file_name := "c_cut.log"; file_bytes := Regular cut_off_log;
     file_data := Raise ValueError; file_frames := Raise ValueError |}.

Definition locked_run : sample_file :=
  {| file_name := "d_locked.log"; file_bytes := Forbidden;
     file_data := Raise PermissionError; file_frames := Raise PermissionError |}.

(** Finished normally, but neither library can make sense of it *)
Definition garbled_run : sample_file :=
  {| file_name := "e_garbled.log"; file_bytes := Regular finished_log;
     file_data := Raise ValueError; file_frames := Raise ValueError |}.

Definition minimum_log : sample_file :=
  {| file_name := "f_min.log"; file_bytes := Regular finished_log;
     file_data := Ok minimum_data; file_frames := Ok [water] |}.

Definition short_table_log : sample_file :=
  {| file_name := "g_saddle.log"; file_bytes := Regular finished_log;
     file_data := Ok short_table_data; file_frames := Ok [water] |}.

Definition mixed_batch : environment Z :=
  world "*.log" [minimum_log; cut_off_run; ts_log; locked_run; failed_run;
                 garbled_run; short_table_log].

(** A batch in which nothing can be shown *)
Definition hopeless_batch : environment Z :=
  world "*.log" [cut_off_run; locked_run; garbled_run; failed_run].

(** What is asked of a sample file for the libraries to behave: failures
    are ordinary exceptions, displacement tables have a row per atom. *)
Definition ordinary_result {A : Type} (r : result A) : Prop :=
  match r with
  | Ok _ => True
  | Raise e => is_Exception e = true
  end.

Definition well_behaved (f : sample_file) : Prop :=
  ordinary_result (file_data f)
  /\ ordinary_result (file_frames f)
  /\ match file_data f with
     | Ok d =>
         match atomnos d, vibdisps d with
         | Some nos, Some vd =>
             Forall (fun m => (List.length nos <= List.length m)%nat) vd
         | _, _ => True
         end
     | Raise _ => True
     end.

(** Scenario E: three coordinate files, found in no particular order *)
Definition xyz_file (path : string) : sample_file :=
  {| file_name := path; file_bytes := Regular [];
     file_data := Raise ValueError; file_frames := Ok [water] |}.

Definition scenario_E : environment Z :=
  world "min_xyz/*.xyz"
    [xyz_file "min_xyz/s2.xyz"; xyz_file "min_xyz/s10.xyz";
     xyz_file "min_xyz/s1.xyz"].

(** The batch that leaves a gap: a parse error between two good logs *)
Definition gap_batch : environment Z :=
  world "*.log" [ts_log; garbled_run; minimum_log].

(** A directory of coordinate files one of which cannot be read *)
Definition unreadable_xyz (path : string) : sample_file :=
  {| file_name := path; file_bytes := Regular [];
     file_data := Raise ValueError; file_frames := Raise ValueError |}.

Definition partial_xyz_batch : environment Z :=
  world "min_xyz/*.xyz"
    [xyz_file "min_xyz/b.xyz"; unreadable_xyz "min_xyz/a.xyz";
     xyz_file "min_xyz/c.xyz"].

(** A displacement table that lacks the row of the last atom of water *)
Definition cut_mode : mode Z :=
  [ (0, 0, 70000)%Z; (0, -430000, -560000)%Z ].

(** A finished log with bytes around the marker that are no UTF-8 *)
Definition noisy_log : list byte :=
  ([xff; xe2] ++ list_byte_of_string "Normal termination of Gaussian"
   ++ [xc3])%list.

Definition noisy_run : sample_file :=
  {| file_name := "n_noisy.log"; file_bytes := Regular noisy_log;
     file_data := Raise ValueError; file_frames := Raise ValueError |}.

Definition noisy_batch : environment Z := world "*.log" [noisy_run].

(** A finished transition-state log that cclib rejects and ASE reads *)
Definition half_read_run : sample_file :=
  {| file_name := "h_half.log"; file_bytes := Regular finished_log;
     file_data := Raise ValueError; file_frames := Ok [water] |}.

Definition half_read_batch : environment Z := world "*.log" [half_read_run].




(** A finished transition-state log whose displacement table lacks the
    row of the last atom, followed by a good log *)
Definition cut_table_data : ccData Z :=
  {| atomcoords := Some [water_final];
     atomnos := Some [8; 1; 1]%Z;
     vibfreqs := Some [water_freq; 1600000000]%Z;
     vibdisps := Some [cut_mode; stretch_mode] |}.

Definition cut_table_log : sample_file :=
  {| file_name := "a_cut_table.log"; file_bytes := Regular finished_log;
     file_data := Ok cut_table_data; file_frames := Ok [water] |}.

Definition abort_batch : environment Z :=
  world "*.log" [cut_table_log; minimum_log].

(** A directory with a file whose name has a superscript two between two
    decimal digits; every file in it is readable *)
Definition squared_name : string :=
  "min_xyz/1" ++ String "178"%char "3.xyz".

Definition superscript_batch : environment Z :=
  world "min_xyz/*.xyz" [xyz_file "min_xyz/s1.xyz"; xyz_file squared_name].

End Examples.

(** * Properties *)

Import Micro.
Import Examples.

(** ** Strings *)

Lemma string_app_assoc (a b c : string) : ((a ++ b) ++ c = a ++ (b ++ c))%string.
Proof. induction a as [|x a IH]; cbn [append]; [reflexivity | now rewrite IH]. Qed.

Lemma has_char_app (c : ascii) (a b : string) :
  has_char c (a ++ b) = has_char c a || has_char c b.
Proof.
  induction a as [|d a IH]; simpl.
  - reflexivity.
  - rewrite IH. now rewrite orb_assoc.
Qed.

Lemma has_char_replace_old (old : ascii) (new s : string) :
  has_char old new = false -> has_char old (replace old new s) = false.
Proof.
  intros Hnew. induction s as [|c s IH]; simpl.
  - reflexivity.
  - rewrite has_char_app, IH, orb_false_r.
    destruct (Ascii.eqb c old) eqn:Hc.
    + exact Hnew.
    + simpl. now rewrite Hc.
Qed.

Lemma has_char_replace_other (c old : ascii) (new s : string) :
  has_char c new = false -> has_char c s = false ->
  has_char c (replace old new s) = false.
Proof.
  intros Hnew. induction s as [|d s IH]; simpl; intros Hs.
  - reflexivity.
  - apply orb_false_iff in Hs as [Hd Hs].
    rewrite has_char_app, (IH Hs), orb_false_r.
    destruct (Ascii.eqb d old).
    + exact Hnew.
    + simpl. now rewrite Hd.
Qed.

Lemma split_free (sep : ascii) (s : string) :
  has_char sep s = false -> split sep s = [s].
Proof.
  induction s as [|c s IH]; simpl; intros Hs.
  - reflexivity.
  - apply orb_false_iff in Hs as [Hc Hs].
    now rewrite Hc, (IH Hs).
Qed.

Lemma split_app (sep : ascii) (a b : string) :
  has_char sep a = false ->
  split sep (a ++ String sep b) = a :: split sep b.
Proof.
  induction a as [|c a IH]; simpl; intros Ha.
  - now rewrite Ascii.eqb_refl.
  - apply orb_false_iff in Ha as [Hc Ha].
    now rewrite Hc, (IH Ha).
Qed.

Lemma split_join (sep : ascii) (parts : list string) :
  parts <> [] ->
  Forall (fun p => has_char sep p = false) parts ->
  split sep (join (char sep) parts) = parts.
Proof.
  induction parts as [|p rest IH]; intros Hne Hall.
  - contradiction.
  - inversion Hall as [|? ? Hp Hrest]; subst.
    destruct rest as [|q rest].
    + simpl. now apply split_free.
    + change (join (char sep) (p :: q :: rest))
        with (p ++ String sep (join (char sep) (q :: rest))).
      rewrite (split_app _ _ _ Hp). f_equal.
      apply IH; [discriminate | assumption].
Qed.

Lemma all_digits_no_char (c : ascii) (s : string) :
  is_digit c = false -> all_digits s = true -> has_char c s = false.
Proof.
  intros Hc. induction s as [|d s IH]; simpl; intros Hs.
  - reflexivity.
  - apply andb_true_iff in Hs as [Hd Hs].
    rewrite (IH Hs), orb_false_r.
    destruct (Ascii.eqb_spec d c) as [->|]; [congruence | reflexivity].
Qed.

Lemma fixed_unsigned_no_char (c : ascii) (k : nat) (seen : bool) (s : string) :
  is_digit c = false -> c <> "."%char ->
  fixed_unsigned k seen s = true -> has_char c s = false.
Proof.
  intros Hc Hdot. revert seen.
  induction s as [|d s IH]; simpl; intros seen Hs.
  - discriminate.
  - destruct (Ascii.eqb_spec d ".") as [->|Hd].
    + apply andb_true_iff in Hs as [Hs _].
      apply andb_true_iff in Hs as [_ Hs].
      rewrite (all_digits_no_char c s Hc Hs), orb_false_r.
      destruct (Ascii.eqb_spec "."%char c); [congruence | reflexivity].
    + apply andb_true_iff in Hs as [Hdig Hs].
      rewrite (IH _ Hs), orb_false_r.
      destruct (Ascii.eqb_spec d c) as [->|]; [congruence | reflexivity].
Qed.

Lemma is_fixed_no_newline (k : nat) (s : string) :
  is_fixed k s = true -> has_char newline s = false.
Proof.
  assert (Hn : is_digit newline = false) by reflexivity.
  assert (Hd : newline <> "."%char) by discriminate.
  unfold is_fixed. destruct s as [|c s].
  - discriminate.
  - destruct (Ascii.eqb_spec c "-") as [->|Hc].
    + intros Hs. simpl. now apply (fixed_unsigned_no_char _ k false).
    + intros Hs.
      assert (Hs' : fixed_unsigned k false (String c s) = true).
      { revert Hs. destruct c as [[] [] [] [] [] [] [] []]; try exact (fun h => h).
        now contradiction Hc. }
      now apply (fixed_unsigned_no_char _ k false).
Qed.

Lemma string_of_uint_digits (u : Decimal.uint) :
  all_digits (NilEmpty.string_of_uint u) = true.
Proof. induction u; simpl; auto. Qed.

Lemma str_nonneg_digits (n : Z) : (0 <= n)%Z -> all_digits (str n) = true.
Proof.
  intros Hn. unfold str. destruct n as [|p|p]; simpl.
  - reflexivity.
  - apply string_of_uint_digits.
  - lia.
Qed.

Lemma str_no_newline (n : Z) : has_char newline (str n) = false.
Proof.
  unfold str. destruct n as [|p|p]; simpl.
  - reflexivity.
  - apply all_digits_no_char; [reflexivity | apply string_of_uint_digits].
  - apply all_digits_no_char; [reflexivity | apply string_of_uint_digits].
Qed.

Lemma parse_int_str (n : Z) : parse_int (str n) = Some n.
Proof.
  unfold parse_int, str. rewrite NilEmpty.isi. simpl.
  now rewrite DecimalZ.of_to.
Qed.

Lemma str_inj (m n : Z) : str m = str n -> m = n.
Proof.
  intros Heq. apply (f_equal parse_int) in Heq.
  rewrite !parse_int_str in Heq. congruence.
Qed.

Lemma length_append (a b : string) :
  String.length (a ++ b) = (String.length a + String.length b)%nat.
Proof. induction a as [|c a IH]; simpl; [reflexivity | now rewrite IH]. Qed.

Lemma all_digits_app (a b : string) :
  all_digits (a ++ b) = all_digits a && all_digits b.
Proof.
  induction a as [|c a IH]; simpl; [reflexivity|].
  now rewrite IH, andb_assoc.
Qed.

Lemma is_digit_not_dot (c : ascii) : is_digit c = true -> Ascii.eqb c "." = false.
Proof.
  intros Hc. destruct (Ascii.eqb_spec c ".") as [->|]; [discriminate | reflexivity].
Qed.

Lemma fixed_unsigned_seen (k : nat) (ds fs : string) :
  all_digits ds = true -> all_digits fs = true -> String.length fs = k ->
  fixed_unsigned k true (ds ++ String "." fs) = true.
Proof.
  intros Hds Hfs Hk. induction ds as [|c ds IH]; simpl.
  - now rewrite Hfs, Hk, Nat.eqb_refl.
  - simpl in Hds. apply andb_true_iff in Hds as [Hc Hds].
    now rewrite (is_digit_not_dot c Hc), Hc, (IH Hds).
Qed.

Lemma fixed_unsigned_digits (k : nat) (seen : bool) (ds fs : string) :
  ds <> EmptyString ->
  all_digits ds = true -> all_digits fs = true -> String.length fs = k ->
  fixed_unsigned k seen (ds ++ String "." fs) = true.
Proof.
  intros Hne Hds Hfs Hk. destruct ds as [|c ds]; [contradiction|].
  simpl in *. apply andb_true_iff in Hds as [Hc Hds].
  now rewrite (is_digit_not_dot c Hc), Hc, (fixed_unsigned_seen k ds fs).
Qed.

Lemma string_of_uint_nonempty (u : Decimal.uint) :
  u <> Decimal.Nil -> NilEmpty.string_of_uint u <> EmptyString.
Proof. destruct u; simpl; congruence. Qed.

Lemma str_nonneg_nonempty (n : Z) : (0 <= n)%Z -> str n <> EmptyString.
Proof.
  intros Hn. unfold str. destruct n as [|p|p]; simpl.
  - discriminate.
  - apply string_of_uint_nonempty, DecimalPos.Unsigned.to_uint_nonnil.
  - lia.
Qed.

(** ** The concrete float has the shape of a finite float *)

Lemma digit_char_is_digit (d : Z) :
  (0 <= d < 10)%Z -> is_digit (Micro.digit_char d) = true.
Proof.
  intros Hd.
  assert (Hcases : (d = 0 \/ d = 1 \/ d = 2 \/ d = 3 \/ d = 4 \/ d = 5
                    \/ d = 6 \/ d = 7 \/ d = 8 \/ d = 9)%Z) by lia.
  repeat (destruct Hcases as [->|Hcases]; [reflexivity|]).
  now subst d.
Qed.

Lemma frac_digits_shape (k : nat) (r : Z) :
  all_digits (Micro.frac_digits k r) = true
  /\ String.length (Micro.frac_digits k r) = k.
Proof.
  revert r. induction k as [|k IH]; intros r.
  - split; reflexivity.
  - cbn [Micro.frac_digits]. destruct (IH (r / 10)%Z) as [Hd Hl]. split.
    + rewrite all_digits_app, Hd. unfold char. cbn [all_digits andb].
      rewrite digit_char_is_digit; [reflexivity|].
      apply Z.mod_pos_bound. lia.
    + rewrite length_append, Hl. unfold char. cbn [String.length]. lia.
Qed.

Lemma micro_fixed_shape (k : nat) (negative : bool) (units : Z) :
  (0 <= units)%Z -> is_fixed k (Micro.fixed k negative units) = true.
Proof.
  intros Hu. unfold Micro.fixed.
  set (q := (units / 10 ^ Z.of_nat k)%Z).
  set (r := (units mod 10 ^ Z.of_nat k)%Z).
  assert (Hq : (0 <= q)%Z) by (apply Z.div_pos; lia).
  destruct (frac_digits_shape k r) as [Hd Hl].
  pose proof (str_nonneg_nonempty q Hq) as Hne.
  pose proof (str_nonneg_digits q Hq) as Hdig.
  pose proof (fixed_unsigned_digits k false (str q) _ Hne Hdig Hd Hl) as Hfix.
  change (str q ++ "." ++ Micro.frac_digits k r)
    with (str q ++ String "." (Micro.frac_digits k r)).
  destruct negative; simpl.
  - exact Hfix.
  - unfold is_fixed.
    destruct (str q ++ String "." (Micro.frac_digits k r)) as [|c s] eqn:Hs.
    + exact Hfix.
    + assert (Hc : is_digit c = true).
      { destruct (str q) as [|c' s']; [contradiction|].
        simpl in Hs. injection Hs as <- _.
        simpl in Hdig. now apply andb_true_iff in Hdig as [Hc _]. }
      destruct (Ascii.eqb_spec c "-") as [->|Hm]; [discriminate|].
      revert Hfix. destruct c as [[] [] [] [] [] [] [] []];
        try exact (fun h => h). now contradiction Hm.
Qed.

#[export] Instance micro_finite : PyFloatFinite Z.
Proof.
  constructor. intros x. simpl. apply micro_fixed_shape. lia.
Qed.

(** ** The geometry encoder *)

Section Encoder.
Context {float : Type} `{Hfinite : PyFloatFinite float}.

Lemma format_6f_no_newline (x : float) : has_char newline (format_6f x) = false.
Proof. apply (is_fixed_no_newline 6), format_6f_fixed. Qed.

Lemma atom_line_no_newline (a : atom float) :
  has_char newline (symbol a) = false ->
  has_char newline (ts_viewer.atom_line a) = false.
Proof.
  intros Hs. unfold ts_viewer.atom_line.
  destruct (position a) as [[x y] z].
  rewrite !has_char_app, Hs, !format_6f_no_newline. reflexivity.
Qed.

Lemma atoms_to_xyz_split (atoms : Atoms float) (comment : string) :
  has_char newline comment = false ->
  Forall (fun a => has_char newline (symbol a) = false) atoms ->
  split newline (ts_viewer.atoms_to_xyz atoms comment)
  = str (len atoms) :: comment :: map ts_viewer.atom_line atoms.
Proof.
  intros Hc Hsym. unfold ts_viewer.atoms_to_xyz.
  cbn [app]. apply split_join; [discriminate|].
  constructor; [apply str_no_newline|].
  constructor; [exact Hc|].
  apply Forall_map. revert Hsym. apply Forall_impl.
  intros a. apply atom_line_no_newline.
Qed.

(** C6.  For a structure of N atoms (element symbols hold no newline)
    and a comment without newline, the encoded block splits at newlines
    into exactly N + 2 lines: the first is N in decimal and reads back as
    N, the second is the comment as given, and line k + 2 is the symbol of
    atom k followed by its three coordinates, blank-separated, each in the
    fixed shape with six decimals.  The fallback encoder of xyz_viewer is
    the same function. *)
Theorem atoms_to_xyz_lines (atoms : Atoms float) (comment : string) :
  has_char newline comment = false ->
  Forall (fun a => has_char newline (symbol a) = false) atoms ->
  let lines := split newline (ts_viewer.atoms_to_xyz atoms comment) in
  List.length lines = (List.length atoms + 2)%nat
  /\ nth_error lines 0 = Some (str (len atoms))
  /\ option_map parse_int (nth_error lines 0) = Some (Some (len atoms))
  /\ nth_error lines 1 = Some comment
  /\ (forall (k : nat) (a : atom float),
        nth_error atoms k = Some a ->
        exists x y z : float,
          position a = (x, y, z)
          /\ nth_error lines (k + 2)
             = Some (symbol a ++ " " ++ format_6f x ++ " " ++ format_6f y
                              ++ " " ++ format_6f z)
          /\ is_fixed 6 (format_6f x) = true
          /\ is_fixed 6 (format_6f y) = true
          /\ is_fixed 6 (format_6f z) = true)
  /\ xyz_viewer.atoms_to_xyz atoms comment
     = ts_viewer.atoms_to_xyz atoms comment.
Proof.
  intros Hc Hsym lines. subst lines.
  rewrite (atoms_to_xyz_split atoms comment Hc Hsym).
  repeat split.
  - cbn [List.length]. rewrite length_map. lia.
  - cbn [nth_error option_map]. now rewrite parse_int_str.
  - intros k a Hk. destruct (position a) as [[x y] z] eqn:Hpos.
    exists x, y, z. repeat split; try apply format_6f_fixed.
    replace (k + 2)%nat with (S (S k)) by lia. cbn [nth_error].
    rewrite nth_error_map, Hk. cbn [option_map].
    unfold ts_viewer.atom_line. now rewrite Hpos.
Qed.

End Encoder.

Lemma atoms_to_xyz_lines_witness :
  split newline (ts_viewer.atoms_to_xyz water "water.log")
  = ["3"; "water.log"; "O 0.000000 0.000000 0.119262";
     "H 0.000000 0.763239 -0.477047"; "H 0.000000 -0.763239 -0.477047"]
  /\ List.length (split newline (ts_viewer.atoms_to_xyz water "water.log"))
     = (List.length water + 2)%nat.
Proof.
  split; [reflexivity|].
  refine (proj1 (atoms_to_xyz_lines (Hfinite := micro_finite)
                   water "water.log" _ _)).
  - reflexivity.
  - repeat constructor.
Defined.

(** ** Escaping of the embedded scripts *)

Lemma escaped_from_app_free (c : ascii) (b : bool) (x y : string) :
  has_char c x = false ->
  (forall b', escaped_from c b' y = true) ->
  escaped_from c b (x ++ y) = true.
Proof.
  revert b. induction x as [|d x IH]; simpl; intros b Hx Hy.
  - apply Hy.
  - apply orb_false_iff in Hx as [Hd Hx].
    now rewrite Hd, (IH _ Hx Hy).
Qed.

Lemma replace_apostrophe_escaped (b : bool) (s : string) :
  escaped_from apostrophe b (replace apostrophe "\'" s) = true.
Proof.
  revert b. induction s as [|c s IH]; intros b.
  - reflexivity.
  - cbn [replace]. destruct (Ascii.eqb c apostrophe) eqn:Hc.
    + cbn. apply IH.
    + apply escaped_from_app_free; [|intros; apply IH].
      cbn. now rewrite Hc.
Qed.

Lemma js_escape_no_dquote (s : string) :
  has_char dquote (ts_viewer.js_escape s) = false.
Proof.
  unfold ts_viewer.js_escape.
  apply has_char_replace_other; [reflexivity|].
  now apply has_char_replace_old.
Qed.

Lemma js_escape_no_newline (s : string) :
  has_char newline s = false ->
  has_char newline (ts_viewer.js_escape s) = false.
Proof.
  intros Hs. unfold ts_viewer.js_escape.
  apply has_char_replace_other; [reflexivity|].
  now apply has_char_replace_other.
Qed.

Lemma js_escape_safe (s : string) :
  has_char newline s = false -> attribute_safe (ts_viewer.js_escape s).
Proof.
  intros Hs. repeat split.
  - now apply js_escape_no_newline.
  - apply js_escape_no_dquote.
  - apply replace_apostrophe_escaped.
Qed.

Lemma replace_newline_free (s : string) :
  has_char newline (replace newline (char pipe) s) = false.
Proof. now apply has_char_replace_old. Qed.

Lemma data_script_no_newline (xyz_text : string) :
  has_char newline (ts_viewer.xyz_to_jsmol_data_script xyz_text) = false.
Proof.
  unfold ts_viewer.xyz_to_jsmol_data_script.
  now rewrite !has_char_app, replace_newline_free.
Qed.

Lemma show_data_script_no_newline (xyz_text : string) :
  has_char newline (structure_viewer.xyz_to_jsmol_data_script xyz_text) = false.
Proof.
  unfold structure_viewer.xyz_to_jsmol_data_script.
  now rewrite !has_char_app, replace_newline_free.
Qed.

Lemma hex_digit_no_newline (n : nat) :
  Ascii.eqb (Json.hex_digit n) newline = false.
Proof. do 16 (destruct n as [|n]; [reflexivity|]). reflexivity. Qed.

Lemma hex_digit_no_dquote (n : nat) :
  Ascii.eqb (Json.hex_digit n) dquote = false.
Proof. do 16 (destruct n as [|n]; [reflexivity|]). reflexivity. Qed.

Lemma json_escape_char_no_newline (c : ascii) :
  has_char newline (Json.escape_char c) = false.
Proof.
  unfold Json.escape_char.
  repeat match goal with
         | |- context [if ?b then _ else _] => destruct b eqn:?
         end; try reflexivity.
  - cbn. rewrite orb_false_r.
    destruct (Ascii.eqb_spec c newline) as [->|]; [discriminate | reflexivity].
  - cbn. now rewrite !hex_digit_no_newline.
Qed.

Lemma json_escape_no_newline (s : string) :
  has_char newline (Json.escape s) = false.
Proof.
  induction s as [|c s IH]; [reflexivity|].
  cbn [Json.escape]. now rewrite has_char_app, json_escape_char_no_newline, IH.
Qed.

Lemma json_escape_dquote_escaped (b : bool) (s : string) :
  escaped_from dquote b (Json.escape s) = true.
Proof.
  revert b. induction s as [|c s IH]; intros b; [reflexivity|].
  cbn [Json.escape]. unfold Json.escape_char.
  destruct (Ascii.eqb c backslash) eqn:Hb; [cbn; apply IH|].
  destruct (Ascii.eqb c dquote) eqn:Hq; [cbn; apply IH|].
  apply escaped_from_app_free; [|intros; apply IH].
  repeat match goal with
         | |- context [if ?t then _ else _] => destruct t eqn:?
         end; try reflexivity.
  - cbn. now rewrite Hq.
  - cbn. now rewrite !hex_digit_no_dquote.
Qed.

Section Scripts.
Context {float : Type} `{PyFloat float}.

Lemma vibration_script_no_newline (atoms : Atoms float)
    (frequencies : list float) (normal_modes : list (mode float)) (v : string) :
  ts_viewer.create_jsmol_vibration_script atoms frequencies normal_modes
  = Ok (Some v) ->
  has_char newline v = false.
Proof.
  unfold ts_viewer.create_jsmol_vibration_script.
  destruct frequencies as [|f fs]; [discriminate|].
  destruct normal_modes as [|m ms]; [discriminate|].
  destruct (mapM _ _) as [frames|e]; cbn [bind]; [|discriminate].
  intros [= <-]. apply replace_newline_free.
Qed.

Lemma make_vibration_card_scripts (E : environment float) (i : Z)
    (title : string) (atoms : Atoms float) (frequencies : list float)
    (normal_modes : list (mode float)) (c : ts_viewer.card) :
  ts_viewer.make_vibration_card E i title atoms frequencies normal_modes = Ok c ->
  ts_viewer.esc_base c
  = ts_viewer.js_escape
      (ts_viewer.xyz_to_jsmol_data_script
         (ts_viewer.atoms_to_xyz atoms (basename title)))
  /\ exists vibr_script : string,
       ts_viewer.esc_vibr c = ts_viewer.js_escape vibr_script
       /\ has_char newline vibr_script = false.
Proof.
  unfold ts_viewer.make_vibration_card.
  destruct (len frequencies >? 0)%Z.
  - destruct (ts_viewer.create_jsmol_vibration_script atoms frequencies
                normal_modes) as [[v|]|e] eqn:Hv; cbn [bind]; [| |discriminate].
    + intros [= <-]. split; [reflexivity|]. exists v.
      split; [now destruct v|].
      now apply (vibration_script_no_newline atoms frequencies normal_modes).
    + intros [= <-]. split; [reflexivity|]. now exists EmptyString.
  - cbn [bind]. intros [= <-]. split; [reflexivity|]. now exists EmptyString.
Qed.

(** C7, as amended.  In a card of ts_viewer the base script and the
    vibration script, and in a card of structure_viewer the load script,
    hold no newline and no double quote, and every apostrophe in them
    stands right behind a backslash.  In a card of xyz_viewer the load
    script is a JSON string literal: between its two delimiting quotes
    there is no newline and every double quote stands right behind a
    backslash; apostrophes are copied as they are. *)
Theorem embedded_scripts_escaped :
  (forall (E : environment float) (i : Z) (title : string)
          (atoms : Atoms float) (frequencies : list float)
          (normal_modes : list (mode float)) (c : ts_viewer.card),
      ts_viewer.make_vibration_card E i title atoms frequencies normal_modes
      = Ok c ->
      attribute_safe (ts_viewer.esc_base c)
      /\ attribute_safe (ts_viewer.esc_vibr c))
  /\ (forall (i n : Z) (title f xyz_text : string),
        attribute_safe
          (structure_viewer.escaped_jscript
             (structure_viewer.make_card i title n f
                (structure_viewer.xyz_to_jsmol_data_script xyz_text))))
  /\ (forall (E : environment float) (i : Z) (file_path : string)
             (atoms : Atoms float),
        exists body : string,
          xyz_viewer.script_literal
            (xyz_viewer.make_structure_card E i file_path atoms)
          = char dquote ++ body ++ char dquote
          /\ has_char newline body = false
          /\ all_escaped dquote body = true).
Proof.
  split; [|split].
  - intros E i title atoms fs ms c Hc.
    destruct (make_vibration_card_scripts E i title atoms fs ms c Hc)
      as [-> [v [-> Hv]]].
    split; apply js_escape_safe; [apply data_script_no_newline | exact Hv].
  - intros i n title f xyz_text.
    apply js_escape_safe, show_data_script_no_newline.
  - intros E i file_path atoms. eexists. split; [reflexivity|]. split.
    + apply json_escape_no_newline.
    + apply json_escape_dquote_escaped.
Qed.

End Scripts.

Lemma embedded_scripts_escaped_witness :
  exists c : ts_viewer.card,
    ts_viewer.make_vibration_card nothing 0 "water.log" water
      [water_freq] [water_mode] = Ok c
    /\ attribute_safe (ts_viewer.esc_base c)
    /\ attribute_safe (ts_viewer.esc_vibr c).
Proof.
  eexists. split; [reflexivity|].
  apply (proj1 (embedded_scripts_escaped (float := Z))
           nothing 0%Z "water.log" water [water_freq] [water_mode]).
  reflexivity.
Defined.

(** C7 as stated fails on xyz_viewer: the script it embeds for the water
    molecule keeps the apostrophes of the load command unescaped. *)
Lemma xyz_card_keeps_apostrophes :
  xyz_viewer.script_literal
    (xyz_viewer.make_structure_card nothing 0 "min_xyz/water.xyz" water)
  = char dquote
    ++ "data 'model X'|3|min_xyz/water.xyz|O 0.000000 0.000000 0.119262|H 0.000000 0.763239 -0.477047|H 0.000000 -0.763239 -0.477047|end 'model X';"
    ++ char dquote
  /\ all_escaped apostrophe
       (xyz_viewer.script_literal
          (xyz_viewer.make_structure_card nothing 0 "min_xyz/water.xyz" water))
     = false.
Proof. split; reflexivity. Qed.

(** ** The termination test *)

Lemma startswith_prefix (needle t : text) :
  startswith needle t = true <-> exists after, t = (needle ++ after)%list.
Proof.
  revert t. induction needle as [|n ns IH]; intros t; simpl.
  - split; [intros _; now exists t | reflexivity].
  - destruct t as [|c cs].
    + split; [discriminate | intros [after Heq]; discriminate].
    + rewrite andb_true_iff, N.eqb_eq, IH. split.
      * intros [-> [after ->]]. now exists after.
      * intros [after [= -> ->]]. split; [reflexivity | now exists after].
Qed.

Lemma contains_Occurs (needle t : text) :
  contains needle t = true <-> Occurs needle t.
Proof.
  induction t as [|c cs IH].
  - cbn [contains]. rewrite orb_false_r, startswith_prefix. split.
    + intros [after Heq]. now exists [], after.
    + intros [before [after Heq]].
      destruct before as [|b before]; [now exists after | discriminate].
  - cbn [contains]. rewrite orb_true_iff, startswith_prefix, IH. split.
    + intros [[after Heq]|[before [after Heq]]].
      * now exists [], after.
      * exists (c :: before), after. now rewrite Heq.
    + intros [before [after Heq]]. destruct before as [|b before].
      * left. now exists after.
      * right. injection Heq as _ Heq. now exists before, after.
Qed.

Lemma last_n_skipn {A : Type} (k : nat) (l : list A) :
  last_n k l = skipn (List.length l - k) l.
Proof. unfold last_n. now rewrite firstn_rev, rev_involutive. Qed.

Section Termination.
Context {float : Type} `{PyFloat float}.

Lemma tail_contains_readable (E : environment float) (path needle : string)
    (n_lines : Z) (content : list byte) :
  files E path = Regular content ->
  ts_viewer._tail_contains E path needle n_lines
  = Ok (contains (codepoints needle)
          (decode_ignore
             (last_n (Z.to_nat (Z.min (len content) (n_lines * 200)))
                     content))).
Proof.
  intros Hf. unfold ts_viewer._tail_contains, ts_viewer.open_rb.
  rewrite Hf. cbn [bind ts_viewer.size_of ts_viewer.read_from
                   try_except_Exception].
  rewrite last_n_skipn. do 3 f_equal.
  destruct (Z.le_gt_cases 0 (n_lines * 200)) as [Hpos|Hneg].
  - f_equal. unfold len. lia.
  - rewrite !skipn_all2; [reflexivity | unfold len; lia | unfold len; lia].
Qed.

Lemma tail_contains_unreadable (E : environment float) (path needle : string)
    (n_lines : Z) :
  readable (files E path) = false ->
  ts_viewer._tail_contains E path needle n_lines = Ok false.
Proof.
  unfold ts_viewer._tail_contains, ts_viewer.open_rb.
  destruct (files E path); [reflexivity.. | discriminate].
Qed.

Lemma tail_contains_window (E : environment float) (path needle : string) :
  needle <> EmptyString ->
  ts_viewer._tail_contains E path needle 600
  = Ok (contains (codepoints needle) (tail_window E path)).
Proof.
  intros Hne. destruct needle as [|c needle]; [contradiction|].
  unfold tail_window. destruct (files E path) as [| | |size|content] eqn:Hf;
    try (rewrite tail_contains_unreadable by (now rewrite Hf); reflexivity).
  now rewrite (tail_contains_readable E path _ 600 content Hf).
Qed.

Lemma tail_contains_returns (E : environment float) (path needle : string)
    (n_lines : Z) :
  exists found : bool,
    ts_viewer._tail_contains E path needle n_lines = Ok found.
Proof.
  destruct (files E path) as [| | |size|content] eqn:Hf;
    try (exists false; apply tail_contains_unreadable; now rewrite Hf).
  eexists. exact (tail_contains_readable E path needle n_lines content Hf).
Qed.

Lemma gaussian_normally_terminated_returns (E : environment float)
    (path : string) :
  exists usable : bool,
    ts_viewer.gaussian_normally_terminated E path = Ok usable.
Proof.
  unfold ts_viewer.gaussian_normally_terminated.
  destruct (tail_contains_returns E path "Normal termination of Gaussian" 600)
    as [a ->].
  destruct (tail_contains_returns E path "Error termination" 600) as [b ->].
  cbn [bind]. now eexists.
Qed.

(** C1.  The termination test answers for every file, and it answers
    "usable" exactly when the normal-completion marker occurs in the tail
    window and the error marker does not; a tail with both markers is
    not usable. *)
Theorem gaussian_normally_terminated_iff (E : environment float) (path : string) :
  exists usable : bool,
    ts_viewer.gaussian_normally_terminated E path = Ok usable
    /\ (usable = true <->
        Occurs normal_marker (tail_window E path)
        /\ ~ Occurs error_marker (tail_window E path))
    /\ (Occurs normal_marker (tail_window E path) ->
        Occurs error_marker (tail_window E path) ->
        usable = false).
Proof.
  unfold ts_viewer.gaussian_normally_terminated.
  rewrite !tail_contains_window by discriminate. cbn [bind].
  fold normal_marker error_marker.
  eexists. split; [reflexivity|].
  rewrite andb_true_iff, negb_true_iff, <- not_true_iff_false,
    !contains_Occurs.
  split; [reflexivity|].
  intros _ Herr. apply andb_false_iff. right.
  apply negb_false_iff. now apply contains_Occurs.
Qed.

(** C10.  The marker test and the termination test never raise, whatever
    the path leads to.  When the file cannot be opened or read the marker
    test is false for every needle, the log is not usable, and the batch
    loop counts it as skipped and goes on. *)
Theorem termination_test_total (E : environment float) (path : string) :
  (forall (needle : string) (n_lines : Z),
      exists found : bool,
        ts_viewer._tail_contains E path needle n_lines = Ok found)
  /\ (exists usable : bool,
        ts_viewer.gaussian_normally_terminated E path = Ok usable)
  /\ (readable (files E path) = false ->
      (forall (needle : string) (n_lines : Z),
          ts_viewer._tail_contains E path needle n_lines = Ok false)
      /\ ts_viewer.gaussian_normally_terminated E path = Ok false
      /\ forall (i : nat) (st : ts_viewer.loop_state),
           exists st' : ts_viewer.loop_state,
             ts_viewer.process_log E i path st = (st', Ok tt)
             /\ ts_viewer.cards_html st' = ts_viewer.cards_html st
             /\ ts_viewer.n_skipped (ts_viewer.counts st')
                = (ts_viewer.n_skipped (ts_viewer.counts st) + 1)%Z).
Proof.
  split; [|split].
  - intros needle n_lines. apply tail_contains_returns.
  - apply gaussian_normally_terminated_returns.
  - intros Hunreadable.
    assert (Hg : ts_viewer.gaussian_normally_terminated E path = Ok false).
    { unfold ts_viewer.gaussian_normally_terminated.
      now rewrite !tail_contains_unreadable. }
    split; [intros; now apply tail_contains_unreadable|].
    split; [exact Hg|].
    intros i st. unfold ts_viewer.process_log.
    rewrite Hg, tail_contains_unreadable by assumption.
    eexists. split; [reflexivity|]. split; reflexivity.
Qed.

End Termination.

Lemma gaussian_normally_terminated_iff_witness :
  ts_viewer.gaussian_normally_terminated mixed_batch "a_ts.log" = Ok true
  /\ ts_viewer.gaussian_normally_terminated mixed_batch "b_failed.log" = Ok false
  /\ exists usable : bool,
       ts_viewer.gaussian_normally_terminated mixed_batch "b_failed.log"
       = Ok usable
       /\ (usable = true <->
           Occurs normal_marker (tail_window mixed_batch "b_failed.log")
           /\ ~ Occurs error_marker (tail_window mixed_batch "b_failed.log")).
Proof.
  split; [reflexivity|]. split; [reflexivity|].
  destruct (gaussian_normally_terminated_iff mixed_batch "b_failed.log")
    as [usable [Hu [Hiff _]]].
  exists usable. split; assumption.
Defined.

Lemma termination_test_total_witness :
  readable (files mixed_batch "d_locked.log") = false
  /\ ts_viewer.gaussian_normally_terminated mixed_batch "d_locked.log"
     = Ok false.
Proof.
  split; [reflexivity|].
  apply (proj2 (proj2 (termination_test_total mixed_batch "d_locked.log"))).
  reflexivity.
Defined.

(** ** The result extractor *)

Lemma skipn_nth_error_cons {A : Type} (k : nat) (l : list A) (d : A) :
  nth_error l k = Some d -> skipn k l = d :: skipn (S k) l.
Proof.
  revert l. induction k as [|k IH]; intros [|x l]; simpl; try discriminate.
  - now intros [= ->].
  - intros Hk. now rewrite (IH l Hk).
Qed.

Lemma skipn_nth_error_nil {A : Type} (k : nat) (l : list A) :
  nth_error l k = None -> skipn k l = [] /\ skipn (S k) l = [].
Proof.
  intros Hk. apply nth_error_None in Hk.
  split; apply skipn_all2; lia.
Qed.

Lemma map_combine_fst {A B C : Type} (g : A -> C) (a : list A) (b : list B) :
  List.length a = List.length b ->
  map (fun ab => g (fst ab)) (combine a b) = map g a.
Proof.
  revert b. induction a as [|x a IH]; intros [|y b] Hl; cbn in *;
    try discriminate; [reflexivity|].
  f_equal. apply IH. lia.
Qed.

Lemma map_combine_snd {A B C : Type} (g : B -> C) (a : list A) (b : list B) :
  List.length a = List.length b ->
  map (fun ab => g (snd ab)) (combine a b) = map g b.
Proof.
  revert b. induction a as [|x a IH]; intros [|y b] Hl; cbn in *;
    try discriminate; [reflexivity|].
  f_equal. apply IH. lia.
Qed.

Section Extractor.
Context {float : Type} `{PyFloat float}.
#[local] Abbreviation mode := (mode float).

Lemma imaginary_from (vibdisps : list mode) (vibfreqs : list float) (k : nat)
    (fs : list float) (ms : list mode) :
  fold_left (ts_viewer.imaginary_step vibdisps)
            (combine (seq k (List.length vibfreqs)) vibfreqs) (fs, ms)
  = ((fs ++ filter lt0 vibfreqs)%list,
     (ms ++ map snd (filter negative_pair
                       (combine vibfreqs (skipn k vibdisps))))%list).
Proof.
  revert k fs ms. induction vibfreqs as [|f vf IH]; intros k fs ms.
  - cbn. now rewrite !app_nil_r.
  - cbn [List.length seq combine fold_left ts_viewer.imaginary_step filter].
    destruct (nth_error vibdisps k) as [d|] eqn:Hk.
    + rewrite (skipn_nth_error_cons k vibdisps d Hk).
      cbn [combine filter]. change (negative_pair (f, d)) with (lt0 f).
      destruct (lt0 f); rewrite IH; [|reflexivity].
      cbn [map snd]. now rewrite <- !app_assoc.
    + destruct (skipn_nth_error_nil k vibdisps Hk) as [-> Hnil].
      cbn [combine filter map].
      destruct (lt0 f); rewrite IH, Hnil, combine_nil; cbn [filter map];
        rewrite ?app_nil_r; [|reflexivity].
      now rewrite <- app_assoc.
Qed.

Lemma imaginary_spec (vibfreqs : list float) (vibdisps : list mode) :
  ts_viewer.imaginary vibfreqs vibdisps
  = (filter lt0 vibfreqs,
     map snd (filter negative_pair (combine vibfreqs vibdisps))).
Proof.
  unfold ts_viewer.imaginary, enumerate. now rewrite imaginary_from.
Qed.

Lemma negative_pairs_length (vf : list float) (vd : list mode) :
  (List.length (filter negative_pair (combine vf vd))
   <= List.length (filter lt0 vf))%nat
  /\ ((List.length vf <= List.length vd)%nat ->
      List.length (filter negative_pair (combine vf vd))
      = List.length (filter lt0 vf)).
Proof.
  revert vd. induction vf as [|f vf IH]; intros vd.
  - split; reflexivity.
  - destruct vd as [|d vd].
    + cbn [combine filter List.length]. split; [lia|]. intros Hl. cbn in Hl. lia.
    + cbn [combine filter]. change (negative_pair (f, d)) with (lt0 f).
      destruct (IH vd) as [Hle Heq].
      destruct (lt0 f); cbn [List.length];
        (split; [lia | intros Hl; cbn in Hl; rewrite Heq; lia]).
Qed.

Lemma negative_pairs_zip (vf : list float) (vd : list mode) :
  combine (filter lt0 vf)
          (map snd (filter negative_pair (combine vf vd)))
  = filter negative_pair (combine vf vd).
Proof.
  revert vd. induction vf as [|f vf IH]; intros vd.
  - reflexivity.
  - destruct vd as [|d vd].
    + cbn [combine filter map]. apply combine_nil.
    + cbn [combine filter]. change (negative_pair (f, d)) with (lt0 f).
      destruct (lt0 f); cbn [map snd combine]; now rewrite IH.
Qed.

Lemma negative_pairs_in (vf : list float) (vd : list mode) (m : mode) :
  In m (map snd (filter negative_pair (combine vf vd))) -> In m vd.
Proof.
  intros Hin. apply in_map_iff in Hin as [[f m'] [Heq Hin]].
  cbn in Heq. subst m'. apply filter_In in Hin as [Hin _].
  now apply in_combine_r in Hin.
Qed.

Lemma Atoms_new_shape (E : environment float) (numbers : list Z)
    (positions : list (vec3 float)) (atoms : Atoms float) :
  Atoms_new E numbers positions = Ok atoms ->
  map position atoms = positions
  /\ map symbol atoms = map (chemical_symbols E) numbers
  /\ List.length atoms = List.length numbers.
Proof.
  unfold Atoms_new.
  destruct (Nat.eqb (List.length numbers) (List.length positions)) eqn:Hl;
    [|discriminate].
  apply Nat.eqb_eq in Hl. intros [= <-].
  rewrite !map_map. cbn [position symbol]. repeat split.
  - rewrite (map_combine_snd (fun p => p)) by exact Hl. apply map_id.
  - now apply map_combine_fst.
  - rewrite length_map, length_combine. lia.
Qed.

End Extractor.

Section ExtractorResults.
Context {float : Type} `{PyFloat float}.
#[local] Abbreviation mode := (mode float).

(** The two ways in which [parse_gaussian_output] comes to a structure:
    from cclib's data, or from ASE's reader with no modes at all. *)
Lemma parse_gaussian_output_cases (E : environment float) (log_file : string)
    (lines : list ts_viewer.console_line) (atoms : Atoms float)
    (fs : list float) (ms : list mode) :
  ts_viewer.parse_gaussian_output E log_file = (lines, Ok (Some atoms, fs, ms)) ->
  (exists (d : ccData float) (c : list (vec3 float)) (cs : list (list (vec3 float)))
          (nos : list Z),
      cclib_parse E log_file = Ok d
      /\ atomcoords d = Some (c :: cs)
      /\ atomnos d = Some nos
      /\ Atoms_new E nos (last cs c) = Ok atoms
      /\ (fs, ms) = match vibfreqs d, vibdisps d with
                    | Some vf, Some vd => ts_viewer.imaginary vf vd
                    | _, _ => ([], [])
                    end)
  \/ (read_last E log_file = Ok atoms /\ fs = [] /\ ms = []).
Proof.
  unfold ts_viewer.parse_gaussian_output.
  destruct (ts_viewer.parse_detailed E log_file) as [[[a f] m]|e] eqn:Hd.
  - intros [= <- <- <- <-]. revert Hd. unfold ts_viewer.parse_detailed.
    destruct (cclib_parse E log_file) as [d|e]; cbn [bind]; [|discriminate].
    destruct (atomcoords d) as [[|c cs]|] eqn:Hc.
    + destruct (read_last E log_file) as [a'|e]; cbn [bind]; [|discriminate].
      intros [= <- <- <-]. now right.
    + cbn [last_item bind].
      destruct (atomnos d) as [nos|] eqn:Hn; cbn [getattr bind]; [|discriminate].
      destruct (Atoms_new E nos (last cs c)) as [a'|e] eqn:Ha; cbn [bind];
        [|discriminate].
      intros Heq. left. exists d, c, cs, nos.
      repeat split; try assumption.
      * destruct (vibfreqs d), (vibdisps d);
          try destruct (ts_viewer.imaginary _ _); now injection Heq as <- _ _.
      * destruct (vibfreqs d), (vibdisps d);
          try destruct (ts_viewer.imaginary _ _);
          injection Heq as _ <- <-; reflexivity.
    + destruct (read_last E log_file) as [a'|e]; cbn [bind]; [|discriminate].
      intros [= <- <- <-]. now right.
  - destruct (is_Exception e); [|discriminate].
    destruct (read_last E log_file) as [a'|e']; cbn [bind try_except_all];
      [|discriminate].
    intros [= _ <- <- <-]. now right.
Qed.

(** C3, as amended.  Of any result the extractor returns, the list of
    displacement tables is never longer than the list of imaginary
    frequencies, and the k-th table belongs to the k-th frequency; the two
    lists have the same length when cclib's displacement array is at least
    as long as its frequency array.  Every returned table is one of
    cclib's, so it has one row per atom of the returned structure when
    each of cclib's tables has one row per atomic number. *)
Theorem imaginary_modes_paired (E : environment float) (log_file : string)
    (lines : list ts_viewer.console_line) (atoms : Atoms float)
    (fs : list float) (ms : list mode) :
  ts_viewer.parse_gaussian_output E log_file = (lines, Ok (Some atoms, fs, ms)) ->
  (List.length ms <= List.length fs)%nat
  /\ (forall (k : nat) (m : mode),
        nth_error ms k = Some m ->
        exists (f : float) (d : ccData float) (vf : list float) (vd : list mode),
          nth_error fs k = Some f
          /\ cclib_parse E log_file = Ok d
          /\ vibfreqs d = Some vf /\ vibdisps d = Some vd
          /\ In (f, m) (combine vf vd))
  /\ ((forall (d : ccData float) (vf : list float) (vd : list mode),
          cclib_parse E log_file = Ok d ->
          vibfreqs d = Some vf -> vibdisps d = Some vd ->
          (List.length vf <= List.length vd)%nat) ->
      List.length ms = List.length fs)
  /\ ((forall (d : ccData float) (nos : list Z) (vd : list mode),
          cclib_parse E log_file = Ok d ->
          atomnos d = Some nos -> vibdisps d = Some vd ->
          Forall (fun m => List.length m = List.length nos) vd) ->
      Forall (fun m => List.length m = List.length atoms) ms).
Proof.
  intros Hparse.
  destruct (parse_gaussian_output_cases E log_file lines atoms fs ms Hparse)
    as [[d [c [cs [nos [Hd [Hc [Hn [Ha Hv]]]]]]]]|[_ [-> ->]]].
  2:{ repeat split; try reflexivity; try constructor.
      intros k m Hk. now destruct k. }
  destruct (vibfreqs d) as [vf|] eqn:Hvf, (vibdisps d) as [vd|] eqn:Hvd;
    try (injection Hv as -> ->; repeat split; try reflexivity; try constructor;
         intros k m Hk; now destruct k).
  rewrite imaginary_spec in Hv. injection Hv as -> ->.
  destruct (negative_pairs_length vf vd) as [Hle Heq].
  repeat split.
  - now rewrite length_map.
  - intros k m Hk.
    assert (Hpair : exists f, nth_error
                      (combine (filter lt0 vf)
                         (map snd (filter negative_pair (combine vf vd)))) k
                    = Some (f, m) /\ nth_error (filter lt0 vf) k = Some f).
    { destruct (nth_error (filter lt0 vf) k) as [f|] eqn:Hf.
      - exists f. split; [|reflexivity].
        revert Hf Hk. generalize (filter lt0 vf).
        generalize (map snd (filter negative_pair (combine vf vd))).
        clear. intros l2 l1. revert k l2.
        induction l1 as [|x l1 IH]; intros [|k] [|y l2]; cbn;
          try discriminate.
        + now intros [= ->] [= ->].
        + apply IH.
      - apply nth_error_None in Hf.
        assert (Hsome : nth_error
                          (map snd (filter negative_pair (combine vf vd))) k
                        <> None) by congruence.
        apply nth_error_Some in Hsome. rewrite length_map in Hsome. lia. }
    destruct Hpair as [f [Hpair Hf]].
    rewrite negative_pairs_zip in Hpair. apply nth_error_In in Hpair.
    apply filter_In in Hpair as [Hin _].
    now exists f, d, vf, vd.
  - intros Hcover. rewrite length_map. apply Heq. now apply (Hcover d).
  - intros Hshape. destruct (Atoms_new_shape E nos _ atoms Ha) as [_ [_ Hlen]].
    rewrite Hlen. apply Forall_forall. intros m Hin.
    apply negative_pairs_in in Hin.
    specialize (Hshape d nos vd Hd Hn Hvd).
    now apply (proj1 (Forall_forall _ _) Hshape).
Qed.

End ExtractorResults.

Lemma imaginary_modes_paired_witness :
  ts_viewer.parse_gaussian_output mixed_batch "a_ts.log"
  = ([], Ok (Some water, [water_freq], [water_mode]))
  /\ (List.length [water_mode] <= List.length [water_freq])%nat.
Proof.
  split; [reflexivity|].
  apply (imaginary_modes_paired mixed_batch "a_ts.log" [] water
           [water_freq] [water_mode]).
  reflexivity.
Defined.

(** C3 as stated fails: for a log whose data has two negative frequencies
    and one displacement table the extractor returns two frequencies and
    one table. *)
Lemma short_table_unpaired :
  ts_viewer.parse_gaussian_output mixed_batch "g_saddle.log"
  = ([], Ok (Some water, [water_freq; (-120000000)%Z], [water_mode]))
  /\ List.length [water_freq; (-120000000)%Z] <> List.length [water_mode].
Proof. split; [reflexivity | discriminate]. Qed.



Section FinalFrame.
Context {float : Type} `{PyFloat float}.
#[local] Abbreviation mode := (mode float).




End FinalFrame.



(** ** The batch loop of ts_viewer *)

Section Batch.
Context {float : Type} `{PyFloat float}.
#[local] Abbreviation mode := (mode float).
#[local] Abbreviation loop_state := (@ts_viewer.loop_state float).
#[local] Abbreviation console_line := (@ts_viewer.console_line float).
#[local] Abbreviation card := (@ts_viewer.card float).

Lemma prints_keep (lines : list console_line) (st : loop_state) :
  ts_viewer.cards_html (fold_left (fun s l => ts_viewer.print l s) lines st)
  = ts_viewer.cards_html st
  /\ ts_viewer.counts (fold_left (fun s l => ts_viewer.print l s) lines st)
     = ts_viewer.counts st.
Proof.
  revert st. induction lines as [|l lines IH]; intros st; cbn [fold_left].
  - now split.
  - destruct (IH (ts_viewer.print l st)) as [-> ->]. now split.
Qed.

Lemma len_cases {A : Type} (xs : list A) :
  (xs = [] /\ len xs = 0%Z)
  \/ (exists x, xs = [x] /\ len xs = 1%Z)
  \/ (1 < len xs)%Z.
Proof.
  destruct xs as [|x [|y xs]].
  - now left.
  - right. left. now exists x.
  - right. right. unfold len. cbn [List.length]. lia.
Qed.

Lemma tally_counts (frequencies : list float) (st : loop_state) :
  ts_viewer.counts (ts_viewer.tally frequencies st)
  = counted (outcome_of_count (len frequencies)) (ts_viewer.counts st)
  /\ ts_viewer.cards_html (ts_viewer.tally frequencies st)
     = ts_viewer.cards_html st.
Proof.
  unfold ts_viewer.tally, outcome_of_count.
  destruct (len_cases frequencies) as [[-> Hn]|[[x [-> Hn]]|Hn]].
  - now split.
  - now split.
  - destruct (Z.eqb_spec (len frequencies) 1) as [H1|_]; [lia|].
    destruct (Z.eqb_spec (len frequencies) 0) as [H0|_]; [lia|].
    now split.
Qed.

Lemma make_vibration_card_fields (E : environment float) (i : Z)
    (title : string) (atoms : Atoms float) (frequencies : list float)
    (normal_modes : list mode) (c : card) :
  ts_viewer.make_vibration_card E i title atoms frequencies normal_modes = Ok c ->
  ts_viewer.idx c = i
  /\ ts_viewer.safe_title c = html_escape title
  /\ ts_viewer.n_imaginary c = len frequencies
  /\ ts_viewer.warning_text c = ts_viewer.make_warning_text (len frequencies).
Proof.
  unfold ts_viewer.make_vibration_card.
  destruct (if (len frequencies >? 0)%Z then _ else _) as [v|e];
    cbn [bind]; [|discriminate].
  intros [= <-]. now repeat split.
Qed.

(** What one iteration that does not raise can do: skip the log, count
    a parse error, or append one card. *)
Lemma process_log_done (E : environment float) (i : nat) (log_file : string)
    (st st' : loop_state) :
  ts_viewer.process_log E i log_file st = (st', Ok tt) ->
  (ts_viewer.gaussian_normally_terminated E log_file = Ok false
   /\ ts_viewer.cards_html st' = ts_viewer.cards_html st
   /\ ts_viewer.counts st' = counted SKIPPED_UNTERMINATED (ts_viewer.counts st))
  \/ (ts_viewer.gaussian_normally_terminated E log_file = Ok true
      /\ (exists lines fs ms,
             ts_viewer.parse_gaussian_output E log_file = (lines, Ok (None, fs, ms)))
      /\ ts_viewer.cards_html st' = ts_viewer.cards_html st
      /\ ts_viewer.counts st' = counted PARSE_ERROR (ts_viewer.counts st))
  \/ (ts_viewer.gaussian_normally_terminated E log_file = Ok true
      /\ exists lines atoms fs ms c,
           ts_viewer.parse_gaussian_output E log_file
           = (lines, Ok (Some atoms, fs, ms))
           /\ ts_viewer.make_vibration_card E
                (Z.of_nat i - ts_viewer.n_skipped (ts_viewer.counts st))
                log_file atoms fs ms = Ok c
           /\ ts_viewer.cards_html st' = (ts_viewer.cards_html st ++ [c])%list
           /\ ts_viewer.counts st'
              = counted (outcome_of_count (len fs)) (ts_viewer.counts st)).
Proof.
  unfold ts_viewer.process_log.
  destruct (ts_viewer.gaussian_normally_terminated E log_file) as [[|]|e];
    [| |discriminate].
  - destruct (ts_viewer.parse_gaussian_output E log_file)
      as [lines [[[[atoms|] fs] ms]|e]] eqn:Hparse; [| |discriminate].
    + set (st1 := fold_left _ lines _).
      destruct (tally_counts fs st1) as [Hcounts Hcards].
      destruct (prints_keep lines (ts_viewer.print (ts_viewer.Processing log_file) st))
        as [Hc1 Hn1]. fold st1 in Hc1, Hn1. cbn in Hc1, Hn1.
      assert (Hskip : ts_viewer.n_skipped (ts_viewer.counts (ts_viewer.tally fs st1))
                      = ts_viewer.n_skipped (ts_viewer.counts st)).
      { rewrite Hcounts, Hn1. unfold outcome_of_count.
        now destruct (len fs =? 0)%Z, (len fs =? 1)%Z. }
      rewrite Hskip.
      destruct (ts_viewer.make_vibration_card E _ log_file atoms fs ms)
        as [c|e] eqn:Hcard; [|discriminate].
      intros [= <-]. right. right. split; [reflexivity|].
      exists lines, atoms, fs, ms, c. repeat split; try reflexivity.
      * exact Hcard.
      * cbn. now rewrite Hcards, Hc1.
      * cbn. now rewrite Hcounts, Hn1.
    + intros [= <-]. right. left. split; [reflexivity|].
      split; [now exists lines, fs, ms|].
      destruct (prints_keep lines (ts_viewer.print (ts_viewer.Processing log_file) st))
        as [Hc1 Hn1].
      cbn. split; [exact Hc1 | now rewrite Hn1].
  - destruct (ts_viewer._tail_contains E log_file "Error termination" 600)
      as [has_error|e]; [|discriminate].
    intros [= <-]. left. now repeat split.
Qed.


End Batch.


(** ** What can stop the batch *)

Lemma mapM_ok {A B : Type} (f : A -> result B) (xs : list A) :
  (forall x, In x xs -> exists y, f x = Ok y) ->
  exists ys, mapM f xs = Ok ys.
Proof.
  induction xs as [|x xs IH]; intros Hall; cbn [mapM].
  - now exists [].
  - destruct (Hall x (or_introl eq_refl)) as [y ->].
    destruct IH as [ys ->]; [intros x' Hx'; apply Hall; now right|].
    cbn [bind]. now eexists.
Qed.

Lemma enumerate_bound {A : Type} (xs : list A) (j : nat) (x : A) :
  In (j, x) (enumerate xs) -> (j < List.length xs)%nat.
Proof.
  intros Hin. apply in_combine_l in Hin. apply in_seq in Hin. lia.
Qed.

Section NoRaise.
Context {float : Type} `{PyFloat float}.
#[local] Abbreviation mode := (mode float).
#[local] Abbreviation loop_state := (@ts_viewer.loop_state float).

Lemma vibration_script_ok (atoms : Atoms float) (frequencies : list float)
    (normal_modes : list mode) :
  Forall (fun m : mode => (List.length atoms <= List.length m)%nat) normal_modes ->
  exists r, ts_viewer.create_jsmol_vibration_script atoms frequencies normal_modes
            = Ok r.
Proof.
  intros Hrows. unfold ts_viewer.create_jsmol_vibration_script.
  destruct frequencies as [|f fs]; [now eexists|].
  destruct normal_modes as [|m ms]; [now eexists|].
  destruct (mapM_ok (ts_viewer.vibration_frame (len atoms)
                       (map ts_viewer.atom_line atoms))
                    (combine (f :: fs) (m :: ms))) as [frames ->].
  - intros [f' m'] Hin. apply in_combine_r in Hin.
    pose proof (proj1 (Forall_forall _ _) Hrows m' Hin) as Hm. cbn beta in Hm.
    unfold ts_viewer.vibration_frame, ts_viewer.vibration_rows. cbn [snd fst].
    destruct (mapM_ok
                (fun jc : nat * string =>
                   match nth_error m' (fst jc) with
                   | Some (dx, dy, dz) =>
                       Ok (snd jc ++ " 0 " ++ format_6f dx ++ " "
                                  ++ format_6f dy ++ " " ++ format_6f dz)
                   | None => Raise IndexError
                   end)
                (enumerate (map ts_viewer.atom_line atoms))) as [rows ->].
    + intros [j c] Hj. apply enumerate_bound in Hj. rewrite length_map in Hj.
      cbn [fst snd].
      destruct (nth_error m' j) as [[[dx dy] dz]|] eqn:Hnth; [now eexists|].
      apply nth_error_None in Hnth. lia.
    + cbn [bind]. now eexists.
  - cbn [bind]. now eexists.
Qed.

Lemma make_vibration_card_ok (E : environment float) (i : Z) (title : string)
    (atoms : Atoms float) (frequencies : list float) (normal_modes : list mode) :
  Forall (fun m : mode => (List.length atoms <= List.length m)%nat) normal_modes ->
  exists c, ts_viewer.make_vibration_card E i title atoms frequencies normal_modes
            = Ok c.
Proof.
  intros Hrows. unfold ts_viewer.make_vibration_card.
  destruct (len frequencies >? 0)%Z.
  - destruct (vibration_script_ok atoms frequencies normal_modes Hrows)
      as [r ->]. cbn [bind]. now eexists.
  - cbn [bind]. now eexists.
Qed.

Lemma read_last_ordinary (E : environment float) (path : string) (e : exn) :
  ordinary_failures E -> read_last E path = Raise e -> is_Exception e = true.
Proof.
  intros Hord. unfold read_last.
  destruct (ase_frames E path) as [frames|e'] eqn:Hf; cbn [bind].
  - destruct frames; [now intros [= <-] | discriminate].
  - intros [= <-]. exact (proj2 (Hord path e') Hf).
Qed.

Lemma parse_detailed_ordinary (E : environment float) (log_file : string)
    (e : exn) :
  ordinary_failures E ->
  ts_viewer.parse_detailed E log_file = Raise e -> is_Exception e = true.
Proof.
  intros Hord. unfold ts_viewer.parse_detailed.
  destruct (cclib_parse E log_file) as [d|e'] eqn:Hd; cbn [bind].
  2:{ intros [= <-]. exact (proj1 (Hord log_file e') Hd). }
  destruct (atomcoords d) as [[|c cs]|].
  - destruct (read_last E log_file) as [a|e'] eqn:Hr; cbn [bind].
    + discriminate.
    + intros [= <-]. now apply (read_last_ordinary E log_file).
  - cbn [last_item bind].
    destruct (atomnos d) as [nos|]; cbn [getattr bind]; [|now intros [= <-]].
    unfold Atoms_new. destruct (Nat.eqb _ _); cbn [bind].
    + destruct (vibfreqs d), (vibdisps d);
        try destruct (ts_viewer.imaginary _ _); discriminate.
    + now intros [= <-].
  - destruct (read_last E log_file) as [a|e'] eqn:Hr; cbn [bind].
    + discriminate.
    + intros [= <-]. now apply (read_last_ordinary E log_file).
Qed.

Lemma parse_gaussian_output_returns (E : environment float) (log_file : string) :
  ordinary_failures E ->
  exists lines r, ts_viewer.parse_gaussian_output E log_file = (lines, Ok r).
Proof.
  intros Hord. unfold ts_viewer.parse_gaussian_output.
  destruct (ts_viewer.parse_detailed E log_file) as [[[a f] m]|e] eqn:Hd.
  - now eexists _, _.
  - rewrite (parse_detailed_ordinary E log_file e Hord Hd).
    destruct (read_last E log_file); cbn [bind try_except_all]; now eexists _, _.
Qed.

(** With libraries that fail in the ordinary way and displacement tables
    that cover the atoms, no iteration of the loop raises. *)
Lemma process_log_returns (E : environment float) (i : nat) (log_file : string)
    (st : loop_state) :
  ordinary_failures E -> tables_cover_atoms E ->
  exists st', ts_viewer.process_log E i log_file st = (st', Ok tt).
Proof.
  intros Hord Hcover. unfold ts_viewer.process_log.
  destruct (gaussian_normally_terminated_returns E log_file) as [usable ->].
  destruct usable.
  - destruct (parse_gaussian_output_returns E log_file Hord)
      as [lines [[[[atoms|] fs] ms] Hparse]]; rewrite Hparse;
      [|now eexists].
    assert (Hrows : Forall (fun m : mode =>
                              (List.length atoms <= List.length m)%nat) ms).
    { destruct (parse_gaussian_output_cases E log_file lines atoms fs ms Hparse)
        as [[d [c [cs [nos [Hd [Hc [Hn [Ha Hv]]]]]]]]|[_ [_ ->]]];
        [|constructor].
      destruct (Atoms_new_shape E nos _ atoms Ha) as [_ [_ Hlen]].
      destruct (vibfreqs d) as [vf|], (vibdisps d) as [vd|] eqn:Hvd;
        try (injection Hv as _ ->; constructor).
      rewrite imaginary_spec in Hv. injection Hv as _ ->.
      apply Forall_forall. intros m Hin. apply negative_pairs_in in Hin.
      rewrite Hlen.
      now apply (proj1 (Forall_forall _ _) (Hcover log_file d nos vd Hd Hn Hvd)). }
    match goal with
    | |- context [ts_viewer.make_vibration_card E ?j log_file atoms fs ms] =>
        destruct (make_vibration_card_ok E j log_file atoms fs ms Hrows)
          as [c ->]
    end.
    now eexists.
  - destruct (tail_contains_returns E log_file "Error termination" 600%Z)
      as [found ->].
    now eexists.
Qed.

Lemma process_logs_returns (E : environment float)
    (items : list (nat * string)) (st : loop_state) :
  ordinary_failures E -> tables_cover_atoms E ->
  exists st', ts_viewer.process_logs E items st = (st', Ok tt).
Proof.
  intros Hord Hcover. revert st.
  induction items as [|[i log_file] items IH]; intros st; cbn [ts_viewer.process_logs].
  - now eexists.
  - destruct (process_log_returns E i log_file st Hord Hcover) as [st' ->].
    apply IH.
Qed.

End NoRaise.

Section Fatal.
Context {float : Type} `{PyFloat float}.
#[local] Abbreviation loop_state := (@ts_viewer.loop_state float).
#[local] Abbreviation console_line := (@ts_viewer.console_line float).

Lemma prints_console (lines : list console_line) (st : loop_state) :
  ts_viewer.console (fold_left (fun s l => ts_viewer.print l s) lines st)
  = (ts_viewer.console st ++ lines)%list.
Proof.
  revert st. induction lines as [|l lines IH]; intros st; cbn [fold_left].
  - now rewrite app_nil_r.
  - rewrite IH. cbn. now rewrite <- app_assoc.
Qed.

Lemma len_app_one {A : Type} (xs : list A) (x : A) :
  len (xs ++ [x]) = (len xs + 1)%Z.
Proof. unfold len. rewrite length_app. cbn [List.length]. lia. Qed.

Lemma process_log_accounts (E : environment float) (i : nat)
    (log_file : string) (st st' : loop_state) :
  ts_viewer.process_log E i log_file st = (st', Ok tt) ->
  processed st' = (processed st + 1)%Z.
Proof.
  intros Hstep. unfold processed.
  destruct (process_log_done E i log_file st st' Hstep)
    as [[_ [-> ->]]|[[_ [_ [-> ->]]]|[_ Hcard]]].
  - cbn. lia.
  - cbn. lia.
  - destruct Hcard as [lines [atoms [fs [ms [c [_ [_ [-> ->]]]]]]]].
    rewrite len_app_one. unfold outcome_of_count.
    destruct (len fs =? 0)%Z; [cbn; lia|].
    destruct (len fs =? 1)%Z; cbn; lia.
Qed.

Lemma process_logs_accounts (E : environment float)
    (items : list (nat * string)) (st st' : loop_state) :
  ts_viewer.process_logs E items st = (st', Ok tt) ->
  processed st' = (processed st + len items)%Z.
Proof.
  revert st. induction items as [|[i log_file] items IH]; intros st;
    cbn [ts_viewer.process_logs].
  - intros [= <-]. unfold len. cbn. lia.
  - destruct (ts_viewer.process_log E i log_file st) as [st1 [[]|e]] eqn:Hstep;
      [|discriminate].
    intros Hrest. rewrite (IH st1 Hrest), (process_log_accounts E i log_file st st1 Hstep).
    unfold len. cbn [List.length]. lia.
Qed.

(** X21.  A log that fails the termination test, and a log that cannot
    be parsed, end their iteration normally: one counter goes up, a line
    is printed, no card is added, and the loop goes on.  Whenever the run
    does not end normally it writes no document.  Under two assumptions
    on the libraries, that they fail with ordinary exceptions only and
    that every displacement table has a row for each atom (printing and
    writing the document are taken to succeed), a run ends in exactly one
    of three ways: no log was found and it exits with the first message
    before processing; logs were found, none gave a card (each was
    skipped or failed) and it exits with the second message; or it writes
    the document with the cards.  Without the second assumption the run
    can end with IndexError, as [abort_batch] shows. *)
Theorem batch_fatal_only_when_nothing_to_show (E : environment float) :
  (forall (i : nat) (log_file : string) (st : loop_state),
      ts_viewer.gaussian_normally_terminated E log_file = Ok false ->
      exists (st' : loop_state) (line : console_line),
        ts_viewer.process_log E i log_file st = (st', Ok tt)
        /\ ts_viewer.cards_html st' = ts_viewer.cards_html st
        /\ ts_viewer.counts st'
           = counted SKIPPED_UNTERMINATED (ts_viewer.counts st)
        /\ ts_viewer.console st'
           = (ts_viewer.console st
              ++ [ts_viewer.Processing log_file; line])%list
        /\ (line = ts_viewer.SkipErrorTerminated log_file
            \/ line = ts_viewer.SkipNotTerminated log_file))
  /\ (forall (i : nat) (log_file : string) (st : loop_state)
             (lines : list console_line) (fs : list float)
             (ms : list (mode float)),
        ts_viewer.gaussian_normally_terminated E log_file = Ok true ->
        ts_viewer.parse_gaussian_output E log_file = (lines, Ok (None, fs, ms)) ->
        exists st' : loop_state,
          ts_viewer.process_log E i log_file st = (st', Ok tt)
          /\ ts_viewer.cards_html st' = ts_viewer.cards_html st
          /\ ts_viewer.counts st' = counted PARSE_ERROR (ts_viewer.counts st)
          /\ ts_viewer.console st'
             = (ts_viewer.console st
                ++ [ts_viewer.Processing log_file] ++ lines
                ++ [ts_viewer.FailedToParse log_file])%list)
  /\ (ts_viewer.ended (ts_viewer.main E) <> Ok tt ->
      ts_viewer.written (ts_viewer.main E) = None)
  /\ (ordinary_failures E -> tables_cover_atoms E ->
      (discovered_logs E = []
       /\ ts_viewer.main E
          = {| ts_viewer.printed := [];
               ts_viewer.written := None;
               ts_viewer.ended :=
                 Raise (SystemExit "No .log files found in current folder.") |})
      \/ (discovered_logs E <> []
          /\ exists st : loop_state,
               ts_viewer.process_logs E (enumerate (discovered_logs E))
                 fresh_state = (st, Ok tt)
               /\ processed st = len (discovered_logs E)
               /\ ((ts_viewer.cards_html st = []
                    /\ (ts_viewer.n_skipped (ts_viewer.counts st)
                        + ts_viewer.n_errors (ts_viewer.counts st)
                        = len (discovered_logs E))%Z
                    /\ ts_viewer.main E
                       = {| ts_viewer.printed := ts_viewer.console st;
                            ts_viewer.written := None;
                            ts_viewer.ended :=
                              Raise (SystemExit
                                       "No valid structures found in log files.") |})
                   \/ (ts_viewer.cards_html st <> []
                       /\ ts_viewer.written (ts_viewer.main E)
                          = Some ("gaussian_ts_analysis.html",
                                  ts_viewer.cards_html st)
                       /\ ts_viewer.ended (ts_viewer.main E) = Ok tt)))).
Proof.
  split; [|split; [|split]].
  - intros i log_file st Hterm. unfold ts_viewer.process_log. rewrite Hterm.
    destruct (tail_contains_returns E log_file "Error termination" 600%Z)
      as [found ->].
    eexists _, _. split; [reflexivity|]. repeat split.
    + cbn. now rewrite <- app_assoc.
    + destruct found; [now left | now right].
  - intros i log_file st lines fs ms Hterm Hparse.
    unfold ts_viewer.process_log. rewrite Hterm, Hparse.
    eexists. split; [reflexivity|].
    destruct (prints_keep lines (ts_viewer.print (ts_viewer.Processing log_file) st))
      as [Hc Hn].
    cbn. rewrite Hc, Hn, prints_console. cbn.
    repeat split. now rewrite <- !app_assoc.
  - unfold ts_viewer.main.
    destruct (sorted String.ltb (glob E "*.log")) as [|l logs]; [reflexivity|].
    destruct (ts_viewer.process_logs E _ _) as [st [[]|e]]; [|reflexivity].
    destruct (ts_viewer.cards_html st); [reflexivity|].
    cbn. congruence.
  - intros Hord Hcover. unfold ts_viewer.main. fold (discovered_logs E).
    destruct (discovered_logs E) as [|l logs] eqn:Hlogs; [now left|].
    right. split; [discriminate|].
    destruct (process_logs_returns E (enumerate (l :: logs)) fresh_state
                Hord Hcover) as [st Hloop].
    exists st. split; [exact Hloop|].
    pose proof (process_logs_accounts E _ _ _ Hloop) as Hacc.
    assert (Hlen : len (enumerate (l :: logs)) = len (l :: logs)).
    { unfold len, enumerate. now rewrite length_combine, length_seq, Nat.min_id. }
    rewrite Hlen in Hacc. change (processed fresh_state) with 0%Z in Hacc.
    split; [lia|].
    change {| ts_viewer.cards_html := []; ts_viewer.counts := ts_viewer.zero_counts;
              ts_viewer.console := [ts_viewer.Rule] |}
      with (@fresh_state float).
    rewrite Hloop.
    destruct (ts_viewer.cards_html st) as [|c cards] eqn:Hcards.
    + left. split; [reflexivity|]. split; [|reflexivity].
      unfold processed in Hacc. rewrite Hcards in Hacc.
      change (len (@nil (@ts_viewer.card float))) with 0%Z in Hacc. lia.
    + right. split; [discriminate|]. split; reflexivity.
Qed.

End Fatal.

Lemma world_well_behaved (pattern : string) (dir : list sample_file) :
  Forall well_behaved dir ->
  ordinary_failures (world pattern dir) /\ tables_cover_atoms (world pattern dir).
Proof.
  intros Hdir. split.
  - intros path e. cbn [world cclib_parse ase_frames].
    induction Hdir as [|f dir [Hdata [Hframes _]] _ IH]; cbn [find_file].
    + split; now intros [= <-].
    + destruct (String.eqb (file_name f) path); [|exact IH].
      split; intros Heq; [rewrite Heq in Hdata | rewrite Heq in Hframes];
        assumption.
  - intros path d nos vd. cbn [world cclib_parse].
    induction Hdir as [|f dir [_ [_ Hcover]] _ IH]; cbn [find_file].
    + discriminate.
    + destruct (String.eqb (file_name f) path); [|exact IH].
      intros Hd Hn Hv. rewrite Hd, Hn, Hv in Hcover. exact Hcover.
Qed.

Lemma hopeless_batch_well_behaved :
  ordinary_failures hopeless_batch /\ tables_cover_atoms hopeless_batch.
Proof.
  apply world_well_behaved.
  repeat (constructor; [repeat split; cbn; repeat constructor|]).
  constructor.
Qed.

Lemma batch_fatal_only_when_nothing_to_show_witness :
  ordinary_failures hopeless_batch
  /\ tables_cover_atoms hopeless_batch
  /\ ts_viewer.ended (ts_viewer.main hopeless_batch)
     = Raise (SystemExit "No valid structures found in log files.")
  /\ ts_viewer.written (ts_viewer.main hopeless_batch) = None
  /\ ts_viewer.written (ts_viewer.main nothing) = None.
Proof.
  destruct hopeless_batch_well_behaved as [Hord Hcover].
  split; [exact Hord|]. split; [exact Hcover|].
  destruct (batch_fatal_only_when_nothing_to_show hopeless_batch)
    as [_ [_ [_ Hends]]].
  split; [|split].
  - destruct (Hends Hord Hcover)
      as [[Hnone _]|[_ [st [Hloop [_ [[_ [_ Hmain]]|[Hcards _]]]]]]].
    + discriminate Hnone.
    + now rewrite Hmain.
    + vm_compute in Hloop. injection Hloop as <-. now contradiction Hcards.
  - destruct (Hends Hord Hcover)
      as [[Hnone _]|[_ [st [Hloop [_ [[_ [_ Hmain]]|[Hcards _]]]]]]].
    + discriminate Hnone.
    + now rewrite Hmain.
    + vm_compute in Hloop. injection Hloop as <-. now contradiction Hcards.
  - apply (proj1 (proj2 (proj2 (batch_fatal_only_when_nothing_to_show nothing)))).
    discriminate.
Defined.

(** ** A log that stops the batch *)

Lemma world_ordinary (pattern : string) (dir : list sample_file) :
  Forall (fun f => ordinary_result (file_data f)
                   /\ ordinary_result (file_frames f)) dir ->
  ordinary_failures (world pattern dir).
Proof.
  intros Hdir path e. cbn [world cclib_parse ase_frames].
  induction Hdir as [|f dir [Hdata Hframes] _ IH]; cbn [find_file].
  - split; now intros [= <-].
  - destruct (String.eqb (file_name f) path); [|exact IH].
    split; intros Heq; [rewrite Heq in Hdata | rewrite Heq in Hframes];
      assumption.
Qed.

(** C9 fails on the code.  A failure over one log can stop the batch, and
    the run can end fatally although there is something to show.  In the
    folder with a_cut_table.log and f_min.log both logs end normally and
    both are parsed; no library call fails.  The displacement table of
    the first log lacks the row of its last atom, so building its card
    raises IndexError, which nothing catches: the run ends there, the
    second log is never looked at although it gives a card, and no
    document is written. *)
Theorem short_table_aborts_batch :
  ordinary_failures abort_batch
  /\ discovered_logs abort_batch = ["a_cut_table.log"; "f_min.log"]
  /\ ts_viewer.gaussian_normally_terminated abort_batch "a_cut_table.log"
     = Ok true
  /\ ts_viewer.parse_gaussian_output abort_batch "a_cut_table.log"
     = ([], Ok (Some water, [water_freq], [cut_mode]))
  /\ yields_card abort_batch "f_min.log" = true
  /\ ts_viewer.main abort_batch
     = {| ts_viewer.printed :=
            [ts_viewer.Rule; ts_viewer.Processing "a_cut_table.log";
             ts_viewer.ValidTransitionState water_freq];
          ts_viewer.written := None;
          ts_viewer.ended := Raise IndexError |}.
Proof.
  split.
  { apply world_ordinary. repeat (constructor; [split; exact I|]). constructor. }
  repeat split.
Qed.

(** ** The natural order of file names *)

Lemma string_compare_refl (s : string) : String.compare s s = Eq.
Proof. now apply OrderedTypeEx.String_as_OT.cmp_eq. Qed.

Lemma chunk_compare_eq (x y : xyz_viewer.chunk) :
  chunk_compare x y = Eq <-> x = y.
Proof.
  destruct x as [a|a], y as [b|b]; cbn; try (split; discriminate).
  - rewrite Z.compare_eq_iff. split; congruence.
  - rewrite OrderedTypeEx.String_as_OT.cmp_eq. split; congruence.
Qed.

Lemma chunk_compare_antisym (x y : xyz_viewer.chunk) :
  chunk_compare x y = CompOpp (chunk_compare y x).
Proof.
  destruct x as [a|a], y as [b|b]; cbn; try reflexivity.
  - apply Z.compare_antisym.
  - apply OrderedTypeEx.String_as_OT.cmp_antisym.
Qed.

Lemma chunk_compare_trans (x y z : xyz_viewer.chunk) :
  chunk_compare x y = Lt -> chunk_compare y z = Lt -> chunk_compare x z = Lt.
Proof.
  destruct x as [a|a], y as [b|b], z as [c|c]; cbn; try congruence.
  - rewrite !Z.compare_lt_iff. lia.
  - intros Hab Hbc.
    apply (proj2 (OrderedTypeEx.String_as_OT.cmp_lt a c)).
    apply (OrderedTypeEx.String_as_OT.lt_trans a b c);
      now apply OrderedTypeEx.String_as_OT.cmp_lt.
Qed.

Lemma key_compare_eq (a b : list xyz_viewer.chunk) :
  key_compare a b = Eq <-> a = b.
Proof.
  revert b. induction a as [|x a IH]; intros [|y b]; cbn;
    try (split; [reflexivity || discriminate | reflexivity || discriminate]).
  destruct (chunk_compare x y) eqn:Hxy.
  - apply chunk_compare_eq in Hxy as ->. rewrite IH. split; congruence.
  - split; [discriminate|]. intros [= -> _].
    now rewrite (proj2 (chunk_compare_eq y y) eq_refl) in Hxy.
  - split; [discriminate|]. intros [= -> _].
    now rewrite (proj2 (chunk_compare_eq y y) eq_refl) in Hxy.
Qed.

Lemma key_compare_antisym (a b : list xyz_viewer.chunk) :
  key_compare a b = CompOpp (key_compare b a).
Proof.
  revert b. induction a as [|x a IH]; intros [|y b]; cbn; try reflexivity.
  rewrite (chunk_compare_antisym x y).
  destruct (chunk_compare y x); cbn; [apply IH | reflexivity | reflexivity].
Qed.

Lemma key_compare_trans (a b c : list xyz_viewer.chunk) :
  key_compare a b = Lt -> key_compare b c = Lt -> key_compare a c = Lt.
Proof.
  revert b c. induction a as [|x a IH]; intros [|y b] [|z c]; cbn;
    try congruence.
  destruct (chunk_compare x y) eqn:Hxy; try discriminate.
  - apply chunk_compare_eq in Hxy as ->.
    destruct (chunk_compare y z); try congruence. apply IH.
  - intros _. destruct (chunk_compare y z) eqn:Hyz; try discriminate.
    + apply chunk_compare_eq in Hyz as <-. now rewrite Hxy.
    + now rewrite (chunk_compare_trans x y z Hxy Hyz).
Qed.

Lemma key_le_trans (a b c : list xyz_viewer.chunk) :
  key_compare a b <> Gt -> key_compare b c <> Gt -> key_compare a c <> Gt.
Proof.
  intros Hab Hbc.
  destruct (key_compare a b) eqn:Eab; [| |contradiction].
  - now apply key_compare_eq in Eab as ->.
  - destruct (key_compare b c) eqn:Ebc; [| |contradiction].
    + apply key_compare_eq in Ebc as <-. now rewrite Eab.
    + now rewrite (key_compare_trans a b c Eab Ebc).
Qed.

Lemma key_lt_alternates (text_next : bool) (a b : list xyz_viewer.chunk) :
  alternates text_next a = true -> alternates text_next b = true ->
  xyz_viewer.key_lt a b
  = Ok (match key_compare a b with Lt => true | _ => false end).
Proof.
  revert text_next b. induction a as [|x a IH]; intros text_next [|y b];
    cbn [xyz_viewer.key_lt key_compare]; try reflexivity.
  intros Ha Hb.
  destruct x as [m|s], y as [n|t], text_next; cbn in Ha, Hb; try discriminate.
  - cbn [xyz_viewer.chunk_eqb xyz_viewer.chunk_lt chunk_compare].
    destruct (Z.eqb_spec m n) as [->|Hmn].
    + rewrite Z.compare_refl. now apply (IH true).
    + unfold Z.ltb. destruct (Z.compare_spec m n); [contradiction| |]; reflexivity.
  - cbn [xyz_viewer.chunk_eqb xyz_viewer.chunk_lt chunk_compare].
    destruct (String.eqb_spec s t) as [->|Hst].
    + rewrite string_compare_refl. now apply (IH false).
    + unfold String.ltb. destruct (String.compare s t) eqn:Hc; try reflexivity.
      now apply OrderedTypeEx.String_as_OT.cmp_eq in Hc.
Qed.

Lemma decimal_run_all_digits (d : string) :
  decimal_run d = true -> all_digits d = true /\ d <> EmptyString.
Proof. destruct d; [discriminate | now split]. Qed.

Lemma no_digits_not_decimal (t : string) :
  no_digits t = true -> decimal_run t = false.
Proof.
  destruct t as [|c t]; [reflexivity|]. cbn.
  intros Ht. apply andb_true_iff in Ht as [Hc _].
  apply negb_true_iff in Hc. now rewrite Hc.
Qed.

Lemma re_split_digits_shape (s : string) :
  exists (t : string) (more : list string),
    xyz_viewer.re_split_digits s = t :: more
    /\ no_digits t = true
    /\ digit_runs more = true
    /\ (xyz_viewer.starts_with_digit s = true -> t = EmptyString /\ more <> []).
Proof.
  induction s as [|c rest IH].
  - exists EmptyString, []. now repeat split.
  - destruct IH as [t [more [Heq [Ht [Hmore Hstart]]]]].
    cbn [xyz_viewer.re_split_digits xyz_viewer.starts_with_digit]. rewrite Heq.
    destruct (is_digit c) eqn:Hc.
    + destruct (xyz_viewer.starts_with_digit rest) eqn:Hrest.
      * destruct (Hstart eq_refl) as [-> Hne].
        destruct more as [|d [|t' rest']]; try easy.
        cbn [digit_runs] in Hmore.
        apply andb_true_iff in Hmore as [Hmore Hrest'].
        apply andb_true_iff in Hmore as [Hd Ht'].
        destruct (decimal_run_all_digits d Hd) as [Hall _].
        exists EmptyString, (String c d :: t' :: rest').
        repeat split; try easy.
        cbn [digit_runs decimal_run all_digits].
        now rewrite Hc, Hall, Ht', Hrest'.
      * exists EmptyString, (char c :: t :: more).
        repeat split; try easy.
        cbn [digit_runs decimal_run all_digits char].
        now rewrite Hc, Ht, Hmore.
    + exists (String c t), more. repeat split; try easy.
      cbn [no_digits]. now rewrite Hc, Ht.
Qed.

Lemma digit_runs_alternate (f : string -> xyz_viewer.chunk) (more : list string) :
  (forall d, decimal_run d = true -> exists n, f d = xyz_viewer.Number n) ->
  (forall t, no_digits t = true -> exists u, f t = xyz_viewer.Text u) ->
  digit_runs more = true -> alternates false (map f more) = true.
Proof.
  intros Hnum Htext.
  assert (Hgen : forall n more, (List.length more <= n)%nat ->
                   digit_runs more = true ->
                   alternates false (map f more) = true).
  { clear more. induction n as [|n IH]; intros more Hlen Hruns.
    - destruct more; [reflexivity | cbn in Hlen; lia].
    - destruct more as [|d [|t rest]]; [reflexivity | discriminate |].
      cbn [digit_runs] in Hruns.
      apply andb_true_iff in Hruns as [Hruns Hrest].
      apply andb_true_iff in Hruns as [Hd Ht].
      destruct (Hnum d Hd) as [m Hm]. destruct (Htext t Ht) as [u Hu].
      cbn [map alternates]. rewrite Hm, Hu. cbn.
      apply IH; [cbn in Hlen; lia | exact Hrest]. }
  now apply (Hgen (List.length more)).
Qed.

(** *** When a name has a key *)

Lemma all_digits_all_isdigit (s : string) :
  all_digits s = true -> xyz_viewer.all_isdigit s = true.
Proof.
  induction s as [|c s IH]; [reflexivity|].
  cbn [all_digits xyz_viewer.all_isdigit]. intros Hs.
  apply andb_true_iff in Hs as [Hc Hs].
  unfold xyz_viewer.isdigit_char. now rewrite Hc, (IH Hs).
Qed.

Lemma decimal_run_isdigit (d : string) :
  decimal_run d = true -> xyz_viewer.isdigit d = true.
Proof.
  destruct d as [|c d]; [discriminate|].
  cbn [decimal_run xyz_viewer.isdigit]. apply all_digits_all_isdigit.
Qed.

Lemma int_decimal_run (d : string) :
  decimal_run d = true -> xyz_viewer.int d = Ok (xyz_viewer.int_digits 0 d).
Proof.
  destruct d as [|c d]; [discriminate|].
  cbn [decimal_run xyz_viewer.int]. now intros ->.
Qed.

Lemma int_not_decimal (d : string) :
  decimal_run d = false -> xyz_viewer.int d = Raise ValueError.
Proof.
  destruct d as [|c d]; [reflexivity|].
  cbn [decimal_run xyz_viewer.int]. now intros ->.
Qed.

(** What [_natural_key] makes of one piece *)
Lemma piece_key (piece : string) :
  (if xyz_viewer.isdigit piece
   then n <- xyz_viewer.int piece ;; Ok (xyz_viewer.Number n)
   else Ok (xyz_viewer.Text (xyz_viewer.lower piece)))
  = if odd_piece piece then Raise ValueError else Ok (chunk_of piece).
Proof.
  unfold odd_piece, chunk_of.
  destruct (decimal_run piece) eqn:Hd.
  - rewrite (decimal_run_isdigit piece Hd), (int_decimal_run piece Hd).
    reflexivity.
  - destruct (xyz_viewer.isdigit piece); [|reflexivity].
    now rewrite (int_not_decimal piece Hd).
Qed.

Lemma mapM_total {A B : Type} (f : A -> result B) (g : A -> B) (xs : list A) :
  (forall x, In x xs -> f x = Ok (g x)) -> mapM f xs = Ok (map g xs).
Proof.
  induction xs as [|x xs IH]; intros Hall; [reflexivity|].
  cbn [mapM map]. rewrite (Hall x (or_introl eq_refl)).
  rewrite IH by (intros x' Hx'; apply Hall; now right). reflexivity.
Qed.

Lemma mapM_raise_one {A B : Type} (f : A -> result B) (e : exn) (xs : list A) :
  (forall x, In x xs -> (exists y, f x = Ok y) \/ f x = Raise e) ->
  (exists x, In x xs /\ f x = Raise e) ->
  mapM f xs = Raise e.
Proof.
  induction xs as [|x xs IH]; intros Hall [x0 [Hin Hx0]]; [contradiction|].
  cbn [mapM].
  destruct (Hall x (or_introl eq_refl)) as [[y Hy]|Hx]; [|now rewrite Hx].
  rewrite Hy. cbn [bind].
  rewrite IH; [reflexivity | intros x' Hx'; apply Hall; now right|].
  destruct Hin as [->|Hin]; [congruence | now exists x0].
Qed.

Lemma mapM_ext {A B : Type} (f g : A -> result B) (xs : list A) :
  (forall x, f x = g x) -> mapM f xs = mapM g xs.
Proof.
  intros Hfg. induction xs as [|x xs IH]; [reflexivity|].
  cbn [mapM]. now rewrite Hfg, IH.
Qed.

Lemma mapM_map {A B C : Type} (f : B -> result C) (h : A -> B) (xs : list A) :
  mapM f (map h xs) = mapM (fun x => f (h x)) xs.
Proof.
  induction xs as [|x xs IH]; [reflexivity|].
  cbn [mapM map]. now rewrite IH.
Qed.

Lemma natural_key_cases (path : string) :
  xyz_viewer._natural_key path
  = if key_fails path then Raise ValueError
    else Ok (map chunk_of (xyz_viewer.re_split_digits (basename path))).
Proof.
  unfold xyz_viewer._natural_key, key_fails.
  rewrite (mapM_ext _ (fun piece => if odd_piece piece then Raise ValueError
                                    else Ok (chunk_of piece)))
    by exact piece_key.
  destruct (existsb odd_piece _) eqn:Hodd.
  - apply mapM_raise_one.
    + intros piece _. destruct (odd_piece piece); [now right | left; now eexists].
    + apply existsb_exists in Hodd as [piece [Hin Hp]].
      exists piece. split; [exact Hin | now rewrite Hp].
  - apply mapM_total. intros piece Hin.
    destruct (odd_piece piece) eqn:Hp; [|reflexivity].
    assert (Hex : existsb odd_piece
                    (xyz_viewer.re_split_digits (basename path)) = true)
      by (apply existsb_exists; now exists piece).
    congruence.
Qed.

Lemma key_of_plain (path : string) :
  key_fails path = false ->
  key_of path = map chunk_of (xyz_viewer.re_split_digits (basename path)).
Proof. intros Hk. unfold key_of. now rewrite natural_key_cases, Hk. Qed.

Lemma natural_key_key_of (path : string) :
  key_fails path = false -> xyz_viewer._natural_key path = Ok (key_of path).
Proof.
  intros Hk. unfold key_of. now rewrite natural_key_cases, Hk.
Qed.

Lemma natural_key_alternates (path : string) :
  alternates true (key_of path) = true.
Proof.
  unfold key_of. rewrite natural_key_cases.
  destruct (key_fails path); [reflexivity|].
  destruct (re_split_digits_shape (basename path))
    as [t [more [-> [Ht [Hmore _]]]]].
  cbn [map]. unfold chunk_of at 1.
  rewrite (no_digits_not_decimal t Ht). cbn [alternates andb].
  apply digit_runs_alternate; [| |exact Hmore].
  - intros d Hd. unfold chunk_of. rewrite Hd. now eexists.
  - intros u Hu. unfold chunk_of. rewrite (no_digits_not_decimal u Hu).
    now eexists.
Qed.

Section Sorting.
Context {A : Type}.
#[local] Abbreviation keyed := (list xyz_viewer.chunk * A)%type.

Lemma insert_by_key_sorted (x : keyed) (l : list keyed) :
  shaped x -> Forall shaped l ->
  exists r : list keyed,
    xyz_viewer.insert_by_key x l = Ok r
    /\ Permutation (x :: l) r
    /\ (StronglySorted keyed_le l -> StronglySorted keyed_le r).
Proof.
  intros Hx. induction l as [|y l IH]; intros Hl.
  - exists [x]. repeat split; [reflexivity | repeat constructor].
  - inversion Hl as [|? ? Hy Hl']; subst.
    cbn [xyz_viewer.insert_by_key].
    rewrite (key_lt_alternates true (fst y) (fst x) Hy Hx). cbn [bind].
    destruct (key_compare (fst y) (fst x)) eqn:Hyx.
    + exists (x :: y :: l). repeat split; [reflexivity|].
      intros Hs. constructor; [exact Hs|].
      inversion Hs as [|? ? Hs' Hall]; subst.
      assert (Hxy : keyed_le x y).
      { unfold keyed_le. rewrite key_compare_antisym, Hyx. discriminate. }
      constructor; [exact Hxy|].
      revert Hall. apply Forall_impl. intros z Hyz.
      now apply (key_le_trans (fst x) (fst y) (fst z)).
    + destruct (IH Hl') as [r [-> [Hperm Hsorted]]]. cbn [bind].
      exists (y :: r). repeat split.
      * rewrite perm_swap. now constructor.
      * intros Hs. inversion Hs as [|? ? Hs' Hall]; subst.
        constructor; [now apply Hsorted|].
        apply (Permutation_Forall Hperm). constructor; [|exact Hall].
        unfold keyed_le. rewrite Hyx. discriminate.
    + exists (x :: y :: l). repeat split; [reflexivity|].
      intros Hs. constructor; [exact Hs|].
      inversion Hs as [|? ? Hs' Hall]; subst.
      assert (Hxy : keyed_le x y).
      { unfold keyed_le. rewrite key_compare_antisym, Hyx. discriminate. }
      constructor; [exact Hxy|].
      revert Hall. apply Forall_impl. intros z Hyz.
      now apply (key_le_trans (fst x) (fst y) (fst z)).
Qed.

Lemma sort_by_key_sorted (l : list keyed) :
  Forall shaped l ->
  exists r : list keyed,
    xyz_viewer.sort_by_key l = Ok r
    /\ Permutation l r
    /\ StronglySorted keyed_le r.
Proof.
  induction l as [|x l IH]; intros Hl.
  - exists []. repeat split; constructor.
  - inversion Hl as [|? ? Hx Hl']; subst.
    destruct (IH Hl') as [r [Hr [Hperm Hsorted]]].
    cbn [xyz_viewer.sort_by_key]. rewrite Hr. cbn [bind].
    destruct (insert_by_key_sorted x r Hx (Permutation_Forall Hperm Hl'))
      as [r' [-> [Hperm' Hsorted']]].
    exists r'. repeat split.
    + now rewrite <- Hperm', <- Hperm.
    + now apply Hsorted'.
Qed.

End Sorting.

Lemma keys_of_paths (paths : list string) :
  Forall (fun p => key_fails p = false) paths ->
  mapM (fun p => k <- xyz_viewer._natural_key p ;; Ok (k, p)) paths
  = Ok (map (fun p => (key_of p, p)) paths).
Proof.
  intros Hall. apply mapM_total. intros p Hin.
  rewrite (natural_key_key_of p (proj1 (Forall_forall _ _) Hall p Hin)).
  reflexivity.
Qed.

Lemma sorted_natural_sorted (paths : list string) :
  Forall (fun p => key_fails p = false) paths ->
  exists files : list string,
    xyz_viewer.sorted_natural paths = Ok files
    /\ Permutation paths files
    /\ StronglySorted natural_le files.
Proof.
  intros Hplain. unfold xyz_viewer.sorted_natural.
  rewrite (keys_of_paths paths Hplain). cbn [bind].
  set (decorated := map (fun p => (key_of p, p)) paths).
  assert (Hkeys : Forall (fun kp => fst kp = key_of (snd kp)) decorated).
  { apply Forall_map. apply Forall_forall. now intros. }
  assert (Hshape : Forall shaped decorated).
  { revert Hkeys. apply Forall_impl. intros [k p] Hk. unfold shaped.
    cbn in *. subst k. apply natural_key_alternates. }
  destruct (sort_by_key_sorted decorated Hshape) as [r [-> [Hperm Hsorted]]].
  cbn [bind]. exists (map snd r). repeat split.
  - replace paths with (map snd decorated).
    + now apply Permutation_map.
    + unfold decorated. rewrite map_map. apply map_id.
  - pose proof (Permutation_Forall Hperm Hkeys) as Hr. clear Hperm.
    induction Hsorted as [|kp r Hs IH Hall]; [constructor|].
    inversion Hr as [|? ? Hkp Hr']; subst. cbn [map].
    constructor; [now apply IH|].
    apply Forall_map. apply Forall_forall. intros kq Hin.
    pose proof (proj1 (Forall_forall _ _) Hall kq Hin) as Hle.
    pose proof (proj1 (Forall_forall _ _) Hr' kq Hin) as Hkq.
    unfold natural_le, keyed_le in *. cbn beta in Hkq.
    now rewrite <- Hkp, <- Hkq.
Qed.

(** One name on which [int] fails is enough for the sort to fail. *)
Lemma sorted_natural_fails (paths : list string) :
  Exists (fun p => key_fails p = true) paths ->
  xyz_viewer.sorted_natural paths = Raise ValueError.
Proof.
  intros Hodd. unfold xyz_viewer.sorted_natural.
  rewrite (mapM_raise_one _ ValueError); [reflexivity| |].
  - intros p _. rewrite natural_key_cases.
    destruct (key_fails p); [now right | left; now eexists].
  - apply Exists_exists in Hodd as [p [Hin Hp]].
    exists p. split; [exact Hin|]. now rewrite natural_key_cases, Hp.
Qed.

Lemma basename_plain (name : string) :
  has_char "/" name = false -> basename name = name.
Proof.
  induction name as [|c name IH]; [reflexivity|].
  cbn [has_char basename]. intros Hn.
  apply orb_false_iff in Hn as [Hc Hn]. now rewrite Hn, Hc.
Qed.

Lemma basename_dir (dir name : string) :
  has_char "/" name = false -> basename (dir ++ String "/" name) = name.
Proof.
  intros Hn. induction dir as [|c dir IH]; cbn [append basename].
  - now rewrite Hn.
  - rewrite has_char_app. cbn [has_char]. rewrite Ascii.eqb_refl, orb_true_r.
    exact IH.
Qed.

Lemma re_split_digits_run (d r : string) :
  decimal_run d = true ->
  xyz_viewer.starts_with_digit r = false ->
  xyz_viewer.re_split_digits (d ++ r)
  = EmptyString :: d :: xyz_viewer.re_split_digits r.
Proof.
  intros Hd Hr. induction d as [|c d IH]; [discriminate|].
  cbn [decimal_run all_digits] in Hd.
  apply andb_true_iff in Hd as [Hc Hd].
  cbn [append xyz_viewer.re_split_digits]. rewrite Hc.
  destruct d as [|c' d'].
  - cbn [append]. rewrite Hr.
    destruct (re_split_digits_shape r) as [t [more [-> _]]]. reflexivity.
  - rewrite (IH Hd).
    cbn [append xyz_viewer.starts_with_digit].
    cbn [all_digits] in Hd. apply andb_true_iff in Hd as [-> _]. reflexivity.
Qed.

Lemma re_split_digits_text (t d r : string) :
  no_digits t = true ->
  decimal_run d = true ->
  xyz_viewer.starts_with_digit r = false ->
  xyz_viewer.re_split_digits (t ++ d ++ r)
  = t :: d :: xyz_viewer.re_split_digits r.
Proof.
  intros Ht Hd Hr. induction t as [|c t IH].
  - change (EmptyString ++ d ++ r) with (d ++ r).
    now apply re_split_digits_run.
  - cbn [no_digits] in Ht. apply andb_true_iff in Ht as [Hc Ht].
    apply negb_true_iff in Hc.
    cbn [append xyz_viewer.re_split_digits]. now rewrite (IH Ht), Hc.
Qed.

(** The key of a name that begins with text and a run of decimal digits:
    the text in small letters, then the value of the run. *)
Lemma natural_key_head (dir t d r : string) (k : list xyz_viewer.chunk) :
  has_char "/" (t ++ d ++ r) = false ->
  no_digits t = true ->
  decimal_run d = true ->
  xyz_viewer.starts_with_digit r = false ->
  xyz_viewer._natural_key (dir ++ String "/" (t ++ d ++ r)) = Ok k ->
  exists rest : list xyz_viewer.chunk,
    k = xyz_viewer.Text (xyz_viewer.lower t)
          :: xyz_viewer.Number (xyz_viewer.int_digits 0 d) :: rest.
Proof.
  intros Hs Ht Hd Hr. rewrite natural_key_cases.
  destruct (key_fails _); [discriminate|].
  rewrite (basename_dir dir _ Hs), (re_split_digits_text t d r Ht Hd Hr).
  intros [= <-]. cbn [map]. unfold chunk_of at 1 2.
  rewrite (no_digits_not_decimal t Ht), Hd. now eexists.
Qed.

(** Two names that agree up to a run of digits are ordered by the value
    of the run. *)
Lemma natural_key_numeric (dir t d1 d2 r1 r2 : string)
    (k1 k2 : list xyz_viewer.chunk) :
  has_char "/" (t ++ d1 ++ r1) = false ->
  has_char "/" (t ++ d2 ++ r2) = false ->
  no_digits t = true ->
  decimal_run d1 = true -> decimal_run d2 = true ->
  xyz_viewer.starts_with_digit r1 = false ->
  xyz_viewer.starts_with_digit r2 = false ->
  xyz_viewer.int_digits 0 d1 <> xyz_viewer.int_digits 0 d2 ->
  xyz_viewer._natural_key (dir ++ String "/" (t ++ d1 ++ r1)) = Ok k1 ->
  xyz_viewer._natural_key (dir ++ String "/" (t ++ d2 ++ r2)) = Ok k2 ->
  xyz_viewer.key_lt k1 k2
  = Ok (xyz_viewer.int_digits 0 d1 <? xyz_viewer.int_digits 0 d2)%Z.
Proof.
  intros Hs1 Hs2 Ht Hd1 Hd2 Hr1 Hr2 Hne Hk1 Hk2.
  destruct (natural_key_head dir t d1 r1 k1 Hs1 Ht Hd1 Hr1 Hk1) as [rest1 ->].
  destruct (natural_key_head dir t d2 r2 k2 Hs2 Ht Hd2 Hr2 Hk2) as [rest2 ->].
  cbn [xyz_viewer.key_lt xyz_viewer.chunk_eqb xyz_viewer.chunk_lt].
  rewrite String.eqb_refl.
  now destruct (Z.eqb_spec (xyz_viewer.int_digits 0 d1)
                           (xyz_viewer.int_digits 0 d2)).
Qed.

Section XyzBatch.
Context {float : Type} `{PyFloat float}.
#[local] Abbreviation xyz_state := (xyz_viewer.loop_state).
#[local] Abbreviation xyz_card := (xyz_viewer.card).

Lemma process_file_done (E : environment float) (total : Z) (i : nat)
    (file_path : string) (st st' : xyz_state) :
  xyz_viewer.process_file E total i file_path st = (st', Ok tt) ->
  (renders E file_path = false /\ xyz_viewer.cards st' = xyz_viewer.cards st)
  \/ (renders E file_path = true
      /\ exists atoms : Atoms float,
           xyz_viewer.cards st'
           = (xyz_viewer.cards st
              ++ [xyz_viewer.make_structure_card E (len (xyz_viewer.cards st))
                    file_path atoms])%list).
Proof.
  unfold xyz_viewer.process_file, xyz_viewer.parse_xyz_file, renders.
  destruct (read_last E file_path) as [atoms|e].
  - intros [= <-]. right. split; [reflexivity|]. now exists atoms.
  - destruct (is_Exception e); [|discriminate].
    intros [= <-]. now left.
Qed.

Lemma process_files_cards (E : environment float) (total : Z)
    (items : list (nat * string)) (st st' : xyz_state) :
  xyz_viewer.process_files E total items st = (st', Ok tt) ->
  (forall k c, nth_error (xyz_viewer.cards st) k = Some c ->
               xyz_viewer.idx c = Z.of_nat k) ->
  map xyz_viewer.safe_title (xyz_viewer.cards st')
  = (map xyz_viewer.safe_title (xyz_viewer.cards st)
     ++ map (fun p => html_escape (basename p))
            (filter (renders E) (map snd items)))%list
  /\ (forall k c, nth_error (xyz_viewer.cards st') k = Some c ->
                  xyz_viewer.idx c = Z.of_nat k).
Proof.
  revert st. induction items as [|[i file_path] items IH]; intros st;
    cbn [xyz_viewer.process_files].
  - intros [= <-] Hidx. cbn. now rewrite app_nil_r.
  - destruct (xyz_viewer.process_file E total i file_path st)
      as [st1 [[]|e]] eqn:Hstep; [|discriminate].
    intros Hrest Hidx. cbn [map snd filter].
    destruct (process_file_done E total i file_path st st1 Hstep)
      as [[-> Hsame]|[-> [atoms Hnew]]].
    + rewrite <- Hsame in *. now apply IH.
    + destruct (IH st1 Hrest) as [Htitles Hidx'].
      * rewrite Hnew. intros k c Hk.
        destruct (Nat.lt_ge_cases k (List.length (xyz_viewer.cards st)))
          as [Hlt|Hge].
        -- rewrite nth_error_app1 in Hk by exact Hlt. now apply Hidx.
        -- rewrite nth_error_app2 in Hk by exact Hge.
           destruct (k - List.length (xyz_viewer.cards st))%nat
             as [|j] eqn:Hj; [|now destruct j].
           injection Hk as <-. cbn. unfold len. lia.
      * split; [|exact Hidx'].
        rewrite Htitles, Hnew, map_app. cbn [map].
        rewrite <- app_assoc. reflexivity.
Qed.

(** C8 fails on the code.  [_natural_key] asks [isdigit] before it calls
    [int], and [isdigit] also accepts the superscript digits, which [int]
    rejects.  So as soon as one discovered name has a piece between its
    runs of decimal digits that consists of superscript digits only, the
    sort raises ValueError: the run ends before anything is printed, no
    file is processed and no card is emitted, readable as the files may
    be. *)
Theorem superscript_chunk_crashes_sort (E : environment float) :
  Exists (fun p => key_fails p = true) (glob E "min_xyz/*.xyz") ->
  xyz_viewer.main E
  = {| xyz_viewer.printed := [];
       xyz_viewer.written := None;
       xyz_viewer.ended := Raise ValueError |}.
Proof.
  intros Hodd. unfold xyz_viewer.main.
  now rewrite (sorted_natural_fails _ Hodd).
Qed.

(** X20.  When no discovered name makes [int] fail, sorting the paths by
    their natural key gives a permutation that is ordered by the natural
    order of the keys; two names that agree up to a run of decimal digits
    are ordered by the value of the run as an integer.  The cards of the
    written document are those of the files ASE could read, in the sorted
    order, the k-th card carrying index k.  For s2.xyz, s10.xyz, s1.xyz
    the order is s1, s2, s10, where the order of the strings would be s1,
    s10, s2. *)
Theorem cards_in_natural_order (E : environment float) :
  (forall paths : list string,
      Forall (fun p => key_fails p = false) paths ->
      exists files : list string,
        xyz_viewer.sorted_natural paths = Ok files
        /\ Permutation paths files
        /\ StronglySorted natural_le files)
  /\ (forall (dir t d1 d2 r1 r2 : string) (k1 k2 : list xyz_viewer.chunk),
        has_char "/" (t ++ d1 ++ r1) = false ->
        has_char "/" (t ++ d2 ++ r2) = false ->
        no_digits t = true ->
        decimal_run d1 = true -> decimal_run d2 = true ->
        xyz_viewer.starts_with_digit r1 = false ->
        xyz_viewer.starts_with_digit r2 = false ->
        xyz_viewer.int_digits 0 d1 <> xyz_viewer.int_digits 0 d2 ->
        xyz_viewer._natural_key (dir ++ String "/" (t ++ d1 ++ r1)) = Ok k1 ->
        xyz_viewer._natural_key (dir ++ String "/" (t ++ d2 ++ r2)) = Ok k2 ->
        xyz_viewer.key_lt k1 k2
        = Ok (xyz_viewer.int_digits 0 d1 <? xyz_viewer.int_digits 0 d2)%Z)
  /\ (forall (out : string) (cards : list xyz_card),
        xyz_viewer.written (xyz_viewer.main E) = Some (out, cards) ->
        exists files : list string,
          xyz_viewer.sorted_natural (glob E "min_xyz/*.xyz") = Ok files
          /\ map xyz_viewer.safe_title cards
             = map (fun p => html_escape (basename p))
                   (filter (renders E) files)
          /\ forall k c, nth_error cards k = Some c ->
                         xyz_viewer.idx c = Z.of_nat k)
  /\ xyz_viewer.sorted_natural
       ["min_xyz/s2.xyz"; "min_xyz/s10.xyz"; "min_xyz/s1.xyz"]
     = Ok ["min_xyz/s1.xyz"; "min_xyz/s2.xyz"; "min_xyz/s10.xyz"]
  /\ sorted String.ltb ["min_xyz/s2.xyz"; "min_xyz/s10.xyz"; "min_xyz/s1.xyz"]
     = ["min_xyz/s1.xyz"; "min_xyz/s10.xyz"; "min_xyz/s2.xyz"].
Proof.
  split; [exact sorted_natural_sorted|].
  split; [exact natural_key_numeric|].
  split; [|split; reflexivity].
  intros out cards. unfold xyz_viewer.main.
  destruct (xyz_viewer.sorted_natural (glob E "min_xyz/*.xyz"))
    as [[|f files]|e]; try discriminate.
  set (start := {| xyz_viewer.cards := []; xyz_viewer.total_atoms := 0;
                   xyz_viewer.skipped := 0; xyz_viewer.console := _ |}).
  destruct (xyz_viewer.process_files E _ _ start) as [st [[]|e]] eqn:Hloop;
    [|discriminate].
  destruct (xyz_viewer.cards st) as [|c cs] eqn:Hcards; [discriminate|].
  cbn [xyz_viewer.written]. intros [= <- <-].
  exists (f :: files). split; [reflexivity|].
  destruct (process_files_cards E _ _ start st Hloop) as [Htitles Hidx].
  - intros k c' Hk. now destruct k.
  - rewrite Hcards in Htitles, Hidx. split; [|exact Hidx].
    rewrite Htitles. cbn [xyz_viewer.cards start map app].
    do 2 f_equal. unfold enumerate.
    generalize (f :: files). intros l. generalize 0%nat.
    induction l as [|x l IH]; intros n; [reflexivity|].
    cbn [List.length seq combine map]. f_equal. apply IH.
Qed.

End XyzBatch.

Lemma superscript_chunk_crashes_sort_witness :
  xyz_viewer.re_split_digits (basename squared_name)
  = [EmptyString; "1"; String "178"%char EmptyString; "3"; ".xyz"]
  /\ xyz_viewer.isdigit (String "178"%char EmptyString) = true
  /\ xyz_viewer.int (String "178"%char EmptyString) = Raise ValueError
  /\ Forall (fun p => renders superscript_batch p = true)
            (glob superscript_batch "min_xyz/*.xyz")
  /\ xyz_viewer.main superscript_batch
     = {| xyz_viewer.printed := [];
          xyz_viewer.written := None;
          xyz_viewer.ended := Raise ValueError |}.
Proof.
  split; [reflexivity|]. split; [reflexivity|]. split; [reflexivity|].
  split; [repeat constructor|].
  apply (superscript_chunk_crashes_sort superscript_batch).
  apply Exists_cons_tl. apply Exists_cons_hd. reflexivity.
Defined.

Lemma cards_in_natural_order_witness :
  option_map (fun w => map xyz_viewer.safe_title (snd w))
             (xyz_viewer.written (xyz_viewer.main scenario_E))
  = Some ["s1.xyz"; "s2.xyz"; "s10.xyz"]
  /\ exists k1 k2 : list xyz_viewer.chunk,
       xyz_viewer._natural_key "min_xyz/s2.xyz" = Ok k1
       /\ xyz_viewer._natural_key "min_xyz/s10.xyz" = Ok k2
       /\ xyz_viewer.key_lt k1 k2 = Ok true.
Proof.
  split; [reflexivity|].
  destruct (xyz_viewer._natural_key "min_xyz/s2.xyz") as [k1|e] eqn:H1;
    [|vm_compute in H1; discriminate].
  destruct (xyz_viewer._natural_key "min_xyz/s10.xyz") as [k2|e] eqn:H2;
    [|vm_compute in H2; discriminate].
  exists k1, k2. split; [reflexivity|]. split; [reflexivity|].
  apply (proj1 (proj2 (cards_in_natural_order scenario_E))
           "min_xyz" "s" "2" "10" ".xyz" ".xyz" k1 k2);
    try reflexivity; try assumption.
  discriminate.
Defined.

(** ** The card indices of ts_viewer *)

Lemma StronglySorted_snoc {A : Type} (R : A -> A -> Prop) (l : list A) (x : A) :
  StronglySorted R l -> Forall (fun y => R y x) l ->
  StronglySorted R (l ++ [x]).
Proof.
  induction 1 as [|y l Hs IH Hy]; intros Hall; cbn [app].
  - repeat constructor.
  - inversion Hall as [|? ? Hyx Hall']; subst.
    constructor; [now apply IH|].
    apply Forall_app. split; [exact Hy | now constructor].
Qed.

Section Indices.
Context {float : Type} `{PyFloat float}.
#[local] Abbreviation loop_state := (@ts_viewer.loop_state float).

(** The indices of the cards of ts_viewer grow strictly along the
    document, so no two cards share an index, whatever was skipped or
    failed in between. *)
Lemma process_logs_indices (E : environment float) (logs : list string)
    (k : nat) (st st' : loop_state) :
  ts_viewer.process_logs E (combine (seq k (List.length logs)) logs) st
  = (st', Ok tt) ->
  indices_below k st -> StronglySorted index_lt (ts_viewer.cards_html st) ->
  indices_below (k + List.length logs) st'
  /\ StronglySorted index_lt (ts_viewer.cards_html st').
Proof.
  revert k st. induction logs as [|log_file logs IH]; intros k st;
    cbn [List.length seq combine ts_viewer.process_logs].
  - intros [= <-] Hb Hs. now rewrite Nat.add_0_r.
  - destruct (ts_viewer.process_log E k log_file st) as [st1 [[]|e]] eqn:Hstep;
      [|discriminate].
    intros Hrest Hb Hs.
    replace (k + S (List.length logs))%nat with (S k + List.length logs)%nat
      by lia.
    apply (IH (S k) st1 Hrest); unfold indices_below in *;
      destruct (process_log_done E k log_file st st1 Hstep)
        as [[_ [Hc Hn]]|[[_ [_ [Hc Hn]]]|[_ Hcard]]].
    + rewrite Hc, Hn. revert Hb. apply Forall_impl. intros c.
      cbn [counted ts_viewer.skip_one ts_viewer.n_skipped]. lia.
    + rewrite Hc, Hn. revert Hb. apply Forall_impl. intros c.
      cbn [counted ts_viewer.error_one ts_viewer.n_skipped]. lia.
    + destruct Hcard as [lines [atoms [fs [ms [c [_ [Hmk [Hc Hn]]]]]]]].
      destruct (make_vibration_card_fields E _ log_file atoms fs ms c Hmk)
        as [Hidx _].
      assert (Hskip : ts_viewer.n_skipped (ts_viewer.counts st1)
                      = ts_viewer.n_skipped (ts_viewer.counts st)).
      { rewrite Hn. unfold outcome_of_count.
        now destruct (len fs =? 0)%Z, (len fs =? 1)%Z. }
      rewrite Hc, Hskip. apply Forall_app. split.
      * revert Hb. apply Forall_impl. intros c'. lia.
      * constructor; [lia | constructor].
    + now rewrite Hc.
    + now rewrite Hc.
    + destruct Hcard as [lines [atoms [fs [ms [c [_ [Hmk [Hc Hn]]]]]]]].
      destruct (make_vibration_card_fields E _ log_file atoms fs ms c Hmk)
        as [Hidx _].
      rewrite Hc. apply StronglySorted_snoc; [exact Hs|].
      revert Hb. apply Forall_impl. intros c'. unfold index_lt. lia.
Qed.

Lemma ts_card_indices_increase (E : environment float) (out : string)
    (cards : list (@ts_viewer.card float)) :
  ts_viewer.written (ts_viewer.main E) = Some (out, cards) ->
  StronglySorted index_lt cards.
Proof.
  unfold ts_viewer.main.
  destruct (sorted String.ltb (glob E "*.log")) as [|l logs]; [discriminate|].
  destruct (ts_viewer.process_logs E _ _) as [st [[]|e]] eqn:Hloop;
    [|discriminate].
  destruct (ts_viewer.cards_html st) as [|c cs] eqn:Hcards; [discriminate|].
  cbn [ts_viewer.written]. intros [= _ <-]. rewrite <- Hcards.
  apply (process_logs_indices E (l :: logs) 0 _ st Hloop); constructor.
Qed.

End Indices.

(** C5 fails on the code.  When a log finishes normally but cannot be
    parsed, the card after it gets an index one too high: the batch
    a_ts.log, e_garbled.log, f_min.log gives two cards, in discovery
    order, with the indices 0 and 2.  The loop subtracts the skipped logs
    from the position but not the parse errors. *)
Theorem parse_error_leaves_index_gap :
  discovered_logs gap_batch = ["a_ts.log"; "e_garbled.log"; "f_min.log"]
  /\ option_map (fun w => map (fun c => (ts_viewer.safe_title c, ts_viewer.idx c))
                              (snd w))
                (ts_viewer.written (ts_viewer.main gap_batch))
     = Some [("a_ts.log", 0%Z); ("f_min.log", 2%Z)]
  /\ ts_viewer.ended (ts_viewer.main gap_batch) = Ok tt.
Proof. repeat split. Qed.

(** * Further properties of the scripts *)

(** ** The document of ts_viewer *)

Section TsDocument.
Context {float : Type} `{PyFloat float}.
#[local] Abbreviation loop_state := (@ts_viewer.loop_state float).
#[local] Abbreviation card := (@ts_viewer.card float).

Lemma process_log_title (E : environment float) (i : nat) (log_file : string)
    (st st' : loop_state) :
  ts_viewer.process_log E i log_file st = (st', Ok tt) ->
  map ts_viewer.safe_title (ts_viewer.cards_html st')
  = (map ts_viewer.safe_title (ts_viewer.cards_html st)
     ++ map html_escape (filter (yields_card E) [log_file]))%list
  /\ (classified (ts_viewer.counts st') - len (ts_viewer.cards_html st')
      = classified (ts_viewer.counts st) - len (ts_viewer.cards_html st))%Z.
Proof.
  intros Hstep. unfold yields_card. cbn [filter].
  destruct (process_log_done E i log_file st st' Hstep)
    as [[Hterm [Hc Hn]]|[[Hterm [[lines [fs [ms Hparse]]] [Hc Hn]]]|[Hterm Hcard]]].
  - rewrite Hterm, Hc, Hn. cbn. rewrite app_nil_r. split; [reflexivity|].
    unfold classified. cbn. lia.
  - rewrite Hterm, Hparse, Hc, Hn. cbn. rewrite app_nil_r.
    split; [reflexivity|]. unfold classified. cbn. lia.
  - destruct Hcard as [lines [atoms [fs [ms [c [Hparse [Hmk [Hc Hn]]]]]]]].
    destruct (make_vibration_card_fields E _ log_file atoms fs ms c Hmk)
      as [_ [Htitle _]].
    rewrite Hterm, Hparse, Hc, Hn, map_app. cbn [snd map]. rewrite Htitle.
    split; [reflexivity|].
    rewrite len_app_one. unfold classified, outcome_of_count.
    destruct (len fs =? 0)%Z; [cbn; lia|].
    destruct (len fs =? 1)%Z; cbn; lia.
Qed.

Lemma process_logs_titles (E : environment float) (items : list (nat * string))
    (st st' : loop_state) :
  ts_viewer.process_logs E items st = (st', Ok tt) ->
  map ts_viewer.safe_title (ts_viewer.cards_html st')
  = (map ts_viewer.safe_title (ts_viewer.cards_html st)
     ++ map html_escape (filter (yields_card E) (map snd items)))%list
  /\ (classified (ts_viewer.counts st') - len (ts_viewer.cards_html st')
      = classified (ts_viewer.counts st) - len (ts_viewer.cards_html st))%Z.
Proof.
  revert st. induction items as [|[i log_file] items IH]; intros st;
    cbn [ts_viewer.process_logs].
  - intros [= <-]. cbn. now rewrite app_nil_r.
  - destruct (ts_viewer.process_log E i log_file st) as [st1 [[]|e]] eqn:Hstep;
      [|discriminate].
    intros Hrest. destruct (IH st1 Hrest) as [Ht Hn].
    destruct (process_log_title E i log_file st st1 Hstep) as [Ht1 Hn1].
    split; [|lia].
    rewrite Ht, Ht1. cbn [map snd]. rewrite <- app_assoc, <- map_app.
    do 2 f_equal. cbn [filter]. now destruct (yields_card E log_file).
Qed.

Lemma enumerate_snd {A : Type} (xs : list A) : map snd (enumerate xs) = xs.
Proof.
  unfold enumerate. generalize 0%nat.
  induction xs as [|x xs IH]; intros n; [reflexivity|].
  cbn [List.length seq combine map snd]. now rewrite IH.
Qed.

Lemma enumerate_length {A : Type} (xs : list A) :
  len (enumerate xs) = len xs.
Proof.
  unfold len, enumerate. now rewrite length_combine, length_seq, Nat.min_id.
Qed.

(** What [main] has done when it wrote a document: the loop ran through
    all logs without raising and left the cards. *)
Lemma main_written (E : environment float) (out : string) (cards : list card) :
  ts_viewer.written (ts_viewer.main E) = Some (out, cards) ->
  exists st : loop_state,
    ts_viewer.process_logs E (enumerate (discovered_logs E)) fresh_state
    = (st, Ok tt)
    /\ ts_viewer.cards_html st = cards
    /\ out = "gaussian_ts_analysis.html"
    /\ ts_viewer.ended (ts_viewer.main E) = Ok tt
    /\ ts_viewer.printed (ts_viewer.main E)
       = (ts_viewer.console st
          ++ [ts_viewer.Rule; ts_viewer.SummaryTitle; ts_viewer.Rule;
              ts_viewer.Summary
                (ts_viewer.n_valid_ts (ts_viewer.counts st))
                (ts_viewer.n_minimum (ts_viewer.counts st))
                (ts_viewer.n_higher_order (ts_viewer.counts st))
                (ts_viewer.n_errors (ts_viewer.counts st))
                (ts_viewer.n_skipped (ts_viewer.counts st))
                (len cards);
              ts_viewer.OutputPath out])%list.
Proof.
  unfold ts_viewer.main. fold (discovered_logs E).
  destruct (discovered_logs E) as [|l logs]; [discriminate|].
  change {| ts_viewer.cards_html := []; ts_viewer.counts := ts_viewer.zero_counts;
            ts_viewer.console := [ts_viewer.Rule] |}
    with (@fresh_state float).
  destruct (ts_viewer.process_logs E _ fresh_state) as [st [[]|e]] eqn:Hloop;
    [|discriminate].
  destruct (ts_viewer.cards_html st) as [|c cs] eqn:Hcards; [discriminate|].
  cbn [ts_viewer.written]. intros [= <- <-].
  exists st. rewrite Hcards. now repeat split.
Qed.

(** X1.  The cards of the document ts_viewer writes are the logs that
    pass the termination test and give a structure, in the order of the
    sorted file names: the titles of the cards are the escaped names of
    exactly these logs, nothing in between. *)
Theorem ts_cards_in_discovery_order (E : environment float) (out : string)
    (cards : list card) :
  ts_viewer.written (ts_viewer.main E) = Some (out, cards) ->
  map ts_viewer.safe_title cards
  = map html_escape (filter (yields_card E) (discovered_logs E)).
Proof.
  intros Hw. destruct (main_written E out cards Hw) as [st [Hloop [<- _]]].
  destruct (process_logs_titles E _ _ _ Hloop) as [Ht _].
  now rewrite Ht, enumerate_snd.
Qed.

(** X2.  The summary that ts_viewer prints after writing a document adds
    up: the three outcome counts sum to the number of cards, which is the
    total it reports, and cards, skipped logs and parse errors together
    are all the logs that were found. *)
Theorem ts_summary_adds_up (E : environment float) (out : string)
    (cards : list card) :
  ts_viewer.written (ts_viewer.main E) = Some (out, cards) ->
  exists n_valid_ts n_minimum n_higher_order n_errors n_skipped : Z,
    In (ts_viewer.Summary n_valid_ts n_minimum n_higher_order n_errors
          n_skipped (len cards))
       (ts_viewer.printed (ts_viewer.main E))
    /\ (n_valid_ts + n_minimum + n_higher_order = len cards)%Z
    /\ (len cards + n_skipped + n_errors = len (discovered_logs E))%Z.
Proof.
  intros Hw.
  destruct (main_written E out cards Hw) as [st [Hloop [Hcards [_ [_ Hp]]]]].
  exists (ts_viewer.n_valid_ts (ts_viewer.counts st)),
         (ts_viewer.n_minimum (ts_viewer.counts st)),
         (ts_viewer.n_higher_order (ts_viewer.counts st)),
         (ts_viewer.n_errors (ts_viewer.counts st)),
         (ts_viewer.n_skipped (ts_viewer.counts st)).
  split; [|split].
  - rewrite Hp. apply in_or_app. right. cbn. auto.
  - destruct (process_logs_titles E _ _ _ Hloop) as [_ Hn].
    rewrite Hcards in Hn. unfold classified in Hn. cbn in Hn. lia.
  - pose proof (process_logs_accounts E _ _ _ Hloop) as Hacc.
    rewrite enumerate_length in Hacc. unfold processed in Hacc.
    rewrite Hcards in Hacc. cbn in Hacc. lia.
Qed.

End TsDocument.

Lemma ts_cards_in_discovery_order_witness :
  exists (out : string) (cards : list (@ts_viewer.card Z)),
    ts_viewer.written (ts_viewer.main mixed_batch) = Some (out, cards)
    /\ map ts_viewer.safe_title cards
       = ["a_ts.log"; "f_min.log"; "g_saddle.log"].
Proof.
  destruct (ts_viewer.written (ts_viewer.main mixed_batch))
    as [[out cards]|] eqn:Hw; [|vm_compute in Hw; discriminate].
  exists out, cards. split; [reflexivity|].
  now rewrite (ts_cards_in_discovery_order mixed_batch out cards Hw).
Defined.

Lemma ts_summary_adds_up_witness :
  exists (out : string) (cards : list (@ts_viewer.card Z)),
    ts_viewer.written (ts_viewer.main mixed_batch) = Some (out, cards)
    /\ exists a b c d e : Z,
         In (ts_viewer.Summary a b c d e (len cards))
            (ts_viewer.printed (ts_viewer.main mixed_batch))
         /\ (a + b + c = len cards)%Z.
Proof.
  destruct (ts_viewer.written (ts_viewer.main mixed_batch))
    as [[out cards]|] eqn:Hw; [|vm_compute in Hw; discriminate].
  exists out, cards. split; [reflexivity|].
  destruct (ts_summary_adds_up mixed_batch out cards Hw)
    as [a [b [c [d [e [Hin [Hsum _]]]]]]].
  exists a, b, c, d, e. split; assumption.
Defined.

(** ** Names of the generated controls *)

Lemma str_head (n : Z) :
  exists (c : ascii) (rest : string),
    str n = String c rest /\ (is_digit c = true \/ c = "-"%char).
Proof.
  destruct (Z.le_gt_cases 0 n) as [Hn|Hn].
  - pose proof (str_nonneg_nonempty n Hn) as Hne.
    pose proof (str_nonneg_digits n Hn) as Hd.
    destruct (str n) as [|c rest]; [contradiction|].
    exists c, rest. split; [reflexivity|]. left.
    cbn in Hd. now apply andb_true_iff in Hd as [Hc _].
  - destruct n as [|p|p]; try lia. unfold str. cbn.
    eexists _, _. split; [reflexivity|]. now right.
Qed.

(** Two names, each a fixed prefix followed by an index, compared
    character by character. *)
Ltac peel_names H :=
  cbn [append] in H;
  repeat match type of H with
         | String ?a ?x = String ?a ?y => injection H as H
         end.

Ltac index_head H n :=
  let c := fresh "c" in
  let rest := fresh "rest" in
  let Hs := fresh "Hs" in
  let Hc := fresh "Hc" in
  destruct (str_head n) as [c [rest [Hs [Hc|Hc]]]];
  rewrite Hs in H; injection H as H _; subst c; discriminate Hc.

Ltac names_differ H :=
  peel_names H;
  first
    [ discriminate H
    | exact (str_inj _ _ H)
    | exact (eq_sym (str_inj _ _ H))
    | match type of H with
      | str ?n = String _ _ => index_head H n
      | String _ _ = str ?n => symmetry in H; index_head H n
      end ].

Lemma ts_names_of_one_index (i j : Z) (name : string) :
  In name (ts_viewer.control_names i) -> In name (ts_viewer.control_names j) ->
  i = j.
Proof.
  unfold ts_viewer.control_names. cbn [In].
  intros Hi Hj.
  repeat destruct Hi as [Hi|Hi]; try contradiction; subst name;
    repeat destruct Hj as [Hj|Hj]; try contradiction; names_differ Hj.
Qed.

Lemma ts_names_distinct (i : Z) : NoDup (ts_viewer.control_names i).
Proof.
  unfold ts_viewer.control_names.
  repeat (constructor;
          [cbn [In]; intros Hin;
           repeat destruct Hin as [Hin|Hin]; try contradiction;
           exfalso; names_differ Hin|]).
  constructor.
Qed.

Lemma xyz_names_of_one_index (i j : Z) (name : string) :
  In name (xyz_viewer.control_names i) -> In name (xyz_viewer.control_names j) ->
  i = j.
Proof.
  unfold xyz_viewer.control_names. cbn [In].
  intros Hi Hj.
  repeat destruct Hi as [Hi|Hi]; try contradiction; subst name;
    repeat destruct Hj as [Hj|Hj]; try contradiction; names_differ Hj.
Qed.

Lemma xyz_names_distinct (i : Z) : NoDup (xyz_viewer.control_names i).
Proof.
  unfold xyz_viewer.control_names.
  repeat (constructor;
          [cbn [In]; intros Hin;
           repeat destruct Hin as [Hin|Hin]; try contradiction;
           exfalso; names_differ Hin|]).
  constructor.
Qed.

Lemma names_of_document {C : Type} (names : Z -> list string) (index : C -> Z)
    (cards : list C) :
  (forall i, NoDup (names i)) ->
  (forall i j name, In name (names i) -> In name (names j) -> i = j) ->
  NoDup (map index cards) ->
  NoDup (List.concat (map (fun c => names (index c)) cards)).
Proof.
  intros Hone Hinj. induction cards as [|c cards IH]; intros Hnd.
  - constructor.
  - cbn [map List.concat]. cbn [map] in Hnd.
    apply NoDup_cons_iff in Hnd as [Hfresh Hnd].
    apply NoDup_app; [apply Hone | now apply IH |].
    intros name Hc Hrest. apply in_concat in Hrest as [l [Hl Hin]].
    apply in_map_iff in Hl as [c' [<- Hc']].
    apply Hfresh. rewrite (Hinj _ _ name Hc Hin). now apply in_map.
Qed.

Lemma increasing_indices_distinct {float : Type}
    (cards : list (@ts_viewer.card float)) :
  StronglySorted index_lt cards -> NoDup (map ts_viewer.idx cards).
Proof.
  induction 1 as [|c cards Hs IH Hall]; cbn [map]; constructor; [|exact IH].
  intros Hin. apply in_map_iff in Hin as [c' [Heq Hc']].
  pose proof (proj1 (Forall_forall _ _) Hall c' Hc') as Hlt.
  unfold index_lt in Hlt. lia.
Qed.

Lemma positions_distinct {C : Type} (index : C -> Z) (cards : list C) :
  (forall k c, nth_error cards k = Some c -> index c = Z.of_nat k) ->
  NoDup (map index cards).
Proof.
  intros Hpos. apply NoDup_nth_error. intros i j Hi Heq.
  rewrite !nth_error_map in Heq. rewrite length_map in Hi.
  destruct (nth_error cards i) as [c|] eqn:Hc.
  - destruct (nth_error cards j) as [c'|] eqn:Hc'; [|discriminate].
    cbn in Heq. injection Heq as Heq.
    rewrite (Hpos i c Hc), (Hpos j c' Hc') in Heq. lia.
  - apply nth_error_None in Hc. lia.
Qed.

Section TsNames.
Context {float : Type} `{PyFloat float}.

(** X3.  In the document ts_viewer writes, no name of a generated control
    (applet, select element, toggle function) occurs twice: the names of
    one card differ from each other, and cards never share a name, also
    when logs were skipped or failed in between. *)
Theorem ts_control_names_unique (E : environment float) (out : string)
    (cards : list (@ts_viewer.card float)) :
  ts_viewer.written (ts_viewer.main E) = Some (out, cards) ->
  NoDup (List.concat
           (map (fun c => ts_viewer.control_names (ts_viewer.idx c)) cards)).
Proof.
  intros Hw. apply names_of_document.
  - apply ts_names_distinct.
  - apply ts_names_of_one_index.
  - apply increasing_indices_distinct.
    now apply (ts_card_indices_increase E out).
Qed.

End TsNames.

Lemma ts_control_names_unique_witness :
  exists (out : string) (cards : list (@ts_viewer.card Z)),
    ts_viewer.written (ts_viewer.main mixed_batch) = Some (out, cards)
    /\ map ts_viewer.idx cards = [0; 2; 3]%Z
    /\ NoDup (List.concat
                (map (fun c => ts_viewer.control_names (ts_viewer.idx c)) cards)).
Proof.
  destruct (ts_viewer.written (ts_viewer.main mixed_batch))
    as [[out cards]|] eqn:Hw; [|vm_compute in Hw; discriminate].
  exists out, cards. split; [reflexivity|]. split.
  - vm_compute in Hw. now injection Hw as _ <-.
  - now apply (ts_control_names_unique mixed_batch out cards).
Defined.

(** ** The batch loop of xyz_viewer *)

Section XyzRun.
Context {float : Type} `{PyFloat float}.
#[local] Abbreviation xyz_state := (xyz_viewer.loop_state).
#[local] Abbreviation xyz_card := (xyz_viewer.card).

Lemma xyz_process_file_counts (E : environment float) (total : Z) (i : nat)
    (file_path : string) (st st' : xyz_state) :
  xyz_viewer.process_file E total i file_path st = (st', Ok tt) ->
  (len (xyz_viewer.cards st') + xyz_viewer.skipped st'
   = len (xyz_viewer.cards st) + xyz_viewer.skipped st + 1)%Z
  /\ (xyz_viewer.total_atoms st' - atoms_shown (xyz_viewer.cards st')
      = xyz_viewer.total_atoms st - atoms_shown (xyz_viewer.cards st))%Z.
Proof.
  unfold xyz_viewer.process_file, xyz_viewer.parse_xyz_file.
  destruct (read_last E file_path) as [atoms|e].
  - intros [= <-]. cbn [xyz_viewer.cards xyz_viewer.skipped xyz_viewer.total_atoms].
    rewrite len_app_one. split; [lia|].
    unfold atoms_shown. rewrite map_app, fold_right_app. cbn [map fold_right].
    cbn [xyz_viewer.make_structure_card xyz_viewer.natoms].
    generalize (map xyz_viewer.natoms (xyz_viewer.cards st)).
    intros l. induction l as [|x l IH]; cbn [fold_right]; lia.
  - destruct (is_Exception e); [|discriminate].
    intros [= <-].
    cbn [xyz_viewer.cards xyz_viewer.skipped xyz_viewer.total_atoms].
    split; lia.
Qed.

Lemma xyz_process_files_counts (E : environment float) (total : Z)
    (items : list (nat * string)) (st st' : xyz_state) :
  xyz_viewer.process_files E total items st = (st', Ok tt) ->
  (len (xyz_viewer.cards st') + xyz_viewer.skipped st'
   = len (xyz_viewer.cards st) + xyz_viewer.skipped st + len items)%Z
  /\ (xyz_viewer.total_atoms st' - atoms_shown (xyz_viewer.cards st')
      = xyz_viewer.total_atoms st - atoms_shown (xyz_viewer.cards st))%Z.
Proof.
  revert st. induction items as [|[i file_path] items IH]; intros st;
    cbn [xyz_viewer.process_files].
  - intros [= <-]. unfold len. cbn. lia.
  - destruct (xyz_viewer.process_file E total i file_path st)
      as [st1 [[]|e]] eqn:Hstep; [|discriminate].
    intros Hrest. destruct (IH st1 Hrest) as [Hn Ha].
    destruct (xyz_process_file_counts E total i file_path st st1 Hstep)
      as [Hn1 Ha1].
    unfold len in *. cbn [List.length]. split; lia.
Qed.

Lemma xyz_process_files_returns (E : environment float) (total : Z)
    (items : list (nat * string)) (st : xyz_state) :
  ordinary_failures E ->
  exists st', xyz_viewer.process_files E total items st = (st', Ok tt).
Proof.
  intros Hord. revert st.
  induction items as [|[i file_path] items IH]; intros st;
    cbn [xyz_viewer.process_files]; [now eexists|].
  unfold xyz_viewer.process_file, xyz_viewer.parse_xyz_file.
  destruct (read_last E file_path) as [atoms|e] eqn:Hread; [apply IH|].
  rewrite (read_last_ordinary E file_path e Hord Hread). apply IH.
Qed.

(** What [main] of xyz_viewer has done when it wrote a document *)
Lemma xyz_main_written (E : environment float) (out : string)
    (cards : list xyz_card) :
  xyz_viewer.written (xyz_viewer.main E) = Some (out, cards) ->
  exists (files : list string) (st : xyz_state),
    xyz_viewer.sorted_natural (glob E "min_xyz/*.xyz") = Ok files
    /\ xyz_viewer.process_files E (len files) (enumerate files)
         (xyz_fresh_state (len files)) = (st, Ok tt)
    /\ xyz_viewer.cards st = cards
    /\ out = "xyz_visualization.html"
    /\ xyz_viewer.ended (xyz_viewer.main E) = Ok tt.
Proof.
  unfold xyz_viewer.main.
  destruct (xyz_viewer.sorted_natural (glob E "min_xyz/*.xyz"))
    as [[|f files]|e]; try discriminate.
  fold (xyz_fresh_state (len (f :: files))).
  destruct (xyz_viewer.process_files E _ _ _) as [st [[]|e]] eqn:Hloop;
    [|discriminate].
  destruct (xyz_viewer.cards st) as [|c cs] eqn:Hcards; [discriminate|].
  cbn [xyz_viewer.written]. intros [= <- <-].
  exists (f :: files), st. now repeat split.
Qed.

(** X4.  In the document xyz_viewer writes, no name of a generated
    control occurs twice: a card is numbered by the count of the cards
    before it, and names with different numbers differ. *)
Theorem xyz_control_names_unique (E : environment float) (out : string)
    (cards : list xyz_card) :
  xyz_viewer.written (xyz_viewer.main E) = Some (out, cards) ->
  NoDup (List.concat
           (map (fun c => xyz_viewer.control_names (xyz_viewer.idx c)) cards)).
Proof.
  intros Hw.
  destruct (xyz_main_written E out cards Hw) as [files [st [_ [Hloop [<- _]]]]].
  apply names_of_document.
  - apply xyz_names_distinct.
  - apply xyz_names_of_one_index.
  - apply positions_distinct.
    apply (process_files_cards E _ _ _ st Hloop).
    intros k c Hk. now destruct k.
Qed.

(** X5.  With a reader that fails in the ordinary way, a run of
    xyz_viewer ends in one of four ways.  A discovered name makes the
    sort key fail: the run ends with ValueError before anything is
    printed.  No file found: it exits with its first message.  Files
    found but none readable: every file is counted as skipped and it
    exits with its second message.  In these three cases nothing is
    written.  Otherwise it writes the document, and the summary it prints
    adds up: cards and skipped files are all the files found, and the
    atom total is the sum over the cards. *)
Theorem xyz_run_endings (E : environment float) :
  ordinary_failures E ->
  (Exists (fun p => key_fails p = true) (glob E "min_xyz/*.xyz")
   /\ xyz_viewer.main E
      = {| xyz_viewer.printed := [];
           xyz_viewer.written := None;
           xyz_viewer.ended := Raise ValueError |})
  \/ (Forall (fun p => key_fails p = false) (glob E "min_xyz/*.xyz")
      /\ exists files : list string,
           xyz_viewer.sorted_natural (glob E "min_xyz/*.xyz") = Ok files
           /\ ((files = []
                /\ xyz_viewer.main E
                   = {| xyz_viewer.printed := [];
                        xyz_viewer.written := None;
                        xyz_viewer.ended :=
                          Raise (SystemExit
                                   "No XYZ files found under ./min_xyz/") |})
               \/ (files <> []
                   /\ exists st : xyz_state,
                        xyz_viewer.process_files E (len files)
                          (enumerate files) (xyz_fresh_state (len files))
                        = (st, Ok tt)
                        /\ (len (xyz_viewer.cards st) + xyz_viewer.skipped st
                            = len files)%Z
                        /\ xyz_viewer.total_atoms st
                           = atoms_shown (xyz_viewer.cards st)
                        /\ ((xyz_viewer.cards st = []
                             /\ xyz_viewer.written (xyz_viewer.main E) = None
                             /\ xyz_viewer.ended (xyz_viewer.main E)
                                = Raise (SystemExit
                                           "Unable to parse any XYZ files."))
                            \/ (xyz_viewer.cards st <> []
                                /\ xyz_viewer.written (xyz_viewer.main E)
                                   = Some ("xyz_visualization.html",
                                           xyz_viewer.cards st)
                                /\ xyz_viewer.ended (xyz_viewer.main E) = Ok tt
                                /\ In (xyz_viewer.Summary (len files)
                                         (len (xyz_viewer.cards st))
                                         (xyz_viewer.skipped st)
                                         (xyz_viewer.total_atoms st))
                                      (xyz_viewer.printed
                                         (xyz_viewer.main E))))))).
Proof.
  intros Hord.
  destruct (existsb key_fails (glob E "min_xyz/*.xyz")) eqn:Hodd.
  { left. apply existsb_exists in Hodd.
    assert (Hex : Exists (fun p => key_fails p = true) (glob E "min_xyz/*.xyz"))
      by now apply Exists_exists.
    split; [exact Hex|].
    unfold xyz_viewer.main. now rewrite (sorted_natural_fails _ Hex). }
  right.
  assert (Hplain : Forall (fun p => key_fails p = false)
                          (glob E "min_xyz/*.xyz")).
  { apply Forall_forall. intros p Hin.
    destruct (key_fails p) eqn:Hp; [|reflexivity].
    assert (existsb key_fails (glob E "min_xyz/*.xyz") = true)
      by (apply existsb_exists; now exists p).
    congruence. }
  split; [exact Hplain|].
  destruct (sorted_natural_sorted (glob E "min_xyz/*.xyz") Hplain)
    as [files [Hs _]].
  exists files. split; [exact Hs|].
  unfold xyz_viewer.main. rewrite Hs.
  destruct files as [|f files]; [now left|].
  right. split; [discriminate|].
  fold (xyz_fresh_state (len (f :: files))).
  destruct (xyz_process_files_returns E (len (f :: files))
              (enumerate (f :: files)) (xyz_fresh_state (len (f :: files))) Hord)
    as [st Hloop].
  exists st. split; [exact Hloop|]. rewrite Hloop.
  destruct (xyz_process_files_counts E _ _ _ _ Hloop) as [Hn Ha].
  rewrite enumerate_length in Hn.
  unfold xyz_fresh_state, len in Hn, Ha.
  cbn [xyz_viewer.cards xyz_viewer.skipped xyz_viewer.total_atoms
       List.length] in Hn, Ha.
  unfold atoms_shown at 2 in Ha. cbn [map fold_right] in Ha.
  split; [unfold len; cbn [List.length]; lia|]. split; [lia|].
  destruct (xyz_viewer.cards st) as [|c cs] eqn:Hcards.
  - left. now repeat split.
  - right. split; [discriminate|]. split; [reflexivity|].
    split; [reflexivity|].
    cbn [xyz_viewer.printed]. apply in_or_app. right. cbn. auto.
Qed.

End XyzRun.

Lemma partial_xyz_batch_ordinary : ordinary_failures partial_xyz_batch.
Proof.
  apply world_well_behaved.
  repeat (constructor; [repeat split; cbn; repeat constructor|]).
  constructor.
Qed.

Lemma xyz_control_names_unique_witness :
  exists (out : string) (cards : list xyz_viewer.card),
    xyz_viewer.written (xyz_viewer.main partial_xyz_batch) = Some (out, cards)
    /\ map xyz_viewer.idx cards = [0; 1]%Z
    /\ NoDup (List.concat
                (map (fun c => xyz_viewer.control_names (xyz_viewer.idx c))
                     cards)).
Proof.
  destruct (xyz_viewer.written (xyz_viewer.main partial_xyz_batch))
    as [[out cards]|] eqn:Hw; [|vm_compute in Hw; discriminate].
  exists out, cards. split; [reflexivity|]. split.
  - vm_compute in Hw. now injection Hw as _ <-.
  - now apply (xyz_control_names_unique partial_xyz_batch out cards).
Defined.

Lemma xyz_run_endings_witness :
  ordinary_failures partial_xyz_batch
  /\ exists files : list string,
       xyz_viewer.sorted_natural (glob partial_xyz_batch "min_xyz/*.xyz")
       = Ok files
       /\ files = ["min_xyz/a.xyz"; "min_xyz/b.xyz"; "min_xyz/c.xyz"]
       /\ In (xyz_viewer.Summary 3 2 1 6)
             (xyz_viewer.printed (xyz_viewer.main partial_xyz_batch)).
Proof.
  split; [exact partial_xyz_batch_ordinary|].
  destruct (xyz_run_endings partial_xyz_batch partial_xyz_batch_ordinary)
    as [[_ Hmain]|[_ [files [Hs _]]]].
  - vm_compute in Hmain. discriminate.
  - exists files. split; [exact Hs|]. split.
    + vm_compute in Hs. now injection Hs as <-.
    + vm_compute. do 10 right. now left.
Defined.

(** ** The gallery of structure_viewer *)

Section Gallery.
Context {float : Type} `{PyFloat float}.
#[local] Abbreviation sv_state := (structure_viewer.loop_state).

Lemma sv_process_logs_labels (E : environment float)
    (items : list (nat * string)) (st st' : sv_state) :
  structure_viewer.process_logs E items st = (st', Ok tt) ->
  map sv_label (structure_viewer.cards_html st')
  = (map sv_label (structure_viewer.cards_html st)
     ++ map sv_label_of (filter (fun item => renders E (snd item)) items))%list
  /\ (structure_viewer.n_ok st' - len (structure_viewer.cards_html st')
      = structure_viewer.n_ok st - len (structure_viewer.cards_html st))%Z.
Proof.
  revert st. induction items as [|[i f] items IH]; intros st;
    cbn [structure_viewer.process_logs filter].
  - intros [= <-]. now rewrite app_nil_r.
  - unfold structure_viewer.process_log, renders. cbn [snd].
    destruct (read_last E f) as [atoms|e].
    + intros Hrest. destruct (IH _ Hrest) as [Hl Hn].
      cbn [structure_viewer.cards_html structure_viewer.n_ok] in Hl, Hn.
      rewrite len_app_one in Hn. split; [|lia].
      rewrite Hl, map_app, <- app_assoc. reflexivity.
    + destruct (is_Exception e); [|discriminate].
      intros Hrest. destruct (IH _ Hrest) as [Hl Hn].
      now cbn [structure_viewer.cards_html structure_viewer.n_ok] in Hl, Hn.
Qed.

(** X6.  When structure_viewer writes its gallery, the cards are those of
    the logs ASE could read, in sorted order; each card carries the
    position of its log among all the logs found (so unreadable logs
    leave gaps in the numbering) and the escaped name of that log; and
    the closing message reports the number of cards written. *)
Theorem gallery_cards_by_position (E : environment float) (out : string)
    (cards : list structure_viewer.card) :
  structure_viewer.written (structure_viewer.main E) = Some (out, cards) ->
  map sv_label cards
  = map sv_label_of
      (filter (fun item => renders E (snd item)) (enumerate (discovered_logs E)))
  /\ In (structure_viewer.Done out (len cards))
        (structure_viewer.printed (structure_viewer.main E)).
Proof.
  unfold structure_viewer.main. fold (discovered_logs E).
  destruct (discovered_logs E) as [|l logs]; [discriminate|].
  destruct (structure_viewer.process_logs E _ _) as [st [[]|e]] eqn:Hloop;
    [|discriminate].
  destruct (sv_process_logs_labels E _ _ _ Hloop) as [Hl Hn].
  cbn [structure_viewer.cards_html structure_viewer.n_ok map app] in Hl, Hn.
  destruct (structure_viewer.cards_html st) as [|c cs] eqn:Hcards;
    [discriminate|].
  cbn [structure_viewer.written structure_viewer.printed].
  intros [= <- <-]. split; [exact Hl|].
  apply in_or_app. right. left. f_equal. unfold len in *. cbn [List.length] in *.
  lia.
Qed.

End Gallery.

Lemma gallery_cards_by_position_witness :
  exists (out : string) (cards : list structure_viewer.card),
    structure_viewer.written (structure_viewer.main mixed_batch)
    = Some (out, cards)
    /\ map sv_label cards
       = [(0, "a_ts.log"); (1, "b_failed.log"); (5, "f_min.log");
          (6, "g_saddle.log")]%Z
    /\ In (structure_viewer.Done out 4)
          (structure_viewer.printed (structure_viewer.main mixed_batch)).
Proof.
  destruct (structure_viewer.written (structure_viewer.main mixed_batch))
    as [[out cards]|] eqn:Hw; [|vm_compute in Hw; discriminate].
  exists out, cards. split; [reflexivity|].
  destruct (gallery_cards_by_position mixed_batch out cards Hw) as [Hl Hd].
  split.
  - rewrite Hl. reflexivity.
  - replace 4%Z with (len cards); [exact Hd|].
    vm_compute in Hw. now injection Hw as _ <-.
Defined.

(** ** More on the natural order of xyz_viewer *)

Lemma lower_char_digit (c : ascii) : is_digit (xyz_viewer.lower_char c) = is_digit c.
Proof. destruct c as [[] [] [] [] [] [] [] []]; reflexivity. Qed.

Lemma lower_char_slash (c : ascii) :
  Ascii.eqb (xyz_viewer.lower_char c) "/" = Ascii.eqb c "/".
Proof. destruct c as [[] [] [] [] [] [] [] []]; reflexivity. Qed.

Lemma lower_char_idem (c : ascii) :
  xyz_viewer.lower_char (xyz_viewer.lower_char c) = xyz_viewer.lower_char c.
Proof. destruct c as [[] [] [] [] [] [] [] []]; reflexivity. Qed.

Lemma lower_char_isdigit (c : ascii) :
  xyz_viewer.isdigit_char (xyz_viewer.lower_char c) = xyz_viewer.isdigit_char c.
Proof. destruct c as [[] [] [] [] [] [] [] []]; reflexivity. Qed.

Lemma lower_char_of_isdigit (c : ascii) :
  xyz_viewer.isdigit_char c = true -> xyz_viewer.lower_char c = c.
Proof. destruct c as [[] [] [] [] [] [] [] []]; (discriminate || reflexivity). Qed.

Lemma lower_idem (s : string) : xyz_viewer.lower (xyz_viewer.lower s) = xyz_viewer.lower s.
Proof.
  induction s as [|c s IH]; cbn [xyz_viewer.lower]; [reflexivity|].
  now rewrite lower_char_idem, IH.
Qed.

Lemma lower_all_isdigit (s : string) :
  xyz_viewer.all_isdigit (xyz_viewer.lower s) = xyz_viewer.all_isdigit s.
Proof.
  induction s as [|c s IH]; cbn [xyz_viewer.lower xyz_viewer.all_isdigit];
    [reflexivity | now rewrite lower_char_isdigit, IH].
Qed.

Lemma lower_isdigit (s : string) :
  xyz_viewer.isdigit (xyz_viewer.lower s) = xyz_viewer.isdigit s.
Proof.
  destruct s as [|c s]; [reflexivity|].
  exact (lower_all_isdigit (String c s)).
Qed.

Lemma lower_of_all_isdigit (d : string) :
  xyz_viewer.all_isdigit d = true -> xyz_viewer.lower d = d.
Proof.
  induction d as [|c d IH]; cbn [xyz_viewer.lower xyz_viewer.all_isdigit];
    [reflexivity|].
  intros Hd. apply andb_true_iff in Hd as [Hc Hd].
  now rewrite (lower_char_of_isdigit c Hc), (IH Hd).
Qed.

Lemma lower_of_isdigit (d : string) :
  xyz_viewer.isdigit d = true -> xyz_viewer.lower d = d.
Proof.
  destruct d as [|c d]; [reflexivity|]. apply lower_of_all_isdigit.
Qed.

Lemma lower_no_slash (s : string) :
  has_char "/" (xyz_viewer.lower s) = has_char "/" s.
Proof.
  induction s as [|c s IH]; cbn [xyz_viewer.lower has_char]; [reflexivity|].
  now rewrite lower_char_slash, IH.
Qed.

Lemma lower_starts_with_digit (s : string) :
  xyz_viewer.starts_with_digit (xyz_viewer.lower s) = xyz_viewer.starts_with_digit s.
Proof. destruct s as [|c s]; [reflexivity | apply lower_char_digit]. Qed.

Lemma re_split_digits_lower (s : string) :
  xyz_viewer.re_split_digits (xyz_viewer.lower s)
  = map xyz_viewer.lower (xyz_viewer.re_split_digits s).
Proof.
  induction s as [|c s IH]; [reflexivity|].
  cbn [xyz_viewer.lower xyz_viewer.re_split_digits].
  rewrite IH, lower_char_digit, lower_starts_with_digit.
  destruct (xyz_viewer.re_split_digits s) as [|t more]; [reflexivity|].
  cbn [map].
  destruct (is_digit c); [|reflexivity].
  destruct (xyz_viewer.starts_with_digit s).
  - destruct more as [|d more']; reflexivity.
  - reflexivity.
Qed.

Lemma key_of_lower_piece (piece : string) :
  (if xyz_viewer.isdigit (xyz_viewer.lower piece)
   then n <- xyz_viewer.int (xyz_viewer.lower piece) ;; Ok (xyz_viewer.Number n)
   else Ok (xyz_viewer.Text (xyz_viewer.lower (xyz_viewer.lower piece))))
  = (if xyz_viewer.isdigit piece
     then n <- xyz_viewer.int piece ;; Ok (xyz_viewer.Number n)
     else Ok (xyz_viewer.Text (xyz_viewer.lower piece))).
Proof.
  rewrite lower_isdigit, lower_idem.
  destruct (xyz_viewer.isdigit piece) eqn:Hd; [|reflexivity].
  now rewrite (lower_of_isdigit piece Hd).
Qed.

Lemma natural_key_lower (dir name : string) :
  has_char "/" name = false ->
  xyz_viewer._natural_key (dir ++ String "/" name)
  = xyz_viewer._natural_key (xyz_viewer.lower name).
Proof.
  intros Hn. unfold xyz_viewer._natural_key.
  rewrite (basename_dir dir name Hn), basename_plain
    by now rewrite lower_no_slash.
  rewrite re_split_digits_lower, mapM_map.
  apply mapM_ext. intros piece. now rewrite key_of_lower_piece.
Qed.

(** X7.  The sort key of xyz_viewer looks at the file name only and not
    at the case of its letters: two paths whose file names agree up to
    letter case have the same key, whatever their directories. *)
Theorem natural_key_ignores_case_and_directory (dir1 dir2 name1 name2 : string) :
  has_char "/" name1 = false ->
  has_char "/" name2 = false ->
  xyz_viewer.lower name1 = xyz_viewer.lower name2 ->
  xyz_viewer._natural_key (dir1 ++ String "/" name1)
  = xyz_viewer._natural_key (dir2 ++ String "/" name2).
Proof.
  intros H1 H2 Hl.
  now rewrite (natural_key_lower dir1 name1 H1),
              (natural_key_lower dir2 name2 H2), Hl.
Qed.

Lemma natural_key_ignores_case_and_directory_witness :
  xyz_viewer._natural_key "min_xyz/TS12_Final.xyz"
  = xyz_viewer._natural_key "elsewhere/ts12_final.XYZ".
Proof.
  apply (natural_key_ignores_case_and_directory
           "min_xyz" "elsewhere" "TS12_Final.xyz" "ts12_final.XYZ");
    reflexivity.
Defined.

Lemma key_lt_irrefl (a : list xyz_viewer.chunk) : xyz_viewer.key_lt a a = Ok false.
Proof.
  induction a as [|x a IH]; cbn [xyz_viewer.key_lt]; [reflexivity|].
  destruct x as [n|s]; cbn [xyz_viewer.chunk_eqb].
  - now rewrite Z.eqb_refl.
  - now rewrite String.eqb_refl.
Qed.

Section Stability.
Context {A : Type}.
#[local] Abbreviation keyed := (list xyz_viewer.chunk * A)%type.
Variable P : keyed -> bool.

Lemma insert_by_key_in (x : keyed) (l r : list keyed) (y : keyed) :
  xyz_viewer.insert_by_key x l = Ok r -> In y r -> y = x \/ In y l.
Proof.
  revert r. induction l as [|z l IH]; intros r; cbn [xyz_viewer.insert_by_key].
  - intros [= <-] [->|[]]. now left.
  - destruct (xyz_viewer.key_lt (fst z) (fst x)) as [[]|e]; cbn [bind];
      [| |discriminate].
    + destruct (xyz_viewer.insert_by_key x l) as [r'|e]; cbn [bind];
        [|discriminate].
      intros [= <-] [->|Hin]; [right; now left|].
      destruct (IH r' eq_refl Hin) as [->|Hl]; [now left | right; now right].
    + intros [= <-] [->|Hin]; [now left | now right].
Qed.

Lemma sort_by_key_in (l r : list keyed) (y : keyed) :
  xyz_viewer.sort_by_key l = Ok r -> In y r -> In y l.
Proof.
  revert r. induction l as [|x l IH]; intros r; cbn [xyz_viewer.sort_by_key].
  - now intros [= <-].
  - destruct (xyz_viewer.sort_by_key l) as [r0|e]; cbn [bind]; [|discriminate].
    intros Hins Hin.
    destruct (insert_by_key_in x r0 r y Hins Hin) as [->|Hr0];
      [now left | right; now apply (IH r0)].
Qed.

Lemma insert_by_key_filter (x : keyed) (l r : list keyed) :
  (forall y, In y l -> P x = true -> P y = true ->
             xyz_viewer.key_lt (fst y) (fst x) <> Ok true) ->
  xyz_viewer.insert_by_key x l = Ok r ->
  filter P r = filter P (x :: l).
Proof.
  revert r. induction l as [|z l IH]; intros r Htie;
    cbn [xyz_viewer.insert_by_key].
  - now intros [= <-].
  - destruct (xyz_viewer.key_lt (fst z) (fst x)) as [[]|e] eqn:Hlt; cbn [bind];
      [| |discriminate].
    + destruct (xyz_viewer.insert_by_key x l) as [r'|e] eqn:Hins; cbn [bind];
        [|discriminate].
      intros [= <-]. cbn [filter].
      rewrite (IH r' (fun y Hy => Htie y (or_intror Hy)) eq_refl).
      cbn [filter].
      destruct (P x) eqn:Hx; [|reflexivity].
      destruct (P z) eqn:Hz; [|reflexivity].
      now destruct (Htie z (or_introl eq_refl) eq_refl Hz).
    + now intros [= <-].
Qed.

Lemma sort_by_key_filter (l r : list keyed) :
  (forall x y, In x l -> In y l -> P x = true -> P y = true ->
               xyz_viewer.key_lt (fst y) (fst x) <> Ok true) ->
  xyz_viewer.sort_by_key l = Ok r ->
  filter P r = filter P l.
Proof.
  revert r. induction l as [|x l IH]; intros r Htie;
    cbn [xyz_viewer.sort_by_key].
  - now intros [= <-].
  - destruct (xyz_viewer.sort_by_key l) as [r0|e] eqn:Hsort; cbn [bind];
      [|discriminate].
    intros Hins.
    rewrite (insert_by_key_filter x r0 r); [|
      intros y Hy; apply Htie; [now left | right; now apply (sort_by_key_in l r0)]
      | exact Hins].
    cbn [filter].
    rewrite (IH r0); [reflexivity | | reflexivity].
    intros a b Ha Hb. apply Htie; now right.
Qed.

End Stability.

Lemma filter_map_swap {A B : Type} (f : B -> bool) (g : A -> B) (l : list A) :
  filter f (map g l) = map g (filter (fun a => f (g a)) l).
Proof.
  induction l as [|a l IH]; cbn [map filter]; [reflexivity|].
  destruct (f (g a)); cbn [map]; now rewrite IH.
Qed.

(** X8.  The natural sort of xyz_viewer is stable where it succeeds, and
    it succeeds exactly on the names that have a key.  When no discovered
    name has a chunk that isdigit accepts and int rejects (a run of the
    superscript digits U+00B2, U+00B3, U+00B9), the sort returns, and
    paths with the same key (names that differ in letter case or in
    leading zeros only) keep the order in which glob returned them.
    When some discovered name has such a chunk, the sort raises
    ValueError. *)
Theorem natural_sort_is_stable (paths : list string) :
  (Forall (fun p => key_fails p = false) paths ->
   exists files : list string,
     xyz_viewer.sorted_natural paths = Ok files
     /\ forall q : string,
          filter (same_key q) files = filter (same_key q) paths)
  /\ (Exists (fun p => key_fails p = true) paths ->
      xyz_viewer.sorted_natural paths = Raise ValueError).
Proof.
  split; [|apply sorted_natural_fails].
  intros Hplain.
  destruct (sorted_natural_sorted paths Hplain) as [files [Hs _]].
  exists files. split; [exact Hs|]. intros q.
  unfold xyz_viewer.sorted_natural in Hs.
  rewrite (keys_of_paths paths Hplain) in Hs. cbn [bind] in Hs.
  destruct (xyz_viewer.sort_by_key _) as [r|e] eqn:Hsort; cbn [bind] in Hs;
    [|discriminate].
  injection Hs as <-.
  rewrite filter_map_swap.
  rewrite (sort_by_key_filter (fun kp => same_key q (snd kp))
             (map (fun p => (key_of p, p)) paths) r);
    [| |exact Hsort].
  - rewrite <- filter_map_swap, map_map. cbn [snd]. now rewrite map_id.
  - intros x y Hx Hy Px Py.
    apply in_map_iff in Hx as [p [<- _]]. apply in_map_iff in Hy as [p' [<- _]].
    cbn [fst snd] in *. unfold same_key in Px, Py.
    destruct (key_compare _ (key_of p)) eqn:Hp; try discriminate.
    destruct (key_compare _ (key_of p')) eqn:Hp'; try discriminate.
    apply key_compare_eq in Hp, Hp'.
    rewrite <- Hp, <- Hp', key_lt_irrefl. discriminate.
Qed.

Lemma natural_sort_is_stable_witness :
  (exists files : list string,
     xyz_viewer.sorted_natural
       ["min_xyz/B2.xyz"; "min_xyz/b02.xyz"; "min_xyz/a1.xyz"] = Ok files
     /\ files = ["min_xyz/a1.xyz"; "min_xyz/B2.xyz"; "min_xyz/b02.xyz"]
     /\ filter (same_key "min_xyz/b2.xyz") files
        = ["min_xyz/B2.xyz"; "min_xyz/b02.xyz"])
  /\ xyz_viewer.sorted_natural ["min_xyz/s1.xyz"; squared_name]
     = Raise ValueError.
Proof.
  split.
  - destruct (proj1 (natural_sort_is_stable
                       ["min_xyz/B2.xyz"; "min_xyz/b02.xyz"; "min_xyz/a1.xyz"]))
      as [files [Hs Hstable]].
    + repeat constructor.
    + exists files. split; [exact Hs|]. split.
      * vm_compute in Hs. now injection Hs as <-.
      * rewrite Hstable. reflexivity.
  - apply (proj2 (natural_sort_is_stable ["min_xyz/s1.xyz"; squared_name])).
    apply Exists_cons_tl. apply Exists_cons_hd. reflexivity.
Defined.

(** ** The lines of the embedded scripts *)

Lemma replace_app (old : ascii) (new a b : string) :
  replace old new (a ++ b) = replace old new a ++ replace old new b.
Proof.
  induction a as [|c a IH]; cbn [append replace]; [reflexivity|].
  rewrite IH. destruct (Ascii.eqb c old); cbn [char append].
  - now rewrite string_app_assoc.
  - reflexivity.
Qed.

Lemma replace_free (old : ascii) (new s : string) :
  has_char old s = false -> replace old new s = s.
Proof.
  induction s as [|c s IH]; cbn [has_char replace]; [reflexivity|].
  intros Hs. apply orb_false_iff in Hs as [Hc Hs].
  now rewrite Hc, (IH Hs).
Qed.

Lemma join_cons (sep p : string) (rest : list string) :
  rest <> [] -> join sep (p :: rest) = p ++ sep ++ join sep rest.
Proof. destruct rest; [contradiction | reflexivity]. Qed.

Lemma join_snoc (sep : string) (parts : list string) (z : string) :
  parts <> [] -> join sep (parts ++ [z]) = join sep parts ++ sep ++ z.
Proof.
  induction parts as [|p rest IH]; [contradiction|]. intros _.
  destruct rest as [|q rest]; [reflexivity|].
  change ((p :: q :: rest) ++ [z])%list with (p :: ((q :: rest) ++ [z]))%list.
  rewrite (join_cons sep p ((q :: rest) ++ [z])) by (cbn [app]; discriminate).
  rewrite IH by discriminate.
  rewrite (join_cons sep p (q :: rest)) by discriminate.
  now rewrite !string_app_assoc.
Qed.

(** Joining with newlines and then turning newlines into bars is joining
    with bars, for lines that hold no newline. *)
Lemma replace_join (parts : list string) :
  Forall (fun p => has_char newline p = false) parts ->
  replace newline (char pipe) (join (char newline) parts)
  = join (char pipe) parts.
Proof.
  induction parts as [|p rest IH]; intros Hall; [reflexivity|].
  inversion Hall as [|? ? Hp Hrest]; subst.
  destruct rest as [|q rest].
  - now apply replace_free.
  - rewrite !join_cons by discriminate.
    rewrite !replace_app, (replace_free _ _ p Hp), (IH Hrest).
    reflexivity.
Qed.

Lemma is_fixed_no_char (c : ascii) (k : nat) (s : string) :
  is_digit c = false -> c <> "."%char -> c <> "-"%char ->
  is_fixed k s = true -> has_char c s = false.
Proof.
  intros Hn Hd Hm. unfold is_fixed. destruct s as [|a s]; [discriminate|].
  destruct (Ascii.eqb_spec a "-") as [->|Ha].
  - intros Hs. cbn [has_char].
    rewrite (fixed_unsigned_no_char c k false s Hn Hd Hs), orb_false_r.
    destruct (Ascii.eqb_spec "-"%char c); [congruence | reflexivity].
  - intros Hs.
    assert (Hs' : fixed_unsigned k false (String a s) = true).
    { revert Hs. destruct a as [[] [] [] [] [] [] [] []]; try exact (fun h => h).
      now contradiction Ha. }
    now apply (fixed_unsigned_no_char c k false).
Qed.

Lemma str_len_no_char {A : Type} (c : ascii) (xs : list A) :
  is_digit c = false -> has_char c (str (len xs)) = false.
Proof.
  intros Hc. apply all_digits_no_char; [exact Hc|].
  apply str_nonneg_digits. unfold len. lia.
Qed.

Section ScriptLines.
Context {float : Type} `{Hfinite : PyFloatFinite float}.

Lemma atom_line_no_char (c : ascii) (a : atom float) :
  is_digit c = false -> c <> "."%char -> c <> "-"%char -> c <> " "%char ->
  has_char c (symbol a) = false ->
  has_char c (ts_viewer.atom_line a) = false.
Proof.
  intros Hn Hd Hm Hsp Hs. unfold ts_viewer.atom_line.
  destruct (position a) as [[x y] z].
  rewrite !has_char_app, Hs.
  rewrite !(is_fixed_no_char c 6 _ Hn Hd Hm (format_6f_fixed _)).
  cbn [has_char]. destruct (Ascii.eqb_spec " "%char c); [congruence|reflexivity].
Qed.

(** X9.  The script that loads a structure is its XYZ block between two
    marker lines, one line per bar: for a comment and element symbols
    without newline or bar, splitting the script at bars gives the
    opening marker, the atom count, the comment, one line per atom and
    the closing marker.  The fallback functions of xyz_viewer give the
    same script. *)
Theorem data_script_lines (atoms : Atoms float) (comment : string) :
  has_char newline comment = false ->
  has_char pipe comment = false ->
  Forall (fun a => has_char newline (symbol a) = false
                   /\ has_char pipe (symbol a) = false) atoms ->
  split pipe (ts_viewer.xyz_to_jsmol_data_script
                (ts_viewer.atoms_to_xyz atoms comment))
  = ("data 'model X'" :: str (len atoms) :: comment
       :: map ts_viewer.atom_line atoms ++ ["end 'model X';"])%list
  /\ xyz_viewer.xyz_to_jsmol_data_script (xyz_viewer.atoms_to_xyz atoms comment)
     = ts_viewer.xyz_to_jsmol_data_script (ts_viewer.atoms_to_xyz atoms comment).
Proof.
  intros Hcn Hcp Hsym. split; [|reflexivity].
  unfold ts_viewer.xyz_to_jsmol_data_script, ts_viewer.atoms_to_xyz.
  cbn [app].
  rewrite replace_join.
  - set (lines := (str (len atoms) :: comment :: map ts_viewer.atom_line atoms)).
    change ("data 'model X'|" ++ join (char pipe) lines ++ "|end 'model X';")
      with ("data 'model X'" ++ char pipe
              ++ (join (char pipe) lines ++ char pipe ++ "end 'model X';")).
    rewrite <- join_snoc by discriminate.
    rewrite <- join_cons by discriminate.
    apply split_join; [discriminate|].
    constructor; [reflexivity|]. subst lines. cbn [app].
    constructor; [now apply str_len_no_char|].
    constructor; [exact Hcp|].
    apply Forall_app. split; [|now repeat constructor].
    apply Forall_map. revert Hsym. apply Forall_impl.
    intros a [_ Hp]. now apply atom_line_no_char.
  - constructor; [apply str_no_newline|].
    constructor; [exact Hcn|].
    apply Forall_map. revert Hsym. apply Forall_impl.
    intros a [Hn _]. now apply atom_line_no_newline.
Qed.

End ScriptLines.

Lemma data_script_lines_witness :
  split pipe (ts_viewer.xyz_to_jsmol_data_script
                (ts_viewer.atoms_to_xyz water "water.log"))
  = ["data 'model X'"; "3"; "water.log"; "O 0.000000 0.000000 0.119262";
     "H 0.000000 0.763239 -0.477047"; "H 0.000000 -0.763239 -0.477047";
     "end 'model X';"].
Proof.
  refine (eq_trans
            (proj1 (data_script_lines (Hfinite := micro_finite)
                      water "water.log" _ _ _)) _).
  - reflexivity.
  - reflexivity.
  - repeat constructor.
  - reflexivity.
Defined.

(** ** The vibration script *)

Lemma mapM_inv {A B : Type} (f : A -> result B) (xs : list A) (ys : list B) :
  mapM f xs = Ok ys -> Forall2 (fun x y => f x = Ok y) xs ys.
Proof.
  revert ys. induction xs as [|x xs IH]; intros ys; cbn [mapM].
  - intros [= <-]. constructor.
  - destruct (f x) as [y|e] eqn:Hx; cbn [bind]; [|discriminate].
    destruct (mapM f xs) as [ys'|e]; cbn [bind]; [|discriminate].
    intros [= <-]. constructor; [exact Hx | now apply IH].
Qed.

Lemma mapM_raise_inv {A B : Type} (f : A -> result B) (xs : list A) (e : exn) :
  mapM f xs = Raise e -> exists x, In x xs /\ f x = Raise e.
Proof.
  induction xs as [|x xs IH]; cbn [mapM]; [discriminate|].
  destruct (f x) as [y|e'] eqn:Hx; cbn [bind].
  - destruct (mapM f xs) as [ys'|e']; cbn [bind]; [discriminate|].
    intros [= <-]. destruct (IH eq_refl) as [x' [Hin Hx']].
    exists x'. split; [now right | exact Hx'].
  - intros [= <-]. exists x. split; [now left | exact Hx].
Qed.

Lemma nth_error_concat_uniform {A : Type} (w : nat) (blocks : list (list A))
    (j i : nat) (b : list A) :
  Forall (fun b => List.length b = w) blocks ->
  nth_error blocks j = Some b ->
  nth_error (List.concat blocks) (j * w + i) = nth_error (b ++ List.concat (skipn (S j) blocks)) i.
Proof.
  intros Hw. revert j. induction Hw as [|b0 blocks Hb0 Hw IH]; intros j.
  - destruct j; discriminate.
  - destruct j as [|j]; cbn [nth_error List.concat skipn].
    + intros [= <-]. reflexivity.
    + intros Hj. rewrite nth_error_app2 by lia.
      replace (S j * w + i - List.length b0)%nat with (j * w + i)%nat by lia.
      now apply IH.
Qed.

Lemma length_concat_uniform {A : Type} (w : nat) (blocks : list (list A)) :
  Forall (fun b => List.length b = w) blocks ->
  List.length (List.concat blocks) = (List.length blocks * w)%nat.
Proof.
  induction 1 as [|b blocks Hb _ IH]; [reflexivity|].
  cbn [List.concat List.length]. rewrite length_app, IH, Hb. lia.
Qed.

Lemma Forall2_in_l {A B : Type} (R : A -> B -> Prop) (xs : list A)
    (ys : list B) (x : A) :
  Forall2 R xs ys -> In x xs -> exists y, In y ys /\ R x y.
Proof.
  induction 1 as [|a b xs ys Hab _ IH]; [contradiction|].
  intros [->|Hin].
  - exists b. split; [now left | exact Hab].
  - destruct (IH Hin) as [y [Hy Hxy]]. exists y. split; [now right | exact Hxy].
Qed.

Lemma enumerate_nth {A : Type} (xs : list A) (j : nat) (x : A) :
  nth_error xs j = Some x -> In (j, x) (enumerate xs).
Proof.
  unfold enumerate.
  assert (Hgen : forall s j, nth_error xs j = Some x ->
                   In ((s + j)%nat, x) (combine (seq s (List.length xs)) xs)).
  { induction xs as [|y xs IH]; intros s k; [destruct k; discriminate|].
    destruct k as [|k]; cbn [nth_error List.length seq combine].
    - intros [= ->]. left. f_equal. lia.
    - intros Hk. right. replace (s + S k)%nat with (S s + k)%nat by lia.
      now apply IH. }
  intros Hj. exact (Hgen 0%nat j Hj).
Qed.

Section VibrationScript.
Context {float : Type} `{Hfinite : PyFloatFinite float}.
#[local] Abbreviation mode := (mode float).

Lemma vibration_rows_ok (coords : list string) (m : mode) (rows : list string) :
  ts_viewer.vibration_rows coords m = Ok rows ->
  List.length rows = List.length coords
  /\ (List.length coords <= List.length m)%nat
  /\ forall c : ascii,
       is_digit c = false -> c <> "."%char -> c <> "-"%char -> c <> " "%char ->
       Forall (fun l => has_char c l = false) coords ->
       Forall (fun l => has_char c l = false) rows.
Proof.
  unfold ts_viewer.vibration_rows. intros Hm. apply mapM_inv in Hm.
  split; [|split].
  - apply Forall2_length in Hm. rewrite <- Hm. unfold enumerate.
    now rewrite length_combine, length_seq, Nat.min_id.
  - destruct (Nat.le_gt_cases (List.length coords) (List.length m)) as [|Hlt];
      [assumption|exfalso].
    destruct (nth_error coords (List.length m)) as [l|] eqn:Hl;
      [|apply nth_error_None in Hl; lia].
    pose proof (enumerate_nth coords (List.length m) l Hl) as Hin.
    destruct (Forall2_in_l _ _ _ _ Hm Hin) as [row [_ Hrow]]. cbn [fst snd] in Hrow.
    rewrite (proj2 (nth_error_None m (List.length m)) (Nat.le_refl _)) in Hrow.
    discriminate.
  - intros c Hn Hd Hmin Hsp Hcoords.
    assert (Hgen : forall items,
              Forall (fun jc : nat * string => has_char c (snd jc) = false) items ->
              forall rows',
                Forall2 (fun (jc : nat * string) (y : string) =>
                           match nth_error m (fst jc) with
                           | Some (dx, dy, dz) =>
                               Ok (snd jc ++ " 0 " ++ format_6f dx ++ " "
                                          ++ format_6f dy ++ " " ++ format_6f dz)
                           | None => Raise IndexError
                           end = Ok y) items rows' ->
                Forall (fun l => has_char c l = false) rows').
    { intros items Hitems rows' H2.
      induction H2 as [|jc y items rows' Hy _ IH]; [constructor|].
      inversion Hitems as [|? ? Hjc Hrest]; subst.
      constructor; [|now apply IH].
      destruct (nth_error m (fst jc)) as [[[dx dy] dz]|]; [|discriminate].
      injection Hy as <-.
      rewrite has_char_app, Hjc.
      repeat (progress cbn [has_char] || rewrite has_char_app).
      rewrite !(is_fixed_no_char c 6 _ Hn Hd Hmin (format_6f_fixed _)).
      destruct (Ascii.eqb_spec " "%char c); [congruence|].
      destruct (Ascii.eqb_spec "0"%char c) as [<-|]; [discriminate|].
      reflexivity. }
    apply (Hgen (enumerate coords)); [|exact Hm].
    apply Forall_forall. intros [j l] Hin. cbn [snd].
    apply in_combine_r in Hin.
    exact (proj1 (Forall_forall _ _) Hcoords l Hin).
Qed.

Lemma vibration_rows_short (coords : list string) (m : mode) (e : exn) :
  ts_viewer.vibration_rows coords m = Raise e ->
  e = IndexError /\ (List.length m < List.length coords)%nat.
Proof.
  unfold ts_viewer.vibration_rows. intros Hm.
  apply mapM_raise_inv in Hm as [[j l] [Hin Hrow]]. cbn [fst snd] in Hrow.
  apply enumerate_bound in Hin.
  destruct (nth_error m j) as [[[dx dy] dz]|] eqn:Hj; [discriminate|].
  injection Hrow as <-. apply nth_error_None in Hj. split; [reflexivity | lia].
Qed.

(** X10.  [create_jsmol_vibration_script] looks only at the tables that
    are paired with a frequency.  It returns no script exactly when a
    list is empty; otherwise it returns a script exactly when each paired
    table has a row for every atom, and raises IndexError exactly when
    one of them is too short. *)
Theorem vibration_script_cases (atoms : Atoms float) (frequencies : list float)
    (normal_modes : list mode) :
  let paired := firstn (List.length frequencies) normal_modes in
  let r := ts_viewer.create_jsmol_vibration_script atoms frequencies normal_modes in
  (r = Ok None <-> frequencies = [] \/ normal_modes = [])
  /\ ((exists v, r = Ok (Some v))
      <-> frequencies <> [] /\ normal_modes <> []
          /\ Forall (fun m : mode => (List.length atoms <= List.length m)%nat) paired)
  /\ ((exists e, r = Raise e)
      <-> frequencies <> [] /\ normal_modes <> []
          /\ Exists (fun m : mode => (List.length m < List.length atoms)%nat) paired)
  /\ (forall e, r = Raise e -> e = IndexError).
Proof.
  intros paired r. subst paired r.
  unfold ts_viewer.create_jsmol_vibration_script.
  destruct frequencies as [|f fs].
  { split; [split; [intros _; now left | reflexivity]|].
    split; [split; [intros [v Hv]; discriminate
                   | intros [Hne _]; now contradiction Hne]|].
    split; [split; [intros [e He]; discriminate
                   | intros [Hne _]; now contradiction Hne]|].
    discriminate. }
  destruct normal_modes as [|m ms].
  { split; [split; [intros _; now right | reflexivity]|].
    split; [split; [intros [v Hv]; discriminate
                   | intros [_ [Hne _]]; now contradiction Hne]|].
    split; [split; [intros [e He]; discriminate
                   | intros [_ [Hne _]]; now contradiction Hne]|].
    discriminate. }
  set (pairs := combine (f :: fs) (m :: ms)).
  assert (Hsnd : map snd pairs = firstn (List.length (f :: fs)) (m :: ms)).
  { subst pairs. generalize (f :: fs) (m :: ms). clear.
    induction l as [|x l IH]; intros [|y l']; cbn [combine map firstn List.length];
      try reflexivity. cbn [snd]. now rewrite IH. }
  rewrite <- Hsnd.
  destruct (mapM _ pairs) as [frames|e] eqn:Hm; cbn [bind].
  - apply mapM_inv in Hm.
    assert (Hall : Forall (fun m0 : mode =>
                             (List.length atoms <= List.length m0)%nat)
                          (map snd pairs)).
    { apply Forall_map. apply Forall_forall. intros fm Hin.
      destruct (Forall2_in_l _ _ _ _ Hm Hin) as [fr [_ Hfr]].
      unfold ts_viewer.vibration_frame in Hfr.
      destruct (ts_viewer.vibration_rows _ (snd fm)) as [rows|e] eqn:Hrows;
        [|discriminate].
      apply vibration_rows_ok in Hrows as [_ [Hle _]].
      now rewrite length_map in Hle. }
    split; [split; [discriminate | intros [|]; discriminate]|].
    split; [split; [intros _; repeat split; easy | intros _; now eexists]|].
    split; [|discriminate].
    split; [intros [e He]; discriminate|].
    intros [_ [_ Hex]]. exfalso.
    apply Exists_exists in Hex as [m0 [Hin Hlt]].
    pose proof (proj1 (Forall_forall _ _) Hall m0 Hin) as Hle.
    cbn beta in Hle. lia.
  - apply mapM_raise_inv in Hm as [fm [Hin Hfm]].
    unfold ts_viewer.vibration_frame in Hfm.
    destruct (ts_viewer.vibration_rows _ (snd fm)) as [rows|e'] eqn:Hrows;
      [discriminate|].
    cbn [bind] in Hfm. injection Hfm as ->.
    apply vibration_rows_short in Hrows as [-> Hlt].
    rewrite length_map in Hlt.
    split; [split; [discriminate | intros [|]; discriminate]|].
    split.
    { split; [intros [v Hv]; discriminate|].
      intros [_ [_ Hall]]. exfalso.
      pose proof (proj1 (Forall_forall _ _) Hall (snd fm) (in_map snd _ _ Hin))
        as Hle.
      cbn beta in Hle. lia. }
    split; [|now intros e [= <-]].
    split; [|intros _; now eexists].
    intros _. repeat split; try easy.
    apply Exists_exists. exists (snd fm). split; [now apply in_map | exact Hlt].
Qed.

End VibrationScript.

Lemma vibration_script_cases_witness :
  ts_viewer.create_jsmol_vibration_script water [water_freq] [cut_mode; water_mode]
  = Raise IndexError
  /\ (exists v,
        ts_viewer.create_jsmol_vibration_script water [water_freq]
          [water_mode; cut_mode] = Ok (Some v)).
Proof.
  split.
  - destruct (vibration_script_cases (Hfinite := micro_finite)
                water [water_freq] [cut_mode; water_mode])
      as [_ [_ [Hraise Hindex]]].
    destruct (proj2 Hraise) as [e He].
    + repeat split; try discriminate. left. cbn. lia.
    + now rewrite He, (Hindex e He).
  - apply (vibration_script_cases (Hfinite := micro_finite)
             water [water_freq] [water_mode; cut_mode]).
    repeat split; try discriminate. repeat constructor.
Defined.

Lemma nth_error_combine_pair {A B : Type} (xs : list A) (ys : list B)
    (j : nat) (x : A) (y : B) :
  nth_error xs j = Some x -> nth_error ys j = Some y ->
  nth_error (combine xs ys) j = Some (x, y).
Proof.
  revert j ys. induction xs as [|a xs IH]; intros [|j] [|b ys];
    cbn [nth_error combine]; try discriminate.
  - now intros [= ->] [= ->].
  - apply IH.
Qed.

Lemma Forall2_nth {A B : Type} (R : A -> B -> Prop) (xs : list A)
    (ys : list B) (j : nat) (x : A) (y : B) :
  Forall2 R xs ys -> nth_error xs j = Some x -> nth_error ys j = Some y ->
  R x y.
Proof.
  intros H2. revert j. induction H2 as [|a b xs ys Hab _ IH]; intros [|j];
    cbn [nth_error]; try discriminate.
  - now intros [= ->] [= ->].
  - apply IH.
Qed.

Section VibrationFrames.
Context {float : Type} `{Hfinite : PyFloatFinite float}.
#[local] Abbreviation mode := (mode float).

Lemma vibration_frame_shape (atoms : Atoms float) (fm : float * mode)
    (frame : list string) :
  ts_viewer.vibration_frame (len atoms) (map ts_viewer.atom_line atoms) fm
  = Ok frame ->
  List.length frame = (List.length atoms + 2)%nat
  /\ nth_error frame 0 = Some (str (len atoms))
  /\ nth_error frame 1 = Some ("freq = " ++ format_2f (fst fm) ++ " cm-1")
  /\ forall c : ascii,
       is_digit c = false -> c <> "."%char -> c <> "-"%char -> c <> " "%char ->
       Forall (fun a => has_char c (symbol a) = false) atoms ->
       has_char c ("freq = " ++ format_2f (fst fm) ++ " cm-1") = false ->
       Forall (fun l => has_char c l = false) frame.
Proof.
  unfold ts_viewer.vibration_frame.
  destruct (ts_viewer.vibration_rows _ (snd fm)) as [rows|e] eqn:Hrows;
    [|discriminate].
  cbn [bind app]. intros [= <-].
  apply vibration_rows_ok in Hrows as [Hlen [_ Hfree]].
  rewrite length_map in Hlen.
  split; [cbn [List.length]; lia|].
  split; [reflexivity|]. split; [reflexivity|].
  intros c Hn Hd Hm Hsp Hsym Hlabel.
  constructor; [now apply str_len_no_char|].
  constructor; [exact Hlabel|].
  apply (Hfree c Hn Hd Hm Hsp).
  apply Forall_map. revert Hsym. apply Forall_impl.
  intros a Ha. now apply atom_line_no_char.
Qed.

Lemma vibration_script_split (atoms : Atoms float) (frequencies : list float)
    (normal_modes : list mode) (v : string) :
  Forall (fun a => has_char newline (symbol a) = false
                   /\ has_char pipe (symbol a) = false) atoms ->
  Forall (fun f => is_fixed 2 (format_2f f) = true) frequencies ->
  ts_viewer.create_jsmol_vibration_script atoms frequencies normal_modes
  = Ok (Some v) ->
  exists frames : list (list string),
    Forall2 (fun fm fr =>
               ts_viewer.vibration_frame (len atoms)
                 (map ts_viewer.atom_line atoms) fm = Ok fr)
            (combine frequencies normal_modes) frames
    /\ Forall (fun fr => List.length fr = (List.length atoms + 2)%nat) frames
    /\ split pipe v
       = ("load data 'model VIBRATIONS'" :: List.concat frames
            ++ ["end 'model VIBRATIONS'"])%list.
Proof.
  intros Hsym Hfreq. unfold ts_viewer.create_jsmol_vibration_script.
  destruct frequencies as [|f0 fs]; [discriminate|].
  destruct normal_modes as [|m0 ms]; [discriminate|].
  set (fs' := f0 :: fs) in *. set (ms' := m0 :: ms) in *.
  destruct (mapM _ (combine fs' ms')) as [frames|e] eqn:Hm; cbn [bind];
    [|discriminate].
  intros Hv. apply mapM_inv in Hm.
  assert (Hlabel : forall c fm, is_digit c = false -> c <> "."%char ->
                     c <> "-"%char -> c <> " "%char ->
                     has_char c "freq=cm1" = false ->
                     In fm (combine fs' ms') ->
                     has_char c ("freq = " ++ format_2f (fst fm) ++ " cm-1")
                     = false).
  { intros c [f m] Hn Hd Hmi Hsp Hc Hin. apply in_combine_l in Hin.
    cbn [fst].
    pose proof (proj1 (Forall_forall _ _) Hfreq _ Hin) as Hfix. cbn beta in Hfix.
    rewrite !has_char_app, (is_fixed_no_char c 2 _ Hn Hd Hmi Hfix).
    cbn [has_char] in *.
    destruct (Ascii.eqb "f" c), (Ascii.eqb "r" c), (Ascii.eqb "e" c),
      (Ascii.eqb "q" c), (Ascii.eqb "=" c), (Ascii.eqb "c" c),
      (Ascii.eqb "m" c), (Ascii.eqb "1" c); try discriminate.
    destruct (Ascii.eqb_spec " "%char c); [congruence|].
    destruct (Ascii.eqb_spec "-"%char c); [congruence|]. reflexivity. }
  assert (Hshape : Forall (fun fr => List.length fr = (List.length atoms + 2)%nat)
                     frames
                   /\ Forall (Forall (fun l => has_char newline l = false)) frames
                   /\ Forall (Forall (fun l => has_char pipe l = false)) frames).
  { clear -Hm Hsym Hlabel Hfinite.
    induction Hm as [|fm fr pairs frames Hfr _ IH].
    - repeat constructor.
    - destruct IH as [IH1 [IH2 IH3]];
        [intros c fm' ? ? ? ? ? Hin; apply Hlabel; try assumption; now right|].
      destruct (vibration_frame_shape atoms fm fr Hfr) as [Hlen [_ [_ Hfree]]].
      split; [now constructor|]. split; constructor; try assumption.
      + apply Hfree; try easy.
        * revert Hsym. apply Forall_impl. now intros a [Ha _].
        * apply Hlabel; try easy. now left.
      + apply Hfree; try easy.
        * revert Hsym. apply Forall_impl. now intros a [_ Ha].
        * apply Hlabel; try easy. now left. }
  destruct Hshape as [Hw [Hnl Hbar]].
  set (lines := ("load data 'model VIBRATIONS'" :: List.concat frames
                   ++ ["end 'model VIBRATIONS'"])%list).
  assert (Hsplit : split pipe (replace newline (char pipe)
                                 (join (char newline) lines)) = lines).
  { rewrite replace_join.
    - apply split_join; [discriminate|]. subst lines.
      constructor; [reflexivity|]. apply Forall_app.
      split; [now apply Forall_concat | now repeat constructor].
    - subst lines. constructor; [reflexivity|]. apply Forall_app.
      split; [now apply Forall_concat | now repeat constructor]. }
  assert (Hscript : v = replace newline (char pipe) (join (char newline) lines)).
  { injection Hv as <-. reflexivity. }
  exists frames. split; [exact Hm|]. split; [exact Hw|].
  now rewrite Hscript, Hsplit.
Qed.

(** Where the first two lines of frame [j] stand in the script *)
Lemma vibration_frame_at (atoms : Atoms float) (frequencies : list float)
    (normal_modes : list mode) (frames : list (list string)) (j : nat)
    (f : float) :
  let w := (List.length atoms + 2)%nat in
  let lines := ("load data 'model VIBRATIONS'" :: List.concat frames
                  ++ ["end 'model VIBRATIONS'"])%list in
  Forall2 (fun fm fr =>
             ts_viewer.vibration_frame (len atoms)
               (map ts_viewer.atom_line atoms) fm = Ok fr)
          (combine frequencies normal_modes) frames ->
  Forall (fun fr => List.length fr = w) frames ->
  (j < List.length normal_modes)%nat ->
  nth_error frequencies j = Some f ->
  nth_error lines (1 + j * w) = Some (str (len atoms))
  /\ nth_error lines (2 + j * w)
     = Some ("freq = " ++ format_2f f ++ " cm-1").
Proof.
  intros w lines Hm Hw Hj Hf. subst lines.
  assert (Hk : List.length frames
               = Nat.min (List.length frequencies) (List.length normal_modes)).
  { apply Forall2_length in Hm. now rewrite <- Hm, length_combine. }
  pose proof (length_concat_uniform w frames Hw) as Hcat.
  assert (Hjk : (j < List.length frames)%nat).
  { rewrite Hk.
    assert (j < List.length frequencies)%nat
      by (apply nth_error_Some; congruence).
    lia. }
  destruct (nth_error frames j) as [fr|] eqn:Hfr;
    [|apply nth_error_None in Hfr; lia].
  assert (Hpair : exists m,
            nth_error (combine frequencies normal_modes) j = Some (f, m)).
  { destruct (nth_error normal_modes j) as [m|] eqn:Hmj;
      [|apply nth_error_None in Hmj; lia].
    exists m. now apply nth_error_combine_pair. }
  destruct Hpair as [m Hpair].
  assert (Hframe : ts_viewer.vibration_frame (len atoms)
                     (map ts_viewer.atom_line atoms) (f, m) = Ok fr).
  { exact (Forall2_nth _ _ _ j (f, m) fr Hm Hpair Hfr). }
  destruct (vibration_frame_shape atoms (f, m) fr Hframe)
    as [Hlen [H0 [H1 _]]]. cbn [fst] in H1.
  assert (Hat : forall i, (i < w)%nat ->
            nth_error (List.concat frames ++ ["end 'model VIBRATIONS'"])
                      (j * w + i) = nth_error fr i).
  { intros i Hi.
    assert (Hbound : (j * w + i < List.length (List.concat frames))%nat).
    { rewrite Hcat. nia. }
    rewrite nth_error_app1 by exact Hbound.
    rewrite (nth_error_concat_uniform w frames j i fr Hw Hfr).
    apply nth_error_app1. fold w in Hlen. lia. }
  split.
  + rewrite <- H0.
    change (nth_error (List.concat frames ++ ["end 'model VIBRATIONS'"])
                      (j * w) = nth_error fr 0).
    replace (j * w)%nat with (j * w + 0)%nat by lia.
    apply Hat. unfold w. lia.
  + rewrite <- H1.
    change (nth_error (List.concat frames ++ ["end 'model VIBRATIONS'"])
                      (S (j * w)) = nth_error fr 1).
    replace (S (j * w)) with (j * w + 1)%nat by lia.
    apply Hat. unfold w. lia.
Qed.

(** X11.  The vibration script is a sequence of XYZ frames between two
    marker lines, one line per bar.  For element symbols without newline
    or bar and finite frequencies, the script splits at bars into the
    opening marker, then for each frequency that has a table a frame of
    N + 2 lines which starts with the atom count N and the label of that
    frequency, then the closing marker. *)
Theorem vibration_script_frames (atoms : Atoms float) (frequencies : list float)
    (normal_modes : list mode) (v : string) :
  Forall (fun a => has_char newline (symbol a) = false
                   /\ has_char pipe (symbol a) = false) atoms ->
  Forall (fun f => is_fixed 2 (format_2f f) = true) frequencies ->
  ts_viewer.create_jsmol_vibration_script atoms frequencies normal_modes
  = Ok (Some v) ->
  let lines := split pipe v in
  let w := (List.length atoms + 2)%nat in
  let k := Nat.min (List.length frequencies) (List.length normal_modes) in
  List.length lines = (2 + k * w)%nat
  /\ nth_error lines 0 = Some "load data 'model VIBRATIONS'"
  /\ nth_error lines (1 + k * w) = Some "end 'model VIBRATIONS'"
  /\ forall (j : nat) (f : float),
       (j < List.length normal_modes)%nat ->
       nth_error frequencies j = Some f ->
       nth_error lines (1 + j * w) = Some (str (len atoms))
       /\ nth_error lines (2 + j * w)
          = Some ("freq = " ++ format_2f f ++ " cm-1").
Proof.
  intros Hsym Hfreq Hv.
  destruct (vibration_script_split atoms frequencies normal_modes v
              Hsym Hfreq Hv) as [frames [Hm [Hw Hsplit]]].
  cbn zeta. rewrite Hsplit.
  assert (Hk : List.length frames
               = Nat.min (List.length frequencies) (List.length normal_modes)).
  { apply Forall2_length in Hm. now rewrite <- Hm, length_combine. }
  rewrite <- Hk.
  pose proof (length_concat_uniform _ frames Hw) as Hcat.
  split; [|split; [reflexivity|split]].
  - cbn [List.length]. rewrite length_app, Hcat. cbn [List.length]. lia.
  - change (1 + List.length frames * (List.length atoms + 2))%nat
      with (S (List.length frames * (List.length atoms + 2))).
    cbn [nth_error].
    rewrite nth_error_app2 by lia. rewrite Hcat, Nat.sub_diag. reflexivity.
  - intros j f Hj Hf.
    exact (vibration_frame_at atoms frequencies normal_modes frames j f
             Hm Hw Hj Hf).
Qed.

End VibrationFrames.

Lemma vibration_script_frames_witness :
  exists v : string,
    ts_viewer.create_jsmol_vibration_script water [water_freq] [water_mode]
    = Ok (Some v)
    /\ split pipe v
       = ["load data 'model VIBRATIONS'"; "3"; "freq = -450.30 cm-1";
          "O 0.000000 0.000000 0.119262 0 0.000000 0.000000 0.070000";
          "H 0.000000 0.763239 -0.477047 0 0.000000 -0.430000 -0.560000";
          "H 0.000000 -0.763239 -0.477047 0 0.000000 0.430000 -0.560000";
          "end 'model VIBRATIONS'"]
    /\ List.length (split pipe v) = 7%nat.
Proof.
  destruct (ts_viewer.create_jsmol_vibration_script water [water_freq] [water_mode])
    as [[v|]|e] eqn:Hv; try (vm_compute in Hv; discriminate).
  exists v. split; [reflexivity|]. split.
  - vm_compute in Hv. injection Hv as <-. reflexivity.
  - apply (vibration_script_frames (Hfinite := micro_finite)
             water [water_freq] [water_mode] v); [| |exact Hv].
    + repeat constructor.
    + repeat constructor.
Defined.

(** ** The termination test and bytes that are no text *)

Lemma utf8_ignore_ascii (t rest : list N) :
  ascii_only t -> utf8_ignore (t ++ rest) = (t ++ utf8_ignore rest)%list.
Proof.
  induction 1 as [|a t Ha _ IH]; [reflexivity|].
  cbn [app utf8_ignore]. apply N.ltb_lt in Ha. now rewrite Ha, IH.
Qed.

Lemma utf8_ignore_ascii_id (t : list N) : ascii_only t -> utf8_ignore t = t.
Proof.
  induction 1 as [|a t Ha _ IH]; [reflexivity|].
  cbn [utf8_ignore]. apply N.ltb_lt in Ha. now rewrite Ha, IH.
Qed.

(** An ASCII byte is never swallowed by a malformed sequence before it. *)
Lemma utf8_ignore_ascii_cut (s rest : list N) (a : N) :
  (a < 128)%N ->
  utf8_ignore (s ++ a :: rest) = (utf8_ignore s ++ a :: utf8_ignore rest)%list.
Proof.
  intros Ha.
  assert (Hlt : (a <? 128)%N = true) by now apply N.ltb_lt.
  assert (Hc : is_continuation a = false).
  { unfold is_continuation. apply andb_false_iff. left. apply N.leb_gt. lia. }
  assert (H3 : forall b0, bad_second_3 b0 a = true).
  { intros b0. unfold bad_second_3. now rewrite Hc. }
  assert (H4 : forall b0, bad_second_4 b0 a = true).
  { intros b0. unfold bad_second_4. now rewrite Hc. }
  assert (Hhead : utf8_ignore (a :: rest) = a :: utf8_ignore rest).
  { cbn [utf8_ignore]. now rewrite Hlt. }
  assert (Hgen : forall n s, (List.length s <= n)%nat ->
            utf8_ignore (s ++ a :: rest)
            = (utf8_ignore s ++ a :: utf8_ignore rest)%list).
  { induction n as [|n IH]; intros s0 Hn.
    - destruct s0; [exact Hhead | cbn in Hn; lia].
    - destruct s0 as [|b0 r1]; [exact Hhead|].
      cbn [List.length] in Hn.
      assert (IH1 : utf8_ignore (r1 ++ a :: rest)
                    = (utf8_ignore r1 ++ a :: utf8_ignore rest)%list)
        by (apply IH; lia).
      change ((b0 :: r1) ++ a :: rest)%list with (b0 :: (r1 ++ a :: rest))%list.
      cbn [utf8_ignore].
      destruct (b0 <? 128)%N; [now rewrite IH1|].
      destruct (b0 <? 194)%N; [exact IH1|].
      destruct (b0 <? 224)%N.
      { destruct r1 as [|b1 r2]; [cbn [app]; now rewrite Hc|].
        cbn [app] in *. destruct (is_continuation b1); [|exact IH1].
        cbn [List.length] in Hn. rewrite (IH r2) by lia. reflexivity. }
      destruct (b0 <? 240)%N.
      { destruct r1 as [|b1 r2]; [cbn [app]; now rewrite H3|].
        cbn [app] in *. destruct (bad_second_3 b0 b1); [exact IH1|].
        cbn [List.length] in Hn.
        destruct r2 as [|b2 r3]; [cbn [app]; rewrite Hc; exact Hhead|].
        cbn [app] in *. cbn [List.length] in Hn.
        destruct (is_continuation b2).
        - rewrite (IH r3) by lia. reflexivity.
        - apply (IH (b2 :: r3)). cbn [List.length]. lia. }
      destruct (b0 <? 245)%N; [|exact IH1].
      destruct r1 as [|b1 r2]; [cbn [app]; now rewrite H4|].
      cbn [app] in *. destruct (bad_second_4 b0 b1); [exact IH1|].
      cbn [List.length] in Hn.
      destruct r2 as [|b2 r3]; [cbn [app]; rewrite Hc; exact Hhead|].
      cbn [app] in *. cbn [List.length] in Hn.
      destruct (is_continuation b2).
      + destruct r3 as [|b3 r4]; [cbn [app]; rewrite Hc; exact Hhead|].
        cbn [app] in *. cbn [List.length] in Hn.
        destruct (is_continuation b3).
        * rewrite (IH r4) by lia. reflexivity.
        * apply (IH (b3 :: r4)). cbn [List.length]. lia.
      + apply (IH (b2 :: r3)). cbn [List.length]. lia. }
  now apply (Hgen (List.length s)).
Qed.

Lemma utf8_ignore_keeps_ascii_run (before needle after : list N) :
  ascii_only needle ->
  Occurs needle (utf8_ignore (before ++ needle ++ after)).
Proof.
  intros Hn. destruct Hn as [|a needle Ha Hrest].
  - now exists [], (utf8_ignore (before ++ after)).
  - cbn [app]. rewrite (utf8_ignore_ascii_cut before _ a Ha).
    rewrite (utf8_ignore_ascii needle after Hrest).
    now exists (utf8_ignore before), (utf8_ignore after).
Qed.

Section TailBytes.
Context {float : Type} `{PyFloat float}.

Lemma tail_contains_bytes (E : environment float) (path needle : string)
    (n_lines : Z) :
  needle <> EmptyString ->
  ts_viewer._tail_contains E path needle n_lines
  = Ok (contains (codepoints needle)
          (utf8_ignore (window_bytes E path n_lines))).
Proof.
  intros Hne. unfold window_bytes.
  destruct (files E path) as [| | |size|content] eqn:Hf;
    try (rewrite tail_contains_unreadable by (now rewrite Hf);
         destruct needle; [contradiction | reflexivity]).
  now rewrite (tail_contains_readable E path needle n_lines content Hf).
Qed.

(** X12.  The termination test is robust against bytes that are no text.
    A non-empty ASCII needle whose bytes occur in the bytes that
    [_tail_contains] reads is always found, whatever surrounds it, valid
    UTF-8 or not.  When all the bytes read are ASCII the test is exact:
    it is true exactly when the needle occurs in them. *)
Theorem tail_contains_ascii_needle (E : environment float)
    (path needle : string) (n_lines : Z) :
  needle <> EmptyString ->
  (ascii_only (codepoints needle) ->
   Occurs (codepoints needle) (window_bytes E path n_lines) ->
   ts_viewer._tail_contains E path needle n_lines = Ok true)
  /\ (ascii_only (window_bytes E path n_lines) ->
      (ts_viewer._tail_contains E path needle n_lines = Ok true
       <-> Occurs (codepoints needle) (window_bytes E path n_lines))).
Proof.
  intros Hne. rewrite (tail_contains_bytes E path needle n_lines Hne). split.
  - intros Hascii [before [after ->]]. f_equal.
    apply contains_Occurs. now apply utf8_ignore_keeps_ascii_run.
  - intros Hwin.
    rewrite (utf8_ignore_ascii_id _ Hwin).
    rewrite <- contains_Occurs. split; [now intros [= ->] | now intros ->].
Qed.

End TailBytes.

Lemma tail_contains_ascii_needle_witness :
  ts_viewer._tail_contains noisy_batch "n_noisy.log"
    "Normal termination of Gaussian" 600 = Ok true.
Proof.
  refine (proj1 (tail_contains_ascii_needle noisy_batch "n_noisy.log"
                   "Normal termination of Gaussian" 600 _) _ _).
  - discriminate.
  - apply Forall_forall. intros b Hb. vm_compute in Hb.
    repeat (destruct Hb as [<-|Hb]; [reflexivity|]). contradiction.
  - exists [255%N; 226%N], [195%N]. reflexivity.
Defined.

(** ** Titles *)

Lemma html_escape_no_markup (c : ascii) (s : string) :
  In c ["<"%char; ">"%char; dquote; apostrophe] ->
  has_char c (html_escape s) = false.
Proof.
  unfold html_escape.
  intros [<-|[<-|[<-|[<-|[]]]]].
  - do 2 (apply has_char_replace_other; [reflexivity|]).
    apply has_char_replace_other; [reflexivity|].
    now apply has_char_replace_old.
  - do 2 (apply has_char_replace_other; [reflexivity|]).
    now apply has_char_replace_old.
  - apply has_char_replace_other; [reflexivity|].
    now apply has_char_replace_old.
  - now apply has_char_replace_old.
Qed.

Section Titles.
Context {float : Type} `{PyFloat float}.

(** X13.  No title can break out of the markup of a card: in all three
    scripts the title of a card (and in xyz_viewer also the path shown
    below it) holds none of the characters that open or close a tag or
    an attribute value, whatever the name of the file is. *)
Theorem card_titles_hold_no_markup (c : ascii) :
  In c ["<"%char; ">"%char; dquote; apostrophe] ->
  (forall (E : environment float) (i : Z) (title : string) (atoms : Atoms float)
          (frequencies : list float) (normal_modes : list (mode float))
          (card : ts_viewer.card),
      ts_viewer.make_vibration_card E i title atoms frequencies normal_modes
      = Ok card ->
      has_char c (ts_viewer.safe_title card) = false)
  /\ (forall (i : Z) (title : string) (n : Z) (f jsmol_script : string),
        has_char c (structure_viewer.safe_title
                      (structure_viewer.make_card i title n f jsmol_script))
        = false)
  /\ (forall (E : environment float) (i : Z) (file_path : string)
             (atoms : Atoms float),
        has_char c (xyz_viewer.safe_title
                      (xyz_viewer.make_structure_card E i file_path atoms))
        = false
        /\ has_char c (xyz_viewer.rel_path
                         (xyz_viewer.make_structure_card E i file_path atoms))
           = false).
Proof.
  intros Hc. split; [|split].
  - intros E i title atoms frequencies normal_modes card.
    unfold ts_viewer.make_vibration_card.
    destruct (if (len frequencies >? 0)%Z then _ else _) as [v|e];
      cbn [bind]; [|discriminate].
    intros [= <-]. cbn [ts_viewer.safe_title].
    now apply html_escape_no_markup.
  - intros i title n f js. now apply html_escape_no_markup.
  - intros E i file_path atoms. split; now apply html_escape_no_markup.
Qed.

End Titles.

Lemma card_titles_hold_no_markup_witness :
  xyz_viewer.safe_title
    (xyz_viewer.make_structure_card nothing 0 "min_xyz/<b>'water'.xyz" water)
  = "&lt;b&gt;&#x27;water&#x27;.xyz"
  /\ has_char "<"
       (xyz_viewer.safe_title
          (xyz_viewer.make_structure_card nothing 0 "min_xyz/<b>'water'.xyz"
             water))
     = false.
Proof.
  split; [reflexivity|].
  apply (card_titles_hold_no_markup "<"); now left.
Defined.

(** ** Logs that cclib cannot parse *)

Section Fallback.
Context {float : Type} `{PyFloat float}.
#[local] Abbreviation loop_state := (@ts_viewer.loop_state float).

(** X14.  A finished log that cclib cannot parse is handed to ASE.  When
    ASE reads a structure, the log gets a card without any vibration: it
    is reported and counted as a minimum, whatever its frequencies are.
    When ASE fails too, in any way at all, also with an exception that
    is no [Exception], the log is counted as a parse error and the batch
    goes on. *)
Theorem unparsed_log_shows_as_minimum (E : environment float) (i : nat)
    (log_file : string) (st : loop_state) (e : exn) :
  ts_viewer.gaussian_normally_terminated E log_file = Ok true ->
  cclib_parse E log_file = Raise e ->
  is_Exception e = true ->
  match read_last E log_file with
  | Ok atoms =>
      exists c : ts_viewer.card,
        ts_viewer.process_log E i log_file st
        = ({| ts_viewer.cards_html := (ts_viewer.cards_html st ++ [c])%list;
              ts_viewer.counts := counted MINIMUM (ts_viewer.counts st);
              ts_viewer.console :=
                (ts_viewer.console st
                 ++ [ts_viewer.Processing log_file;
                     ts_viewer.ErrorParsing log_file e;
                     ts_viewer.WarnNoImaginary])%list |}, Ok tt)
        /\ ts_viewer.n_imaginary c = 0%Z
        /\ ts_viewer.vibration_controls c = ts_viewer.NoModes
        /\ ts_viewer.esc_vibr c = EmptyString
        /\ ts_viewer.warning_text c = ts_viewer.make_warning_text 0
        /\ ts_viewer.natoms c = len atoms
  | Raise _ =>
      ts_viewer.process_log E i log_file st
      = ({| ts_viewer.cards_html := ts_viewer.cards_html st;
            ts_viewer.counts := counted PARSE_ERROR (ts_viewer.counts st);
            ts_viewer.console :=
              (ts_viewer.console st
               ++ [ts_viewer.Processing log_file;
                   ts_viewer.ErrorParsing log_file e;
                   ts_viewer.FailedToParse log_file])%list |}, Ok tt)
  end.
Proof.
  intros Hterm Hcclib He.
  unfold ts_viewer.process_log. rewrite Hterm.
  unfold ts_viewer.parse_gaussian_output, ts_viewer.parse_detailed.
  rewrite Hcclib. cbn [bind]. rewrite He.
  destruct (read_last E log_file) as [atoms|e'].
  - cbn [bind try_except_all fold_left].
    eexists. split.
    + cbn [ts_viewer.tally ts_viewer.make_vibration_card len List.length
           Z.of_nat Z.eqb Z.gtb Z.compare bind].
      unfold ts_viewer.append_card, ts_viewer.print, ts_viewer.with_counts.
      cbn [ts_viewer.counts ts_viewer.cards_html ts_viewer.console counted].
      rewrite <- !app_assoc. cbn [app]. reflexivity.
    + now repeat split.
  - cbn [bind try_except_all fold_left].
    unfold ts_viewer.print, ts_viewer.with_counts.
    cbn [ts_viewer.counts ts_viewer.cards_html ts_viewer.console counted].
    rewrite <- !app_assoc. reflexivity.
Qed.

End Fallback.

Lemma unparsed_log_shows_as_minimum_witness :
  exists c : ts_viewer.card,
    ts_viewer.process_log half_read_batch 0 "h_half.log" fresh_state
    = ({| ts_viewer.cards_html := [c];
          ts_viewer.counts := counted MINIMUM ts_viewer.zero_counts;
          ts_viewer.console :=
            [ts_viewer.Rule; ts_viewer.Processing "h_half.log";
             ts_viewer.ErrorParsing "h_half.log" ValueError;
             ts_viewer.WarnNoImaginary] |}, Ok tt)
    /\ ts_viewer.n_imaginary c = 0%Z.
Proof.
  pose proof (unparsed_log_shows_as_minimum half_read_batch 0 "h_half.log"
                fresh_state ValueError eq_refl eq_refl eq_refl) as Hlog.
  cbv beta iota delta [read_last half_read_batch world ase_frames find_file
                       half_read_run file_name file_frames String.eqb
                       Ascii.eqb Bool.eqb bind last_item] in Hlog.
  destruct Hlog as [c [Hrun [Hn _]]].
  exists c. split; [exact Hrun | exact Hn].
Defined.

(** ** Why a log is skipped *)

Section SkipReason.
Context {float : Type} `{PyFloat float}.
#[local] Abbreviation loop_state := (@ts_viewer.loop_state float).

Lemma process_log_unfinished (E : environment float) (i : nat)
    (log_file : string) (st : loop_state) :
  contains normal_marker (tail_window E log_file)
  && negb (contains error_marker (tail_window E log_file)) = false ->
  ts_viewer.process_log E i log_file st
  = (skipped_with
       (if contains error_marker (tail_window E log_file)
        then ts_viewer.SkipErrorTerminated log_file
        else ts_viewer.SkipNotTerminated log_file) log_file st, Ok tt).
Proof.
  intros Hno. unfold ts_viewer.process_log, ts_viewer.gaussian_normally_terminated.
  rewrite !tail_contains_window by discriminate. cbn [bind].
  fold normal_marker error_marker. rewrite Hno.
  unfold skipped_with, ts_viewer.print, ts_viewer.with_counts.
  cbn [ts_viewer.cards_html ts_viewer.counts ts_viewer.console].
  now rewrite <- app_assoc.
Qed.

(** X15.  The message with which an unfinished log is skipped: a log in
    whose tail window the error marker occurs is skipped as
    error-terminated, also when the marker of normal termination occurs
    there too; a log with neither marker is skipped as not normally
    terminated, and so is every log that cannot be opened or read.  In
    each case the log is counted as skipped and gets no card. *)
Theorem unfinished_log_skip_message (E : environment float) (i : nat)
    (log_file : string) (st : loop_state) :
  (Occurs error_marker (tail_window E log_file) ->
   ts_viewer.process_log E i log_file st
   = (skipped_with (ts_viewer.SkipErrorTerminated log_file) log_file st, Ok tt))
  /\ (~ Occurs error_marker (tail_window E log_file) ->
      ~ Occurs normal_marker (tail_window E log_file) ->
      ts_viewer.process_log E i log_file st
      = (skipped_with (ts_viewer.SkipNotTerminated log_file) log_file st, Ok tt))
  /\ (readable (files E log_file) = false ->
      ts_viewer.process_log E i log_file st
      = (skipped_with (ts_viewer.SkipNotTerminated log_file) log_file st, Ok tt)).
Proof.
  assert (Hnone : contains error_marker (tail_window E log_file) = false ->
                  contains normal_marker (tail_window E log_file) = false ->
                  ts_viewer.process_log E i log_file st
                  = (skipped_with (ts_viewer.SkipNotTerminated log_file)
                       log_file st, Ok tt)).
  { intros He Hn. rewrite process_log_unfinished; [now rewrite He|].
    now rewrite Hn. }
  split; [|split].
  - intros He. apply contains_Occurs in He.
    rewrite process_log_unfinished; rewrite He; [reflexivity|].
    apply andb_false_r.
  - intros He Hn. apply Hnone.
    + destruct (contains error_marker _) eqn:Hc; [|reflexivity].
      now apply contains_Occurs in Hc.
    + destruct (contains normal_marker _) eqn:Hc; [|reflexivity].
      now apply contains_Occurs in Hc.
  - intros Hr. unfold tail_window in Hnone.
    destruct (files E log_file); try discriminate; now apply Hnone.
Qed.

End SkipReason.

Lemma unfinished_log_skip_message_witness :
  ts_viewer.process_log mixed_batch 4 "b_failed.log" fresh_state
  = (skipped_with (ts_viewer.SkipErrorTerminated "b_failed.log")
       "b_failed.log" fresh_state, Ok tt)
  /\ Occurs normal_marker (tail_window mixed_batch "b_failed.log")
  /\ ts_viewer.process_log mixed_batch 3 "d_locked.log" fresh_state
     = (skipped_with (ts_viewer.SkipNotTerminated "d_locked.log")
          "d_locked.log" fresh_state, Ok tt).
Proof.
  split; [|split].
  - apply (unfinished_log_skip_message mixed_batch 4 "b_failed.log" fresh_state).
    now apply contains_Occurs.
  - now apply contains_Occurs.
  - now apply (unfinished_log_skip_message mixed_batch 3 "d_locked.log"
                 fresh_state).
Defined.

(** ** The mode selector and the frames of the vibration script *)

Lemma split_nonempty (sep : ascii) (s : string) : split sep s <> [].
Proof.
  induction s as [|c s IH]; cbn [split]; [discriminate|].
  destruct (Ascii.eqb c sep); [discriminate|].
  destruct (split sep s); discriminate.
Qed.

Lemma split_app_free (sep : ascii) (a b : string) :
  has_char sep a = false ->
  split sep (a ++ b)
  = match split sep b with
    | [] => []
    | p :: ps => (a ++ p) :: ps
    end.
Proof.
  induction a as [|c a IH]; cbn [append has_char]; intros Ha.
  - destruct (split sep b) eqn:Hb; [now apply split_nonempty in Hb | reflexivity].
  - apply orb_false_iff in Ha as [Hc Ha]. cbn [split].
    rewrite Hc, (IH Ha).
    destruct (split sep b) eqn:Hb; [now apply split_nonempty in Hb | reflexivity].
Qed.

Lemma split_replace (sep old : ascii) (new s : string) :
  old <> sep -> has_char sep new = false ->
  split sep (replace old new s) = map (replace old new) (split sep s).
Proof.
  intros Hne Hnew. induction s as [|c s IH]; [reflexivity|].
  cbn [replace split].
  destruct (Ascii.eqb_spec c sep) as [->|Hc].
  - destruct (Ascii.eqb_spec sep old) as [Heq|_]; [now contradiction Hne|].
    cbn [char append split]. rewrite Ascii.eqb_refl, IH. reflexivity.
  - destruct (split sep s) as [|p ps] eqn:Hs; [now apply split_nonempty in Hs|].
    cbn [map] in *.
    destruct (Ascii.eqb_spec c old) as [->|Hco].
    + rewrite (split_app_free sep new _ Hnew), IH.
      cbn [replace]. now rewrite Ascii.eqb_refl.
    + cbn [char append split].
      destruct (Ascii.eqb_spec c sep) as [|_]; [contradiction|].
      rewrite IH. cbn [replace].
      destruct (Ascii.eqb_spec c old) as [|_]; [contradiction|]. reflexivity.
Qed.

Lemma split_js_escape (s : string) :
  split pipe (ts_viewer.js_escape s) = map ts_viewer.js_escape (split pipe s).
Proof.
  unfold ts_viewer.js_escape.
  rewrite split_replace by (discriminate || reflexivity).
  rewrite split_replace by (discriminate || reflexivity).
  now rewrite map_map.
Qed.

Lemma js_escape_plain (s : string) :
  has_char dquote s = false -> has_char apostrophe s = false ->
  ts_viewer.js_escape s = s.
Proof.
  intros Hd Ha. unfold ts_viewer.js_escape.
  now rewrite (replace_free dquote _ s Hd), (replace_free apostrophe _ s Ha).
Qed.

Lemma enumerate_nth_error {A : Type} (xs : list A) (k : nat) (x : A) :
  nth_error xs k = Some x -> nth_error (enumerate xs) k = Some (k, x).
Proof.
  unfold enumerate.
  assert (Hgen : forall s j, nth_error xs j = Some x ->
                   nth_error (combine (seq s (List.length xs)) xs) j
                   = Some ((s + j)%nat, x)).
  { induction xs as [|y xs IH]; intros s j; [destruct j; discriminate|].
    destruct j as [|j]; cbn [nth_error List.length seq combine].
    - intros [= ->]. do 2 f_equal. lia.
    - intros Hj. rewrite (IH (S s) j Hj). do 2 f_equal. lia. }
  intros Hk. exact (Hgen 0%nat k Hk).
Qed.

Section ModeSelector.
Context {float : Type} `{Hfinite : PyFloatFinite float}.
#[local] Abbreviation mode := (mode float).

(** X16.  The mode selector and the vibration script agree.  On a card
    with several imaginary frequencies, each with its displacement
    table, option number k of the selector (values count from 1) shows
    the k-th frequency, and the k-th frame of the script embedded in the
    card, the one the selector switches to with [model k], carries the
    label of that same frequency. *)
Theorem option_selects_its_frame (E : environment float) (i : Z)
    (title : string) (atoms : Atoms float) (frequencies : list float)
    (normal_modes : list mode) (c : ts_viewer.card) :
  Forall (fun a => has_char newline (symbol a) = false
                   /\ has_char pipe (symbol a) = false) atoms ->
  Forall (fun f => is_fixed 2 (format_2f f) = true) frequencies ->
  (1 < List.length frequencies)%nat ->
  (List.length frequencies <= List.length normal_modes)%nat ->
  ts_viewer.make_vibration_card E i title atoms frequencies normal_modes = Ok c ->
  exists options : list (Z * float),
    ts_viewer.vibration_controls c = ts_viewer.ModeSelect options
    /\ List.length options = List.length frequencies
    /\ forall (k : nat) (f : float),
         nth_error frequencies k = Some f ->
         nth_error options k = Some (Z.of_nat k + 1, f)%Z
         /\ nth_error (split pipe (ts_viewer.esc_vibr c))
                      (2 + k * (List.length atoms + 2))
            = Some ("freq = " ++ format_2f f ++ " cm-1").
Proof.
  intros Hsym Hfix Hmany Htables Hcard.
  unfold ts_viewer.make_vibration_card in Hcard.
  assert (Hpos : (len frequencies >? 0)%Z = true).
  { apply Z.gtb_lt. unfold len. lia. }
  rewrite Hpos in Hcard.
  destruct (ts_viewer.create_jsmol_vibration_script atoms frequencies normal_modes)
    as [[v|]|e] eqn:Hv; cbn [bind] in Hcard; [| |discriminate].
  2: { unfold ts_viewer.create_jsmol_vibration_script in Hv.
       destruct frequencies as [|f0 fs]; [cbn in Hmany; lia|].
       destruct normal_modes as [|m0 ms]; [cbn in Htables; lia|].
       destruct (mapM _ _); discriminate. }
  injection Hcard as <-.
  cbn [ts_viewer.vibration_controls ts_viewer.esc_vibr].
  exists (map (fun jf : nat * float => (Z.of_nat (fst jf) + 1, snd jf)%Z)
              (enumerate frequencies)).
  split; [|split].
  - unfold ts_viewer.make_controls.
    destruct (Z.eqb_spec (len frequencies) 1) as [H1|_]; [unfold len in H1; lia|].
    destruct (Z.gtb_spec (len frequencies) 1) as [_|H1]; [reflexivity|].
    unfold len in H1. lia.
  - rewrite length_map. unfold enumerate.
    now rewrite length_combine, length_seq, Nat.min_id.
  - intros k f Hk. split.
    + rewrite nth_error_map, (enumerate_nth_error frequencies k f Hk).
      reflexivity.
    + assert (Hesc : match v with
                     | EmptyString => EmptyString
                     | String _ _ => ts_viewer.js_escape v
                     end = ts_viewer.js_escape v) by now destruct v.
      rewrite Hesc, split_js_escape, nth_error_map.
      assert (Hkm : (k < List.length normal_modes)%nat).
      { assert (k < List.length frequencies)%nat
          by (apply nth_error_Some; congruence). lia. }
      destruct (vibration_script_split atoms frequencies normal_modes v
                  Hsym Hfix Hv) as [frames [Hm [Hw Hsplit]]].
      destruct (vibration_frame_at atoms frequencies normal_modes frames k f
                  Hm Hw Hkm Hk) as [_ Hlabel].
      rewrite Hsplit, Hlabel. cbn [option_map]. f_equal.
      pose proof (proj1 (Forall_forall _ _) Hfix f (nth_error_In _ _ Hk)) as Hf.
      cbn beta in Hf.
      apply js_escape_plain.
      * rewrite !has_char_app.
        now rewrite (is_fixed_no_char dquote 2 _ eq_refl ltac:(discriminate)
                       ltac:(discriminate) Hf).
      * rewrite !has_char_app.
        now rewrite (is_fixed_no_char apostrophe 2 _ eq_refl ltac:(discriminate)
                       ltac:(discriminate) Hf).
Qed.

End ModeSelector.

Lemma option_selects_its_frame_witness :
  exists (c : ts_viewer.card) (options : list (Z * Z)),
    ts_viewer.make_vibration_card nothing 0 "saddle.log" water
      [water_freq; (-120000000)%Z] [water_mode; stretch_mode] = Ok c
    /\ ts_viewer.vibration_controls c = ts_viewer.ModeSelect options
    /\ nth_error options 1 = Some (2, -120000000)%Z
    /\ nth_error (split pipe (ts_viewer.esc_vibr c)) 7
       = Some "freq = -120.00 cm-1".
Proof.
  destruct (ts_viewer.make_vibration_card nothing 0 "saddle.log" water
              [water_freq; (-120000000)%Z] [water_mode; stretch_mode])
    as [c|e] eqn:Hc; [|vm_compute in Hc; discriminate].
  destruct (option_selects_its_frame (Hfinite := micro_finite)
              nothing 0 "saddle.log" water
              [water_freq; (-120000000)%Z] [water_mode; stretch_mode] c)
    as [options [Hctl [_ Hopt]]].
  - repeat constructor.
  - repeat constructor.
  - cbn. lia.
  - cbn. lia.
  - exact Hc.
  - exists c, options. split; [reflexivity|]. split; [exact Hctl|].
    exact (Hopt 1%nat (-120000000)%Z eq_refl).
Defined.

(** ** Card indices and parse errors *)

Section IndexOffset.
Context {float : Type} `{PyFloat float}.
#[local] Abbreviation loop_state := (@ts_viewer.loop_state float).

Lemma process_logs_offsets (E : environment float) (logs : list string)
    (k : nat) (st st' : loop_state) :
  ts_viewer.process_logs E (combine (seq k (List.length logs)) logs) st
  = (st', Ok tt) ->
  processed st = Z.of_nat k ->
  (0 <= ts_viewer.n_errors (ts_viewer.counts st))%Z ->
  indices_near_positions st ->
  (0 <= ts_viewer.n_errors (ts_viewer.counts st'))%Z
  /\ indices_near_positions st'.
Proof.
  revert k st. induction logs as [|log_file logs IH]; intros k st;
    cbn [List.length seq combine ts_viewer.process_logs].
  - now intros [= <-] _ He Hinv.
  - destruct (ts_viewer.process_log E k log_file st) as [st1 [[]|e]] eqn:Hstep;
      [|discriminate].
    intros Hrest Hk He Hinv.
    pose proof (process_log_accounts E k log_file st st1 Hstep) as Hacc.
    apply (IH (S k) st1 Hrest); [lia | |];
      destruct (process_log_done E k log_file st st1 Hstep)
        as [[_ [Hc Hn]]|[[_ [_ [Hc Hn]]]|[_ Hcard]]].
    + rewrite Hn. cbn [counted ts_viewer.skip_one ts_viewer.n_errors]. lia.
    + rewrite Hn. cbn [counted ts_viewer.error_one ts_viewer.n_errors]. lia.
    + destruct Hcard as [lines [atoms [fs [ms [c [_ [_ [_ Hn]]]]]]]].
      rewrite Hn. unfold outcome_of_count.
      now destruct (len fs =? 0)%Z, (len fs =? 1)%Z.
    + unfold indices_near_positions. rewrite Hc, Hn.
      cbn [counted ts_viewer.skip_one ts_viewer.n_errors]. exact Hinv.
    + unfold indices_near_positions. rewrite Hc, Hn.
      cbn [counted ts_viewer.error_one ts_viewer.n_errors].
      intros j c Hj. pose proof (Hinv j c Hj). lia.
    + destruct Hcard as [lines [atoms [fs [ms [c [_ [Hmk [Hc Hn]]]]]]]].
      destruct (make_vibration_card_fields E _ log_file atoms fs ms c Hmk)
        as [Hidx _].
      assert (Hsame : ts_viewer.n_errors (ts_viewer.counts st1)
                      = ts_viewer.n_errors (ts_viewer.counts st)).
      { rewrite Hn. unfold outcome_of_count.
        now destruct (len fs =? 0)%Z, (len fs =? 1)%Z. }
      unfold indices_near_positions. rewrite Hc, Hsame.
      intros j c' Hj.
      destruct (Nat.lt_ge_cases j (List.length (ts_viewer.cards_html st)))
        as [Hlt|Hge].
      * rewrite nth_error_app1 in Hj by exact Hlt. now apply Hinv.
      * rewrite nth_error_app2 in Hj by exact Hge.
        destruct (j - List.length (ts_viewer.cards_html st))%nat as [|d] eqn:Hd;
          [|destruct d; discriminate].
        injection Hj as <-. rewrite Hidx.
        unfold processed, len in Hk. lia.
Qed.

(** X17.  How far the index of a card of ts_viewer can be from its place
    in the document: never below it, and above it by at most the number
    of parse errors the summary reports.  So in a run without parse
    errors the cards are numbered 0, 1, 2, ... in document order, however
    many logs were skipped. *)
Theorem ts_index_within_parse_errors (E : environment float) (out : string)
    (cards : list (@ts_viewer.card float)) :
  ts_viewer.written (ts_viewer.main E) = Some (out, cards) ->
  exists n_valid_ts n_minimum n_higher_order n_errors n_skipped : Z,
    In (ts_viewer.Summary n_valid_ts n_minimum n_higher_order n_errors
          n_skipped (len cards))
       (ts_viewer.printed (ts_viewer.main E))
    /\ (0 <= n_errors)%Z
    /\ forall (k : nat) (c : ts_viewer.card),
         nth_error cards k = Some c ->
         (Z.of_nat k <= ts_viewer.idx c <= Z.of_nat k + n_errors)%Z.
Proof.
  intros Hw.
  destruct (main_written E out cards Hw) as [st [Hloop [Hcards [_ [_ Hprint]]]]].
  exists (ts_viewer.n_valid_ts (ts_viewer.counts st)),
         (ts_viewer.n_minimum (ts_viewer.counts st)),
         (ts_viewer.n_higher_order (ts_viewer.counts st)),
         (ts_viewer.n_errors (ts_viewer.counts st)),
         (ts_viewer.n_skipped (ts_viewer.counts st)).
  split.
  { rewrite Hprint. apply in_or_app. right. cbn. auto. }
  destruct (process_logs_offsets E (discovered_logs E) 0 fresh_state st Hloop)
    as [He Hinv].
  - reflexivity.
  - cbn. lia.
  - intros k c Hk. destruct k; discriminate.
  - split; [exact He|]. rewrite <- Hcards. exact Hinv.
Qed.

End IndexOffset.

Lemma ts_index_within_parse_errors_witness :
  exists (out : string) (cards : list (@ts_viewer.card Z)),
    ts_viewer.written (ts_viewer.main mixed_batch) = Some (out, cards)
    /\ map ts_viewer.idx cards = [0; 2; 3]%Z
    /\ exists n_valid_ts n_minimum n_higher_order n_errors n_skipped : Z,
         In (ts_viewer.Summary n_valid_ts n_minimum n_higher_order n_errors
               n_skipped (len cards))
            (ts_viewer.printed (ts_viewer.main mixed_batch))
         /\ (0 <= n_errors)%Z
         /\ forall (k : nat) (c : ts_viewer.card),
              nth_error cards k = Some c ->
              (Z.of_nat k <= ts_viewer.idx c <= Z.of_nat k + n_errors)%Z.
Proof.
  destruct (ts_viewer.written (ts_viewer.main mixed_batch))
    as [[out cards]|] eqn:Hw; [|vm_compute in Hw; discriminate].
  exists out, cards. split; [reflexivity|]. split.
  - vm_compute in Hw. now injection Hw as _ <-.
  - exact (ts_index_within_parse_errors mixed_batch out cards Hw).
Defined.

(** ** How a run of structure_viewer ends *)

Section GalleryRun.
Context {float : Type} `{PyFloat float}.
#[local] Abbreviation sv_state := (structure_viewer.loop_state).



End GalleryRun.


(** ** The page template of xyz_viewer *)

Section ReplaceAll.
Variables (g x : ascii) (old' new' : string).
#[local] Abbreviation old := (String g old').
#[local] Abbreviation new := (String x new').
Hypothesis new_lacks_g : has_char g new = false.
Hypothesis old_lacks_x : has_char x old = false.

Lemma startswith_through_copy (pat s : string) :
  has_char x pat = false ->
  str_startswith pat (replace_from old new 0 s) = true ->
  str_startswith pat s = true.
Proof.
  revert pat. induction s as [|c rest IH]; intros pat Hpat.
  - exact (fun h => h).
  - cbn [replace_from].
    destruct (str_startswith old (String c rest)).
    + destruct pat as [|a pat']; [reflexivity|].
      cbn [has_char] in Hpat. apply orb_false_iff in Hpat as [Ha _].
      cbn [append str_startswith]. now rewrite Ha.
    + destruct pat as [|a pat']; [reflexivity|].
      cbn [has_char] in Hpat. apply orb_false_iff in Hpat as [_ Hpat'].
      cbn [str_startswith]. intros Hs.
      apply andb_true_iff in Hs as [-> Hs]. now apply IH.
Qed.

Lemma str_in_past (prefix rest : string) :
  has_char g prefix = false ->
  str_in old (prefix ++ rest) = str_in old rest.
Proof.
  induction prefix as [|a prefix IH]; intros Hp; [reflexivity|].
  cbn [has_char] in Hp. apply orb_false_iff in Hp as [Ha Hp].
  cbn [append str_in str_startswith].
  rewrite Ascii.eqb_sym, Ha. cbn [andb orb]. now apply IH.
Qed.

Lemma replace_from_removes (s : string) (skip : nat) :
  str_in old (replace_from old new skip s) = false.
Proof.
  revert skip. induction s as [|c rest IH]; intros skip; [reflexivity|].
  cbn [replace_from]. destruct skip as [|k]; [|apply IH].
  destruct (str_startswith old (String c rest)) eqn:Hmatch.
  - rewrite (str_in_past new _ new_lacks_g). apply IH.
  - pose proof (startswith_through_copy old (String c rest) old_lacks_x) as Hcopy.
    cbn [replace_from] in Hcopy. rewrite Hmatch in Hcopy.
    change (str_in old (String c (replace_from old new 0 rest)))
      with (str_startswith old (String c (replace_from old new 0 rest))
            || str_in old (replace_from old new 0 rest)).
    rewrite IH, orb_false_r.
    destruct (str_startswith old (String c (replace_from old new 0 rest)));
      [|reflexivity].
    now specialize (Hcopy eq_refl).
Qed.

End ReplaceAll.

(** X19.  Whatever template the optional module provides, the page
    template of xyz_viewer never carries the title of the Gaussian
    viewer: after [_derive_html_template] that title occurs nowhere in
    it, also not where the replacement text meets its surroundings. *)
Theorem derived_template_drops_gaussian_title
    (AMK_HTML_TEMPLATE : option string) (DEFAULT_HTML_TEMPLATE : string) :
  str_in "Gaussian16 Transition State Visualization"
    (xyz_viewer._derive_html_template AMK_HTML_TEMPLATE DEFAULT_HTML_TEMPLATE)
  = false.
Proof.
  unfold xyz_viewer._derive_html_template.
  set (base := match AMK_HTML_TEMPLATE with
               | Some (String _ _ as template) => template
               | _ => DEFAULT_HTML_TEMPLATE
               end).
  destruct (str_in "Gaussian16 Transition State Visualization" base) eqn:Hin;
    [|exact Hin].
  unfold replace_all. apply replace_from_removes; reflexivity.
Qed.
